(** * PSVHUD: the marker layer of Photo-Sphere-Viewer

    A shallow embedding of [src/js/components/PSVHUD.js] and the properties
    of its marker registry, of the per-frame projection pass and of the
    polygon clipping code.

    The source file holds two listings of the component.  The second one
    (lines 500-1214) is the one with the field-of-view bounds and the
    clipping of polygons: its registry, its projection pass, its clipping
    and its event handlers are embedded below.  The
    first one (lines 1-499) has the same registry, except that its
    [addMarker] returns nothing, and a projection pass without clipping:
    these are embedded in [Module Earlier].

    JavaScript numbers are IEEE 754 binary64 values: they are modelled by
    Rocq's primitive floats, comparisons included (anything compared with
    NaN is false).  Values produced by the bitwise assignments [^=] and
    [&=] are 32-bit integers, modelled in [Z] with the wrap-around written
    out. *)

From Stdlib Require Import Floats ZArith.
From stdpp Require Import base gmap strings list.

Set Warnings "-inexact-float".

(** ** JavaScript values of the [visible] flags *)

(** A flag is written as a boolean ([= true], [= false], [a > b && ...]) and
    as a number ([^= true], [&= ...]). *)
Inductive jsflag :=
  | JBool (b : bool)
  | JInt (z : Z).

(** ToBoolean *)
Definition truthy (v : jsflag) : bool :=
  match v with
  | JBool b => b
  | JInt z => negb (z =? 0)%Z
  end.

(** Wrap-around of a signed 32-bit integer. *)
Definition wrap32 (z : Z) : Z := ((z + 2 ^ 31) mod 2 ^ 32 - 2 ^ 31)%Z.

(** ToInt32 *)
Definition ToInt32 (v : jsflag) : Z :=
  match v with
  | JBool true => 1%Z
  | JBool false => 0%Z
  | JInt z => wrap32 z
  end.

(** [a ^ b] and [a & b] *)
Definition js_xor (a b : jsflag) : jsflag :=
  JInt (wrap32 (Z.lxor (ToInt32 a) (ToInt32 b))).
Definition js_bitand (a b : jsflag) : jsflag :=
  JInt (wrap32 (Z.land (ToInt32 a) (ToInt32 b))).

(** [a && b] gives [a] when [a] is falsy and [b] otherwise; [a || b] gives
    [a] when [a] is truthy. *)
Definition js_and (a b : jsflag) : jsflag := if truthy a then b else a.
Definition js_or (a b : jsflag) : jsflag := if truthy a then a else b.

(** [!!a] *)
Definition js_notnot {A} (a : option A) : jsflag := JBool (bool_decide (is_Some a)).

(** ** Numbers *)

Declare Scope js_scope.
Delimit Scope js_scope with js.
Notation "a + b" := (PrimFloat.add a b) : js_scope.
Notation "a - b" := (PrimFloat.sub a b) : js_scope.
Notation "a * b" := (PrimFloat.mul a b) : js_scope.
Notation "a / b" := (PrimFloat.div a b) : js_scope.
Notation "a < b" := (JBool (PrimFloat.ltb a b)) : js_scope.
Notation "a > b" := (JBool (PrimFloat.ltb b a)) : js_scope.
Notation "a <= b" := (JBool (PrimFloat.leb a b)) : js_scope.
Notation "a >= b" := (JBool (PrimFloat.leb b a)) : js_scope.
Notation "a && b" := (js_and a b) : js_scope.
Notation "a || b" := (js_or a b) : js_scope.

Definition Math_PI : float := 0x1.921fb54442d18p+1.

(** Math.min and Math.max: NaN when an argument is NaN; of two equal
    arguments, which differ when they are the two zeros, the least is the
    negative one and the greatest the positive one. *)
Definition Math_min (a b : float) : float :=
  if PrimFloat.is_nan a then a else if PrimFloat.is_nan b then b
  else if PrimFloat.ltb b a then b
  else if PrimFloat.ltb a b then a
  else if PrimFloat.get_sign a then a else b.
Definition Math_max (a b : float) : float :=
  if PrimFloat.is_nan a then a else if PrimFloat.is_nan b then b
  else if PrimFloat.ltb a b then b
  else if PrimFloat.ltb b a then a
  else if PrimFloat.get_sign a then b else a.

(** ** THREE.Vector3 *)

Record Vector3 := { x : float; y : float; z : float }.

Module THREE.
Definition dot (a v : Vector3) : float :=
  (x a * x v + y a * y v + z a * z v)%js.

Definition crossVectors (a b : Vector3) : Vector3 :=
  {| x := (y a * z b - z a * y b)%js;
     y := (z a * x b - x a * z b)%js;
     z := (x a * y b - y a * x b)%js |}.

Definition multiplyScalar (v : Vector3) (s : float) : Vector3 :=
  {| x := (x v * s)%js; y := (y v * s)%js; z := (z v * s)%js |}.
End THREE.

(** ** Markers *)

(** Screen coordinates [{top, left}], spherical coordinates
    [{longitude, latitude}] and the viewport size. *)
Record Position := { top : float; left : float }.
Record SphericalCoords := { longitude : float; latitude : float }.
Record Size := { size_width : float; size_height : float }.
Record DOMRect := { rect_left : float; rect_right : float; rect_top : float; rect_bottom : float }.

(** A point marker has [position3D]; a polygon has [positions3D] and the
    parallel array [polygon_rad] of [[latitude, longitude]] pairs. *)
Inductive Geometry :=
  | Point (position3D : Vector3)
  | Polygon (positions3D : list Vector3) (polygon_rad : list (float * float)).

Record Tooltip := { tooltip_content : string; tooltip_position : string }.

(** The element [marker.$el]: the class [visible], the attribute [points]
    of a polygon (kept as the positions it is printed from) and the
    translation and rotation of [style.transform]. *)
Record Element := {
  classList_visible : bool;
  attr_points : option (list Position);
  style_transform : option (Position * float)
}.

Record Marker := {
  marker_id : string;
  visible : jsflag;
  geometry : Geometry;
  width : float;
  height : float;
  anchor : Position;
  dynamicSize : bool;
  tooltip : option Tooltip;
  content : option string;
  position2D : option Position;
  el : Element
}.

Definition isPolygon (m : Marker) : bool :=
  match geometry m with Polygon _ _ => true | Point _ => false end.
Definition isNormal (m : Marker) : bool := negb (isPolygon m).

Definition set_visible (v : jsflag) (m : Marker) : Marker :=
  {| marker_id := marker_id m; visible := v; geometry := geometry m;
     width := width m; height := height m; anchor := anchor m;
     dynamicSize := dynamicSize m; tooltip := tooltip m; content := content m;
     position2D := position2D m; el := el m |}.

Definition set_dimensions (w h : float) (m : Marker) : Marker :=
  {| marker_id := marker_id m; visible := visible m; geometry := geometry m;
     width := w; height := h; anchor := anchor m;
     dynamicSize := dynamicSize m; tooltip := tooltip m; content := content m;
     position2D := position2D m; el := el m |}.

Definition set_position2D (p : option Position) (m : Marker) : Marker :=
  {| marker_id := marker_id m; visible := visible m; geometry := geometry m;
     width := width m; height := height m; anchor := anchor m;
     dynamicSize := dynamicSize m; tooltip := tooltip m; content := content m;
     position2D := p; el := el m |}.

Definition set_el (e : Element) (m : Marker) : Marker :=
  {| marker_id := marker_id m; visible := visible m; geometry := geometry m;
     width := width m; height := height m; anchor := anchor m;
     dynamicSize := dynamicSize m; tooltip := tooltip m; content := content m;
     position2D := position2D m; el := e |}.

(** The properties object given to [addMarker] and [updateMarker]. *)
Record Properties := {
  p_id : option string;
  p_visible : bool;
  p_geometry : Geometry;
  p_width : float;
  p_height : float;
  p_anchor : Position;
  p_dynamicSize : bool;
  p_tooltip : option Tooltip;
  p_content : option string
}.

(** Modelled from the spec: the constructor of [PSVMarker] (PSVMarker.js is
    not among the sources).  A marker has the id, kind, positions, anchor,
    size, tooltip and content of its properties; [visible] is a boolean;
    [position2D] is null until a projection pass computes it. *)
Definition new_PSVMarker (id : string) (p : Properties) : Marker :=
  {| marker_id := id; visible := JBool (p_visible p); geometry := p_geometry p;
     width := p_width p; height := p_height p; anchor := p_anchor p;
     dynamicSize := p_dynamicSize p; tooltip := p_tooltip p; content := p_content p;
     position2D := None;
     el := {| classList_visible := false; attr_points := None; style_transform := None |} |}.

(** Modelled from the spec: [PSVMarker.prototype.update] (PSVMarker.js is
    not among the sources) merges new properties into the marker's state:
    position, size, visibility flag, tooltip and content.  The id is
    immutable after creation. *)
Definition PSVMarker_update (p : Properties) (m : Marker) : Marker :=
  {| marker_id := marker_id m; visible := JBool (p_visible p); geometry := p_geometry p;
     width := p_width p; height := p_height p; anchor := p_anchor p;
     dynamicSize := p_dynamicSize p; tooltip := p_tooltip p; content := p_content p;
     position2D := position2D m; el := el m |}.

(** ** The viewer *)

(** What the HUD reads from [this.psv] and from the libraries around it:
    the camera state in [psv.prop], the coordinate conversions of the
    viewer, [PSVUtils], the transcendental functions of [Math],
    [THREE.Vector3.normalize] and the layout of a marker element. *)
Record PhotoSphereViewer := {
  prop_longitude : float;
  prop_latitude : float;
  prop_hFov : float;
  prop_vFov : float;
  prop_direction : Vector3;
  prop_size : Size;
  isGyroscopeEnabled : bool;
  camera_rotation_z : float;
  vector3ToViewerCoords : Vector3 -> Position;
  vector3ToSphericalCoords : Vector3 -> SphericalCoords;
  sphericalCoordsToVector3 : float -> float -> Vector3;
  parseAngle : float -> float;
  Deg2Rad : float;
  Math_sin : float -> float;
  Math_cos : float -> float;
  Math_acos : float -> float;
  normalize : Vector3 -> Vector3;
  getBoundingClientRect : Marker -> DOMRect
}.

(** ** The HUD *)

(** Marker objects live in [store]; a reference to a marker is its index
    there.  [markers] is the object [this.markers], from ids to marker
    references (its own properties: the ones it inherits from
    [Object.prototype] are left out); [container] and [svg] list the marker
    elements attached to the two surfaces; [tooltip_shown] is the state of
    [psv.tooltip]. *)
Abbreviation ref := nat (only parsing).

Record FovBounds := {
  longitude1 : float;
  longitude2 : float;
  latitude1 : float;
  latitude2 : float;
  latitudeCrossOrigin : bool
}.

Record PSVHUD := {
  markers : gmap string ref;
  store : list Marker;
  container : list ref;
  svg : list ref;
  currentMarker : option ref;
  hoveringMarker : option ref;
  prop_fovBounds : option FovBounds;
  prop_frustrumPoints : list Vector3;
  tooltip_shown : bool
}.

(** [function PSVHUD(psv)] *)
Definition new_PSVHUD : PSVHUD :=
  {| markers := ∅; store := []; container := []; svg := [];
     currentMarker := None; hoveringMarker := None;
     prop_fovBounds := None; prop_frustrumPoints := [];
     tooltip_shown := false |}.

(** ** Completions *)

(** The HUD throws [PSVError] with a message; reading a property of
    [undefined] throws a [TypeError]. *)
Inductive JsError :=
  | PSVError (message : string)
  | TypeError.

Inductive Completion (A : Type) :=
  | Normal (a : A)
  | Throw (e : JsError).
Arguments Normal {A} a.
Arguments Throw {A} e.

#[export] Instance Completion_ret : MRet Completion := @Normal.
#[export] Instance Completion_bind : MBind Completion := λ A B f c,
  match c with
  | Normal a => f a
  | Throw e => Throw e
  end.

(** Reading a property of [o]: a [TypeError] when [o] is undefined. *)
Definition deref {A} (o : option A) : Completion A :=
  match o with
  | Some a => Normal a
  | None => Throw TypeError
  end.

(** [undefined], as the value of a variable never assigned and of a
    function that ends without [return]. *)
Definition undefined {A} : option A := None.

(** [array[i]] for a number [i]: undefined outside of the array. *)
Definition at_index {A} (l : list A) (i : Z) : option A :=
  if (i <? 0)%Z then None else l !! Z.to_nat i.

(** ** Polygon clipping (lines 882-1078) *)

(** The objects [{spherical, vector, visible}] built by
    [_getPolygonPositions]. *)
Record Vertex := {
  spherical : float * float;
  vector : option Vector3;
  vertex_visible : jsflag
}.

(** The inclusion test of the first [map] callback (lines 886-895);
    [pos] is [[latitude, longitude]]. *)
Definition vertexVisible (b : FovBounds) (pos : float * float) : jsflag :=
  let lat := fst pos in
  let lon := snd pos in
  let visible := ((lat > latitude1 b) && (lat < latitude2 b))%js in
  if truthy visible then
    if truthy (longitude1 b > longitude2 b)%js
    then js_bitand visible ((lon > longitude1 b) || (lon < longitude2 b))%js
    else js_bitand visible ((lon > longitude1 b) && (lon < longitude2 b))%js
  else visible.

(** [1e-15], as the nearest binary64 value *)
Definition epsilon : float := 0x1.203af9ee75616p-50.

Section Clipping.
Variable psv : PhotoSphereViewer.

(** The expression
    [Math.acos(Math.sin(A.latitude) * Math.sin(B.latitude) +
     Math.cos(A.latitude) * Math.cos(B.latitude) *
     Math.cos(Math.abs(A.longitude - B.longitude)))],
    written out nine times in [_computeArcIntersection2]. *)
Definition arcDistance (A B : SphericalCoords) : float :=
  Math_acos psv
    (Math_sin psv (latitude A) * Math_sin psv (latitude B) +
     Math_cos psv (latitude A) * Math_cos psv (latitude B) *
     Math_cos psv (PrimFloat.abs (longitude A - longitude B)))%js.

(** The three tests [D - D1 - D2 < 1e-15] (lines 1052, 1060, 1072). *)
Definition arcTest (D D1 D2 : float) : bool :=
  PrimFloat.ltb (D - D1 - D2)%js epsilon.

(** The body of [_computeArcIntersection2] for four vectors. *)
Definition arcIntersection2 (P1 P2 P3 P4 : Vector3) : option Vector3 :=
  let U1 := normalize psv (THREE.crossVectors P1 P2) in
  let U2 := normalize psv (THREE.crossVectors P3 P4) in
  let S1 := normalize psv (THREE.crossVectors U1 U2) in
  let S2 := THREE.multiplyScalar S1 (-1)%float in
  let S1_ := vector3ToSphericalCoords psv S1 in
  let S2_ := vector3ToSphericalCoords psv S2 in
  let P1_ := vector3ToSphericalCoords psv P1 in
  let P2_ := vector3ToSphericalCoords psv P2 in
  let P3_ := vector3ToSphericalCoords psv P3 in
  let P4_ := vector3ToSphericalCoords psv P4 in
  let P1_P2 := arcDistance P1_ P2_ in
  let S1_P1 := arcDistance S1_ P1_ in
  let S1_P2 := arcDistance S1_ P2_ in
  let C : option (Vector3 * SphericalCoords) :=
    if arcTest P1_P2 S1_P1 S1_P2 then Some (S1, S1_)
    else
      let S2_P1 := arcDistance S2_ P1_ in
      let S2_P2 := arcDistance S2_ P2_ in
      if arcTest P1_P2 S2_P1 S2_P2 then Some (S2, S2_) else undefined in
  match C with
  | Some (C, C_) =>
      let P3_P4 := arcDistance P3_ P4_ in
      let C_P3 := arcDistance C_ P3_ in
      let C_P4 := arcDistance C_ P4_ in
      if arcTest P3_P4 C_P3 C_P4 then Some C else None
  | None => None
  end.

(** [crossVectors] reads the coordinates of its arguments: an undefined
    vector is a [TypeError]. *)
Definition _computeArcIntersection2 (P1 P2 P3 P4 : option Vector3)
  : Completion (option Vector3) :=
  P1 ← deref P1; P2 ← deref P2; P3 ← deref P3; P4 ← deref P4;
  mret (arcIntersection2 P1 P2 P3 P4).

(** [sides.some(...)]: the first side with a truthy intersection. *)
Fixpoint firstIntersection (P1 P2 : option Vector3)
    (sides : list (option Vector3 * option Vector3)) : Completion (option Vector3) :=
  match sides with
  | [] => mret undefined
  | side :: sides =>
      temp ← _computeArcIntersection2 P1 P2 side.1 side.2;
      match temp with
      | Some C => mret (Some C)
      | None => firstIntersection P1 P2 sides
      end
  end.

Definition frustrumSides (frustrumPoints : list Vector3)
  : list (option Vector3 * option Vector3) :=
  [ (frustrumPoints !! 0, frustrumPoints !! 1);
    (frustrumPoints !! 1, frustrumPoints !! 2);
    (frustrumPoints !! 2, frustrumPoints !! 3);
    (frustrumPoints !! 3, frustrumPoints !! 0) ].

Definition _computeIntermediaryPoint (frustrumPoints : list Vector3)
    (P1 P2 : option Vector3) : Completion (option Vector3) :=
  firstIntersection P1 P2 (frustrumSides frustrumPoints).

(** The first [map] (lines 885-902).  The callback reads
    [this.prop.fovBounds], undefined before the first pass. *)
Definition vertices (fovBounds : option FovBounds)
    (positions3D : list Vector3) (polygon_rad : list (float * float))
  : Completion (list Vertex) :=
  match polygon_rad with
  | [] => mret []
  | _ =>
      b ← deref fovBounds;
      mret (imap (λ i pos, {| spherical := pos;
                              vector := positions3D !! i;
                              vertex_visible := vertexVisible b pos |})
                 polygon_rad)
  end.

(** [neighbours.some(...)]: the first visible one of the neighbours,
    as its index in [positions]. *)
Fixpoint visibleNeighbour (positions : list Vertex) (neighbours : list Z)
  : Completion (option nat) :=
  match neighbours with
  | [] => mret undefined
  | n :: neighbours =>
      neighbour ← deref (at_index positions n);
      if truthy (vertex_visible neighbour) then mret (Some (Z.to_nat n))
      else visibleNeighbour positions neighbours
  end.

Definition neighbours (nbVectors : Z) (i : Z) : list Z :=
  [ if (i =? 0)%Z then (nbVectors - 1)%Z else (i - 1)%Z;
    if (i =? nbVectors - 1)%Z then 0%Z else (i + 1)%Z ].

(** The [reduce] (lines 904-928), over the indices still to visit.
    A pair [{visible, invisible}] holds two of the objects of
    [positions]: it is kept as their two indices. *)
Fixpoint toBeComputed (nbVectors : Z) (positions : list Vertex) (indices : list nat)
  : Completion (list (nat * nat)) :=
  match indices with
  | [] => mret []
  | i :: indices =>
      pos ← deref (positions !! i);
      found ←
        (if truthy (vertex_visible pos) then mret undefined
         else visibleNeighbour positions (neighbours nbVectors (Z.of_nat i)));
      rest ← toBeComputed nbVectors positions indices;
      match found with
      | Some v => mret ((v, i) :: rest)
      | None => mret rest
      end
  end.

(** The [forEach] (lines 930-933): each pair overwrites [vector] and
    [visible] of its invisible object, in [positions]. *)
Fixpoint computePairs (frustrumPoints : list Vector3)
    (pairs : list (nat * nat)) (positions : list Vertex) : Completion (list Vertex) :=
  match pairs with
  | [] => mret positions
  | (v, i) :: pairs =>
      pvisible ← deref (positions !! v);
      pinvisible ← deref (positions !! i);
      vec ← _computeIntermediaryPoint frustrumPoints (vector pvisible) (vector pinvisible);
      computePairs frustrumPoints pairs
        (<[i := {| spherical := spherical pinvisible;
                   vector := vec;
                   vertex_visible := js_notnot vec |}]> positions)
  end.

(** The final [filter] and [map] (lines 935-941).  The projection of the
    viewer reads the coordinates of the vector. *)
Fixpoint project (positions : list Vertex) : Completion (list Position) :=
  match positions with
  | [] => mret []
  | pos :: positions =>
      if truthy (vertex_visible pos) then
        v ← deref (vector pos);
        rest ← project positions;
        mret (vector3ToViewerCoords psv v :: rest)
      else project positions
  end.

Definition polygonPositions (fovBounds : option FovBounds)
    (frustrumPoints : list Vector3)
    (positions3D : list Vector3) (polygon_rad : list (float * float))
  : Completion (list Position) :=
  let nbVectors := Z.of_nat (length positions3D) in
  positions ← vertices fovBounds positions3D polygon_rad;
  pairs ← toBeComputed nbVectors positions (seq 0 (length positions));
  positions ← computePairs frustrumPoints pairs positions;
  project positions.
End Clipping.

(** ** Methods of the HUD *)

(** A method runs on the HUD [this], completes normally or throws, and
    leaves the HUD in the state it reached. *)
Definition M (A : Type) : Type := PSVHUD -> Completion A * PSVHUD.

#[export] Instance M_ret : MRet M := λ A a this, (Normal a, this).
#[export] Instance M_bind : MBind M := λ A B f c this,
  match c this with
  | (Normal a, this) => f a this
  | (Throw e, this) => (Throw e, this)
  end.

Definition throw {A} (e : JsError) : M A := λ this, (Throw e, this).
Definition gets {A} (f : PSVHUD -> A) : M A := λ this, (Normal (f this), this).
Definition modify (f : PSVHUD -> PSVHUD) : M unit := λ this, (Normal tt, f this).
Definition lift {A} (c : Completion A) : M A := λ this, (c, this).

Definition set_markers (f : gmap string ref -> gmap string ref) (this : PSVHUD) : PSVHUD :=
  {| markers := f (markers this); store := store this; container := container this;
     svg := svg this; currentMarker := currentMarker this;
     hoveringMarker := hoveringMarker this; prop_fovBounds := prop_fovBounds this;
     prop_frustrumPoints := prop_frustrumPoints this; tooltip_shown := tooltip_shown this |}.

Definition set_store (f : list Marker -> list Marker) (this : PSVHUD) : PSVHUD :=
  {| markers := markers this; store := f (store this); container := container this;
     svg := svg this; currentMarker := currentMarker this;
     hoveringMarker := hoveringMarker this; prop_fovBounds := prop_fovBounds this;
     prop_frustrumPoints := prop_frustrumPoints this; tooltip_shown := tooltip_shown this |}.

Definition set_container (f : list ref -> list ref) (this : PSVHUD) : PSVHUD :=
  {| markers := markers this; store := store this; container := f (container this);
     svg := svg this; currentMarker := currentMarker this;
     hoveringMarker := hoveringMarker this; prop_fovBounds := prop_fovBounds this;
     prop_frustrumPoints := prop_frustrumPoints this; tooltip_shown := tooltip_shown this |}.

Definition set_svg (f : list ref -> list ref) (this : PSVHUD) : PSVHUD :=
  {| markers := markers this; store := store this; container := container this;
     svg := f (svg this); currentMarker := currentMarker this;
     hoveringMarker := hoveringMarker this; prop_fovBounds := prop_fovBounds this;
     prop_frustrumPoints := prop_frustrumPoints this; tooltip_shown := tooltip_shown this |}.

Definition set_hoveringMarker (m : option ref) (this : PSVHUD) : PSVHUD :=
  {| markers := markers this; store := store this; container := container this;
     svg := svg this; currentMarker := currentMarker this;
     hoveringMarker := m; prop_fovBounds := prop_fovBounds this;
     prop_frustrumPoints := prop_frustrumPoints this; tooltip_shown := tooltip_shown this |}.

Definition set_prop (b : FovBounds) (points : list Vector3) (this : PSVHUD) : PSVHUD :=
  {| markers := markers this; store := store this; container := container this;
     svg := svg this; currentMarker := currentMarker this;
     hoveringMarker := hoveringMarker this; prop_fovBounds := Some b;
     prop_frustrumPoints := points; tooltip_shown := tooltip_shown this |}.

Definition set_tooltip_shown (b : bool) (this : PSVHUD) : PSVHUD :=
  {| markers := markers this; store := store this; container := container this;
     svg := svg this; currentMarker := currentMarker this;
     hoveringMarker := hoveringMarker this; prop_fovBounds := prop_fovBounds this;
     prop_frustrumPoints := prop_frustrumPoints this; tooltip_shown := b |}.

Definition set_currentMarker (m : option ref) (this : PSVHUD) : PSVHUD :=
  {| markers := markers this; store := store this; container := container this;
     svg := svg this; currentMarker := m;
     hoveringMarker := hoveringMarker this; prop_fovBounds := prop_fovBounds this;
     prop_frustrumPoints := prop_frustrumPoints this; tooltip_shown := tooltip_shown this |}.

(** Reading and writing the marker object behind a reference. *)
Definition readMarker (marker : ref) : M Marker :=
  objects ← gets store; lift (deref (objects !! marker)).
Definition writeMarker (marker : ref) (m : Marker) : M unit :=
  modify (set_store (λ objects, <[marker := m]> objects)).

(** [new PSVMarker(...)]: a new object, behind a new reference. *)
Definition allocMarker (m : Marker) : M ref :=
  objects ← gets store;
  _ ← modify (set_store (λ objects, objects ++ [m]));
  mret (length objects).

(** [appendChild] and [removeChild] on the two surfaces.  The surfaces are
    kept as the lists of the markers whose element they hold.  The
    exception of the DOM for an element that is not a child is left out:
    the element of a registered marker is where [addMarker] has put it. *)
Definition appendChild (marker : ref) (children : list ref) : list ref :=
  children ++ [marker].
Definition removeChild (marker : ref) (children : list ref) : list ref :=
  filter (λ c, c ≠ marker) children.

(** [psv.tooltip.showTooltip(...)] and [psv.tooltip.hideTooltip()] *)
Definition showTooltip : M unit := modify (set_tooltip_shown true).
Definition hideTooltip : M unit := modify (set_tooltip_shown false).

(** *** Visibility and positions (lines 814-874, 1080-1108) *)

Definition position3D_of (marker : Marker) : option Vector3 :=
  match geometry marker with Point p => Some p | Polygon _ _ => undefined end.

Definition _isMarkerVisible (psv : PhotoSphereViewer) (marker : Marker)
    (position : Position) : Completion jsflag :=
  if truthy (visible marker) then
    position3D ← deref (position3D_of marker);
    mret ((THREE.dot position3D (prop_direction psv) > 0) &&
          (left position + width marker >= 0) &&
          (left position - width marker <= size_width (prop_size psv)) &&
          (top position + height marker >= 0) &&
          (top position - height marker <= size_height (prop_size psv)))%js
  else mret (visible marker).

(** [return true;] comes first: the test written after it is never
    reached. *)
Definition _isPolygonVisible (psv : PhotoSphereViewer) (marker : Marker)
    (positions : list Position) : jsflag :=
  JBool true.

(** Returns the marker, with the measured size when it is dynamic, and the
    position. *)
Definition _getMarkerPosition (psv : PhotoSphereViewer) (marker : Marker)
  : Completion (Marker * Position) :=
  let marker :=
    if dynamicSize marker then
      let rect := getBoundingClientRect psv marker in
      set_dimensions (rect_right rect - rect_left rect)%js
                     (rect_bottom rect - rect_top rect)%js marker
    else marker in
  position3D ← deref (position3D_of marker);
  let position := vector3ToViewerCoords psv position3D in
  mret (marker,
        {| top := (top position - height marker * top (anchor marker))%js;
           left := (left position - width marker * left (anchor marker))%js |}).

(** Returns the marker with its new width and height, and the top-left
    corner. *)
Definition _getPolygonDimensions (marker : Marker) (positions : list Position)
  : Marker * Position :=
  let minX := foldl (λ minX pos, Math_min minX (left pos)) infinity positions in
  let minY := foldl (λ minY pos, Math_min minY (top pos)) infinity positions in
  let maxX := foldl (λ maxX pos, Math_max maxX (left pos)) neg_infinity positions in
  let maxY := foldl (λ maxY pos, Math_max maxY (top pos)) neg_infinity positions in
  (set_dimensions (maxX - minX)%js (maxY - minY)%js marker,
   {| top := minY; left := minX |}).

Definition polygonArrays (marker : Marker)
  : option (list Vector3 * list (float * float)) :=
  match geometry marker with
  | Polygon positions3D polygon_rad => Some (positions3D, polygon_rad)
  | Point _ => undefined
  end.

Definition _getPolygonPositions (psv : PhotoSphereViewer) (this : PSVHUD)
    (marker : Marker) : Completion (list Position) :=
  arrays ← deref (polygonArrays marker);
  polygonPositions psv (prop_fovBounds this) (prop_frustrumPoints this)
    arrays.1 arrays.2.

Definition set_classList_visible (b : bool) (e : Element) : Element :=
  {| classList_visible := b; attr_points := attr_points e;
     style_transform := style_transform e |}.
Definition set_attr_points (points : list Position) (e : Element) : Element :=
  {| classList_visible := classList_visible e; attr_points := Some points;
     style_transform := style_transform e |}.
Definition set_style_transform (position : Position) (rotation : float) (e : Element)
  : Element :=
  {| classList_visible := classList_visible e; attr_points := attr_points e;
     style_transform := Some (position, rotation) |}.

(** *** updatePositions (lines 748-812) *)

Definition fovBounds_of (psv : PhotoSphereViewer) : FovBounds :=
  let latitude1 := (prop_latitude psv - prop_vFov psv * Deg2Rad psv / 2)%js in
  let latitude2 := (prop_latitude psv + prop_vFov psv * Deg2Rad psv / 2)%js in
  {| longitude1 := parseAngle psv (prop_longitude psv - prop_hFov psv * Deg2Rad psv / 2)%js;
     longitude2 := parseAngle psv (prop_longitude psv + prop_hFov psv * Deg2Rad psv / 2)%js;
     latitude1 := latitude1;
     latitude2 := latitude2;
     latitudeCrossOrigin := PrimFloat.ltb latitude2 latitude1 |}.

Definition frustrumPoints_of (psv : PhotoSphereViewer) (b : FovBounds) : list Vector3 :=
  [ sphericalCoordsToVector3 psv (longitude1 b) (latitude2 b);
    sphericalCoordsToVector3 psv (longitude2 b) (latitude2 b);
    sphericalCoordsToVector3 psv (longitude2 b) (latitude1 b);
    sphericalCoordsToVector3 psv (longitude1 b) (latitude1 b) ].

Definition rotation_of (psv : PhotoSphereViewer) : float :=
  if negb (isGyroscopeEnabled psv) then 0%float
  else (camera_rotation_z psv / Math_PI * 180)%js.

(** The body of the loop, on the marker object. *)
Definition updatePosition (psv : PhotoSphereViewer) (this : PSVHUD)
    (rotation : float) (marker : Marker) : Completion Marker :=
  if isPolygon marker then
    positions ← _getPolygonPositions psv this marker;
    if truthy (_isPolygonVisible psv marker positions) then
      let '(marker, corner) := _getPolygonDimensions marker positions in
      let marker := set_position2D (Some corner) marker in
      let marker := set_el (set_attr_points positions (el marker)) marker in
      mret (set_el (set_classList_visible true (el marker)) marker)
    else
      let marker := set_position2D None marker in
      mret (set_el (set_classList_visible false (el marker)) marker)
  else
    '(marker, position) ← _getMarkerPosition psv marker;
    isVisible ← _isMarkerVisible psv marker position;
    if truthy isVisible then
      let marker := set_position2D (Some position) marker in
      let marker := set_el (set_style_transform position rotation (el marker)) marker in
      mret (set_el (set_classList_visible true (el marker)) marker)
    else
      let marker := set_position2D None marker in
      mret (set_el (set_classList_visible false (el marker)) marker).

(** [for (var id in this.markers)], over the entries of the registry.  An
    iteration reads and writes the marker of its entry only.  The entries
    come in the order of the registry, which is not the order in which the
    ids were added: when an iteration throws, the markers already visited
    may be others than in the code. *)
Fixpoint forIn (entries : list (string * ref)) (body : ref -> M unit) : M unit :=
  match entries with
  | [] => mret tt
  | (id, marker) :: entries => _ ← body marker; forIn entries body
  end.

(** The body of the loop, on the HUD: [marker] is [this.markers[id]]. *)
Definition updatePositionAt (psv : PhotoSphereViewer) (rotation : float)
    (marker : ref) : M unit :=
  m ← readMarker marker;
  this ← gets (λ this, this);
  m ← lift (updatePosition psv this rotation m);
  writeMarker marker m.

Definition updatePositions (psv : PhotoSphereViewer) : M unit :=
  let rotation := rotation_of psv in
  let fovBounds := fovBounds_of psv in
  _ ← modify (set_prop fovBounds (frustrumPoints_of psv fovBounds));
  entries ← gets (λ this, map_to_list (markers this));
  forIn entries (updatePositionAt psv rotation).

(** *** The registry (lines 594-743) *)

(** What a caller passes as [marker]: an id, or an object with an [id]
    property (it is then also the properties given to [update]). *)
Inductive MarkerArg :=
  | ArgId (id : string)
  | ArgObject (o : Properties).

(** [!properties.id]: undefined and the empty string are falsy. *)
Definition id_truthy (id : option string) : bool :=
  match id with
  | Some s => negb (String.eqb s EmptyString)
  | None => false
  end.

(** A property name is a string: [undefined] names the property
    ["undefined"]; the same conversion applies in [... + id + ...]. *)
Definition ToString (id : option string) : string := default "undefined" id.

Definition dquote : string := String (Ascii.ascii_of_nat 34) EmptyString.

Definition missing_id : JsError := PSVError "missing marker id".
Definition already_exists (id : option string) : JsError :=
  PSVError ("marker " +:+ dquote +:+ ToString id +:+ dquote +:+ " already exists").
Definition cannot_find (id : option string) : JsError :=
  PSVError ("cannot find marker " +:+ dquote +:+ ToString id +:+ dquote).

(** [render !== false] is the boolean [render] of the methods below. *)

Definition addMarker (psv : PhotoSphereViewer) (properties : Properties)
    (render : bool) : M ref :=
  if negb (id_truthy (p_id properties)) then throw missing_id else
  registry ← gets markers;
  if bool_decide (is_Some (registry !! ToString (p_id properties)))
  then throw (already_exists (p_id properties)) else
  let m := new_PSVMarker (ToString (p_id properties)) properties in
  marker ← allocMarker m;
  _ ← (if isNormal m then modify (set_container (appendChild marker))
       else modify (set_svg (appendChild marker)));
  _ ← modify (set_markers (λ registry, <[marker_id m := marker]> registry));
  _ ← (if render then updatePositions psv else mret tt);
  mret marker.

(** [typeof marker === 'object' ? marker.id : marker] *)
Definition arg_id (marker : MarkerArg) : option string :=
  match marker with
  | ArgObject o => p_id o
  | ArgId id => Some id
  end.

Definition getMarker (marker : MarkerArg) : M ref :=
  let id := arg_id marker in
  registry ← gets markers;
  match registry !! ToString id with
  | None => throw (cannot_find id)
  | Some marker => mret marker
  end.

Definition getCurrentMarker : M (option ref) := gets currentMarker.

(** [marker.update(input)] merges the properties of an object; an id has
    none. *)
Definition updateMarker (psv : PhotoSphereViewer) (input : MarkerArg)
    (render : bool) : M ref :=
  marker ← getMarker input;
  m ← readMarker marker;
  _ ← writeMarker marker
        (match input with ArgObject o => PSVMarker_update o m | ArgId _ => m end);
  _ ← (if render then updatePositions psv else mret tt);
  mret marker.

Definition removeMarker (psv : PhotoSphereViewer) (marker : MarkerArg)
    (render : bool) : M unit :=
  marker ← getMarker marker;
  m ← readMarker marker;
  _ ← (if isNormal m then modify (set_container (removeChild marker))
       else modify (set_svg (removeChild marker)));
  hovering ← gets hoveringMarker;
  _ ← (if bool_decide (hovering = Some marker) then hideTooltip else mret tt);
  _ ← modify (set_markers (λ registry, delete (marker_id m) registry));
  if render then updatePositions psv else mret tt.

(** [Object.keys(this.markers).forEach(...)] *)
Fixpoint forEach {A} (l : list A) (body : A -> M unit) : M unit :=
  match l with
  | [] => mret tt
  | a :: l => _ ← body a; forEach l body
  end.

Definition clearMarkers (psv : PhotoSphereViewer) (render : bool) : M unit :=
  keys ← gets (λ this, (map_to_list (markers this)).*1);
  _ ← forEach keys (λ marker, removeMarker psv (ArgId marker) false);
  if render then updatePositions psv else mret tt.

(** [psv.animate] moves the camera of the viewer, not the HUD. *)
Definition gotoMarker (marker : MarkerArg) : M unit :=
  marker ← getMarker marker;
  mret tt.

Definition hideMarker (psv : PhotoSphereViewer) (marker : MarkerArg) : M unit :=
  marker ← getMarker marker;
  m ← readMarker marker;
  _ ← writeMarker marker (set_visible (JBool false) m);
  updatePositions psv.

Definition showMarker (psv : PhotoSphereViewer) (marker : MarkerArg) : M unit :=
  marker ← getMarker marker;
  m ← readMarker marker;
  _ ← writeMarker marker (set_visible (JBool true) m);
  updatePositions psv.

Definition toggleMarker (psv : PhotoSphereViewer) (marker : MarkerArg) : M unit :=
  marker ← getMarker marker;
  m ← readMarker marker;
  _ ← writeMarker marker (set_visible (js_xor (visible m) (JBool true)) m);
  updatePositions psv.

(** *** Hovering (lines 1115-1147) *)

(** Of a mouse event: the marker of [e.target], if any, and whether
    [e.relatedTarget] is inside the tooltip. *)
Record MouseEvent := {
  target_psvMarker : option ref;
  relatedTarget_in_tooltip : bool
}.

Definition _onMouseEnter (e : MouseEvent) : M unit :=
  match target_psvMarker e with
  | Some marker =>
      m ← readMarker marker;
      if bool_decide (is_Some (tooltip m)) && negb (isPolygon m) then
        _ ← modify (set_hoveringMarker (Some marker));
        _ ← lift (deref (position2D m));
        showTooltip
      else mret tt
  | None => mret tt
  end.

Definition _onMouseLeave (e : MouseEvent) : M unit :=
  match target_psvMarker e with
  | Some marker =>
      m ← readMarker marker;
      if isPolygon m && relatedTarget_in_tooltip e then mret tt
      else
        _ ← modify (set_hoveringMarker None);
        hideTooltip
  | None => mret tt
  end.

(** *** Events (lines 582-592, 1154-1214) *)

(** What the handlers read of the viewer besides its camera:
    [psv.prop.moving], [psv.config.click_event_on_marker] and
    [psv.panel.prop.opened]. *)
Record ViewerState := {
  prop_moving : bool;
  config_click_event_on_marker : bool;
  panel_prop_opened : bool
}.

(** An event given to [handleEvent]: its type; what the mouse handlers
    read of [e.target] and [e.relatedTarget]; whether [e.target] is inside
    the tooltip; for a click, the [psvMarker] of the closest [.psv-marker]
    element of [e.args[0].target], if there is one. *)
Record Event := {
  event_type : string;
  mouse : MouseEvent;
  target_in_tooltip : bool;
  closest_psvMarker : option ref
}.

(** The tooltip follows the cursor over a polygon.  The position given to
    [showTooltip] is computed from the event and the viewer alone. *)
Definition _onMouseMove (v : ViewerState) (e : Event) : M unit :=
  if negb (prop_moving v) then
    polygon ←
      match target_psvMarker (mouse e) with
      | Some marker =>
          m ← readMarker marker;
          mret (if bool_decide (is_Some (tooltip m)) && isPolygon m
                then Some marker else None)
      | None => mret None
      end;
    hovering ← gets hoveringMarker;
    let marker :=
      match polygon with
      | Some marker => Some marker
      | None => if target_in_tooltip e then hovering else None
      end in
    match marker with
    | Some marker =>
        _ ← modify (set_hoveringMarker (Some marker));
        m ← readMarker marker;
        _ ← lift (deref (tooltip m));
        showTooltip
    | None =>
        match hovering with
        | Some hovering =>
            m ← readMarker hovering;
            if isPolygon m then hideTooltip else mret tt
        | None => mret tt
        end
    end
  else mret tt.

(** What a handler does outside of the HUD: the events it triggers on the
    viewer, what it writes in the data of the click, and its calls on the
    event and on the panel. *)
Inductive Effect :=
  | Trigger (name : string) (marker : ref)
  | SetDataMarker (marker : ref)
  | StopPropagation
  | ShowPanel (content : string)
  | HidePanel.

(** [!!content] of a string: undefined and the empty string are falsy. *)
Definition content_truthy (content : option string) : bool :=
  match content with
  | Some s => negb (String.eqb s EmptyString)
  | None => false
  end.

Definition _onClick (v : ViewerState) (e : Event) : M (list Effect) :=
  selection ←
    match closest_psvMarker e with
    | Some marker =>
        _ ← modify (set_currentMarker (Some marker));
        mret (Trigger "select-marker" marker ::
              (if config_click_event_on_marker v then [SetDataMarker marker]
               else [StopPropagation]))
    | None =>
        current ← gets currentMarker;
        match current with
        | Some current =>
            _ ← modify (set_currentMarker None);
            mret [Trigger "unselect-marker" current]
        | None => mret []
        end
    end;
  shown ←
    match closest_psvMarker e with
    | Some marker =>
        m ← readMarker marker;
        mret (if content_truthy (content m) then content m else None)
    | None => mret None
    end;
  mret (selection ++
        match shown with
        | Some text => [ShowPanel text]
        | None => if panel_prop_opened v then [StopPropagation; HidePanel] else []
        end).

Definition handleEvent (psv : PhotoSphereViewer) (v : ViewerState) (e : Event)
  : M (list Effect) :=
  if String.eqb (event_type e) "mouseenter" then _ ← _onMouseEnter (mouse e); mret []
  else if String.eqb (event_type e) "mouseleave" then _ ← _onMouseLeave (mouse e); mret []
  else if String.eqb (event_type e) "mousemove" then _ ← _onMouseMove v e; mret []
  else if String.eqb (event_type e) "click" then _onClick v e
  else if String.eqb (event_type e) "render" then _ ← updatePositions psv; mret []
  else mret [].

(** ** The first listing (lines 1-499) *)

Module Earlier.
(** [_getPolygonPositions] (lines 358-362) projects every vertex. *)
Definition _getPolygonPositions (psv : PhotoSphereViewer) (marker : Marker)
  : Completion (list Position) :=
  arrays ← deref (polygonArrays marker);
  mret (map (vector3ToViewerCoords psv) arrays.1).

(** [positions.some(function(pos, i) {...})] of [_isPolygonVisible] *)
Fixpoint somePositionVisible (psv : PhotoSphereViewer) (positions3D : list Vector3)
    (i : nat) (positions : list Position) : Completion jsflag :=
  match positions with
  | [] => mret (JBool false)
  | pos :: positions =>
      v ← deref (positions3D !! i);
      if truthy ((THREE.dot v (prop_direction psv) > 0) &&
                 (left pos >= 0) &&
                 (left pos <= size_width (prop_size psv)) &&
                 (top pos >= 0) &&
                 (top pos <= size_height (prop_size psv)))%js
      then mret (JBool true)
      else somePositionVisible psv positions3D (S i) positions
  end.

(** [_isPolygonVisible] (lines 316-325), which is also the text left
    after [return true;] in the second listing (lines 841-848). *)
Definition _isPolygonVisible (psv : PhotoSphereViewer) (marker : Marker)
    (positions : list Position) : Completion jsflag :=
  if truthy (visible marker) then
    arrays ← deref (polygonArrays marker);
    somePositionVisible psv arrays.1 0 positions
  else mret (visible marker).

Definition updatePosition (psv : PhotoSphereViewer) (rotation : float)
    (marker : Marker) : Completion Marker :=
  if isPolygon marker then
    positions ← _getPolygonPositions psv marker;
    isVisible ← _isPolygonVisible psv marker positions;
    if truthy isVisible then
      let '(marker, corner) := _getPolygonDimensions marker positions in
      let marker := set_position2D (Some corner) marker in
      let marker := set_el (set_attr_points positions (el marker)) marker in
      mret (set_el (set_classList_visible true (el marker)) marker)
    else
      let marker := set_position2D None marker in
      mret (set_el (set_classList_visible false (el marker)) marker)
  else
    '(marker, position) ← _getMarkerPosition psv marker;
    isVisible ← _isMarkerVisible psv marker position;
    if truthy isVisible then
      let marker := set_position2D (Some position) marker in
      let marker := set_el (set_style_transform position rotation (el marker)) marker in
      mret (set_el (set_classList_visible true (el marker)) marker)
    else
      let marker := set_position2D None marker in
      mret (set_el (set_classList_visible false (el marker)) marker).

(** The body of the loop of [updatePositions], on the HUD. *)
Definition updatePositionAt (psv : PhotoSphereViewer) (rotation : float)
    (marker : ref) : M unit :=
  m ← readMarker marker;
  m ← lift (updatePosition psv rotation m);
  writeMarker marker m.

(** [updatePositions] (lines 243-289) *)
Definition updatePositions (psv : PhotoSphereViewer) : M unit :=
  let rotation := rotation_of psv in
  entries ← gets (λ this, map_to_list (markers this));
  forIn entries (updatePositionAt psv rotation).

(** [toggleMarker] (lines 235-238) *)
Definition toggleMarker (psv : PhotoSphereViewer) (marker : MarkerArg) : M unit :=
  marker ← getMarker marker;
  m ← readMarker marker;
  _ ← writeMarker marker (set_visible (js_xor (visible m) (JBool true)) m);
  updatePositions psv.

(** [addMarker] (lines 97-120) ends without [return]: the call gives
    [undefined]. *)
Definition addMarker (psv : PhotoSphereViewer) (properties : Properties)
    (render : bool) : M (option ref) :=
  if negb (id_truthy (p_id properties)) then throw missing_id else
  registry ← gets markers;
  if bool_decide (is_Some (registry !! ToString (p_id properties)))
  then throw (already_exists (p_id properties)) else
  let m := new_PSVMarker (ToString (p_id properties)) properties in
  marker ← allocMarker m;
  _ ← (if isNormal m then modify (set_container (appendChild marker))
       else modify (set_svg (appendChild marker)));
  _ ← modify (set_markers (λ registry, <[marker_id m := marker]> registry));
  _ ← (if render then updatePositions psv else mret tt);
  mret undefined.
End Earlier.

(** ** A viewer to run the HUD on *)

(** Modelled from the spec: the viewer of the scenario of section 8
    (PhotoSphereViewer.js, PSVUtils.js and three.js are not among the
    sources): a viewport of 800 by 600 pixels, a horizontal field of view of
    90 degrees, the camera at longitude 0 and latitude 0.  A marker at
    longitude 0 and latitude 0 is projected on the centre (400, 300) of the
    screen; a marker at longitude 180 degrees is behind the camera.  The
    functions of [Math] are computed by their power series. *)
Module Scenario.
Definition TwoPI : float := (2 * Math_PI)%js.
Definition HalfPI : float := (Math_PI / 2)%js.

(** [n] terms of the series of sine and cosine: [term] is the current
    term, of degree [k], and [x2] the square of the argument. *)
Fixpoint series (n : nat) (k term x2 : float) : float :=
  match n with
  | O => 0%float
  | S n => (term + series n (k + 2) (PrimFloat.opp term * x2 / ((k + 1) * (k + 2))) x2)%js
  end.

Definition reduce (a : float) : float :=
  if PrimFloat.ltb Math_PI a then (a - TwoPI)%js
  else if PrimFloat.ltb a (PrimFloat.opp Math_PI) then (a + TwoPI)%js
  else a.

Definition sin (a : float) : float := let a := reduce a in series 30 1 a (a * a)%js.
Definition cos (a : float) : float := let a := reduce a in series 30 0 1 (a * a)%js.

(** [n] terms of the series of the arc sine. *)
Fixpoint asin_series (n : nat) (k term t2 : float) : float :=
  match n with
  | O => 0%float
  | S n => (term / k + asin_series n (k + 2) (term * t2 * k / (k + 1)) t2)%js
  end.

Definition asin (t : float) : float :=
  let a := PrimFloat.abs t in
  if PrimFloat.leb a 0.5 then asin_series 40 1 t (t * t)%js
  else
    let u := PrimFloat.sqrt ((1 - a) / 2)%js in
    let r := (HalfPI - 2 * asin_series 40 1 u (u * u))%js in
    if PrimFloat.ltb t 0 then PrimFloat.opp r else r.

Definition acos (t : float) : float :=
  if PrimFloat.leb (PrimFloat.abs t) 1 then (HalfPI - asin t)%js else nan.

Definition atan2 (a b : float) : float :=
  let r := PrimFloat.sqrt (a * a + b * b)%js in
  if PrimFloat.eqb r 0 then 0%float
  else if PrimFloat.ltb a 0 then PrimFloat.opp (acos (b / r)%js) else acos (b / r)%js.

(** The conversions, with the conventions of the viewer: longitudes
    grow to the right, from the axis [z]; latitudes grow upwards. *)
Definition sphericalToVector (longitude latitude : float) : Vector3 :=
  {| x := (PrimFloat.opp (cos latitude) * sin longitude)%js;
     y := sin latitude;
     z := (cos latitude * cos longitude)%js |}.

Definition norm (v : Vector3) : float :=
  PrimFloat.sqrt (x v * x v + y v * y v + z v * z v)%js.

Definition vectorToSpherical (v : Vector3) : SphericalCoords :=
  let phi := acos (y v / norm v)%js in
  let theta := atan2 (x v) (z v) in
  {| longitude := if PrimFloat.ltb theta 0 then PrimFloat.opp theta else (TwoPI - theta)%js;
     latitude := (HalfPI - phi)%js |}.

Definition normalized (v : Vector3) : Vector3 :=
  let l := norm v in
  if PrimFloat.eqb l 0 then v else THREE.multiplyScalar v (1 / l)%js.

Definition wrapAngle (a : float) : float :=
  if PrimFloat.ltb a 0 then (a + TwoPI)%js
  else if PrimFloat.leb TwoPI a then (a - TwoPI)%js
  else a.

(** The projection of a camera at longitude 0 and latitude 0, with a
    horizontal field of view of 90 degrees, on a viewport of 800 by 600
    pixels. *)
Definition projectToScreen (v : Vector3) : Position :=
  {| top := ((1 - y v / z v / 0.75) / 2 * 600)%js;
     left := ((PrimFloat.opp (x v) / z v + 1) / 2 * 800)%js |}.

Definition viewer : PhotoSphereViewer :=
  {| prop_longitude := 0;
     prop_latitude := 0;
     prop_hFov := 90;
     prop_vFov := 73.74;
     prop_direction := {| x := 0; y := 0; z := 1 |};
     prop_size := {| size_width := 800; size_height := 600 |};
     isGyroscopeEnabled := false;
     camera_rotation_z := 0;
     vector3ToViewerCoords := projectToScreen;
     vector3ToSphericalCoords := vectorToSpherical;
     sphericalCoordsToVector3 := sphericalToVector;
     parseAngle := wrapAngle;
     Deg2Rad := (Math_PI / 180)%js;
     Math_sin := sin;
     Math_cos := cos;
     Math_acos := acos;
     normalize := normalized;
     getBoundingClientRect := λ _,
       {| rect_left := 0; rect_right := 32; rect_top := 0; rect_bottom := 32 |} |}.

Definition point (id : string) (longitude latitude : float) : Properties :=
  {| p_id := Some id; p_visible := true;
     p_geometry := Point (sphericalToVector longitude latitude);
     p_width := 32; p_height := 32;
     p_anchor := {| top := 0.5; left := 0.5 |};
     p_dynamicSize := false;
     p_tooltip := Some {| tooltip_content := "tooltip"; tooltip_position := "top center" |};
     p_content := None |}.

Definition polygon (id : string) (polygon_rad : list (float * float)) : Properties :=
  {| p_id := Some id; p_visible := true;
     p_geometry :=
       Polygon (map (λ pos, sphericalToVector (snd pos) (fst pos)) polygon_rad)
               polygon_rad;
     p_width := 0; p_height := 0;
     p_anchor := {| top := 0.5; left := 0.5 |};
     p_dynamicSize := false;
     p_tooltip := None;
     p_content := None |}.
End Scenario.


(** The markers of the examples. *)
Module Examples.
Import Scenario.
Definition front : Properties := point "front" 0 0.
Definition back : Properties := point "back" Math_PI 0.
Definition inside : Properties := polygon "inside" [(0.1, 0.1); (-0.1, 0.2); (0.2, 6.2)]%float.
Definition outside : Properties := polygon "outside" [(0.1, 3); (-0.1, 3); (0, 3.2)]%float.
Definition crossing : Properties :=
  polygon "crossing" [(0, 0.2); (0, 1.2); (0.3, 1.2); (0.3, 0.2)]%float.
Definition P1 : Vector3 := sphericalToVector 0.2 0.
Definition P2 : Vector3 := sphericalToVector 1.2 0.
Definition enter (marker : nat) : MouseEvent :=
  {| target_psvMarker := Some marker; relatedTarget_in_tooltip := false |}.
End Examples.

(** ** Callers *)

Inductive Call :=
  | AddMarker (properties : Properties) (render : bool)
  | GetMarker (marker : MarkerArg)
  | GetCurrentMarker
  | UpdateMarker (input : MarkerArg) (render : bool)
  | RemoveMarker (marker : MarkerArg) (render : bool)
  | ClearMarkers (render : bool)
  | GotoMarker (marker : MarkerArg)
  | HideMarker (marker : MarkerArg)
  | ShowMarker (marker : MarkerArg)
  | ToggleMarker (marker : MarkerArg)
  | UpdatePositions
  | MouseEnter (e : MouseEvent)
  | MouseLeave (e : MouseEvent).

(** The HUD after a call, whether it returned or threw. *)
Definition call (psv : PhotoSphereViewer) (c : Call) (this : PSVHUD) : PSVHUD :=
  match c with
  | AddMarker properties render => (addMarker psv properties render this).2
  | GetMarker marker => (getMarker marker this).2
  | GetCurrentMarker => (getCurrentMarker this).2
  | UpdateMarker input render => (updateMarker psv input render this).2
  | RemoveMarker marker render => (removeMarker psv marker render this).2
  | ClearMarkers render => (clearMarkers psv render this).2
  | GotoMarker marker => (gotoMarker marker this).2
  | HideMarker marker => (hideMarker psv marker this).2
  | ShowMarker marker => (showMarker psv marker this).2
  | ToggleMarker marker => (toggleMarker psv marker this).2
  | UpdatePositions => (updatePositions psv this).2
  | MouseEnter e => (_onMouseEnter e this).2
  | MouseLeave e => (_onMouseLeave e this).2
  end.

(** A sequence of calls, each with the viewer as it is at that time. *)
Definition run (calls : list (PhotoSphereViewer * Call)) (this : PSVHUD) : PSVHUD :=
  foldl (λ this c, call c.1 c.2 this) this calls.

(** The calls that remove the marker [id]. *)
Definition removes (id : string) (c : Call) : bool :=
  match c with
  | RemoveMarker marker _ => bool_decide (ToString (arg_id marker) = id)
  | ClearMarkers _ => true
  | _ => false
  end.

(** What is done to a HUD: a call of a method, or an event of the
    container or of the viewer. *)
Inductive Action :=
  | Method (c : Call)
  | Dispatch (v : ViewerState) (e : Event).

Definition act (psv : PhotoSphereViewer) (a : Action) (this : PSVHUD) : PSVHUD :=
  match a with
  | Method c => call psv c this
  | Dispatch v e => (handleEvent psv v e this).2
  end.

Definition after (actions : list (PhotoSphereViewer * Action)) (this : PSVHUD) : PSVHUD :=
  foldl (λ this a, act a.1 a.2 this) this actions.

(** The actions that are a click. *)
Definition is_click (a : Action) : bool :=
  match a with
  | Dispatch v e => String.eqb (event_type e) "click"
  | Method _ => false
  end.

(** More markers, events and states to run the HUD on. *)
Module Samples.
Import Scenario.
Definition area : Properties :=
  {| p_id := Some "area"; p_visible := true;
     p_geometry :=
       Polygon (map (λ pos, sphericalToVector (snd pos) (fst pos))
                  [(0.1, 0.1); (-0.1, 0.2); (0.2, 6.2)]%float)
               [(0.1, 0.1); (-0.1, 0.2); (0.2, 6.2)]%float;
     p_width := 0; p_height := 0;
     p_anchor := {| top := 0.5; left := 0.5 |};
     p_dynamicSize := false;
     p_tooltip := Some {| tooltip_content := "area"; tooltip_position := "top center" |};
     p_content := Some "An area" |}.

Definition anonymous : Properties :=
  {| p_id := None; p_visible := true;
     p_geometry := Point (sphericalToVector 0 0);
     p_width := 32; p_height := 32;
     p_anchor := {| top := 0.5; left := 0.5 |};
     p_dynamicSize := false; p_tooltip := None; p_content := None |}.

Definition idle : ViewerState :=
  {| prop_moving := false; config_click_event_on_marker := false;
     panel_prop_opened := false |}.

Definition event (type : string) (target : option nat) (in_tooltip : bool) : Event :=
  {| event_type := type;
     mouse := {| target_psvMarker := target; relatedTarget_in_tooltip := in_tooltip |};
     target_in_tooltip := in_tooltip;
     closest_psvMarker := target |}.

(** A HUD with the point marker "front" (object 0) and the polygon "area"
    (object 1), and the same once the mouse has entered "front". *)
Definition hud : PSVHUD :=
  after [(viewer, Method (AddMarker Examples.front true));
         (viewer, Method (AddMarker area true))] new_PSVHUD.

Definition hovered : PSVHUD :=
  after [(viewer, Dispatch idle (event "mouseenter" (Some 0) false))] hud.
End Samples.

(** ** Invariants *)

(** Every entry of the registry refers to a marker object, whose id is
    the key. *)
Definition reg_wf (this : PSVHUD) : Prop :=
  ∀ id l, markers this !! id = Some l ->
    ∃ m, store this !! l = Some m /\ marker_id m = id.

(** A [visible] flag is a boolean, or the 0 or 1 left by a toggle. *)
Definition flag_ok (v : jsflag) : Prop :=
  match v with
  | JBool _ => True
  | JInt z => z = 0%Z \/ z = 1%Z
  end.

Definition flags_ok (this : PSVHUD) : Prop :=
  ∀ l m, store this !! l = Some m -> flag_ok (visible m).

Definition hud_wf (this : PSVHUD) : Prop := reg_wf this /\ flags_ok this.

(** The ids of the registry are truthy. *)
Definition keys_truthy (this : PSVHUD) : Prop :=
  ∀ id l, markers this !! id = Some l -> id_truthy (Some id) = true.

(** ** Predicates of the statements *)

(** [a < b] holds. *)
Definition flt (a b : float) : Prop := PrimFloat.ltb a b = true.

(** The window crosses the origin of the longitudes (line 889). *)
Definition wraps (b : FovBounds) : bool := PrimFloat.ltb (longitude2 b) (longitude1 b).

(** A polygon has as many vectors as [[latitude, longitude]] pairs. *)
Definition marker_wf (m : Marker) : Prop :=
  match geometry m with
  | Polygon positions3D polygon_rad => length positions3D = length polygon_rad
  | Point _ => True
  end.

(** What a projection pass leaves alone in a marker. *)
Definition same_marker (m m' : Marker) : Prop :=
  marker_id m' = marker_id m /\ visible m' = visible m /\ geometry m' = geometry m /\
  tooltip m' = tooltip m.

(** What a projection pass leaves alone. *)
Record frame (this this' : PSVHUD) : Prop := {
  frame_markers : markers this' = markers this;
  frame_container : container this' = container this;
  frame_svg : svg this' = svg this;
  frame_currentMarker : currentMarker this' = currentMarker this;
  frame_hoveringMarker : hoveringMarker this' = hoveringMarker this;
  frame_tooltip_shown : tooltip_shown this' = tooltip_shown this;
  frame_length : length (store this') = length (store this);
  frame_store : ∀ l m, store this !! l = Some m ->
                  ∃ m', store this' !! l = Some m' /\ same_marker m m'
}.

(** Marker [l], which was [m], after one toggle ([this1]) and after two
    ([this2]): [visible] holds 0 or 1, of the opposite truthiness after one
    toggle and of the same truthiness after two. *)
Definition toggled_twice (this1 this2 : PSVHUD) (l : ref) (m : Marker) : Prop :=
  ∃ m1 m2,
    store this1 !! l = Some m1 /\
    visible m1 = JInt (if truthy (visible m) then 0 else 1) /\
    truthy (visible m1) = negb (truthy (visible m)) /\
    store this2 !! l = Some m2 /\
    visible m2 = JInt (if truthy (visible m) then 1 else 0) /\
    truthy (visible m2) = truthy (visible m).

(** Every entry of the registry refers to a marker object. *)
Definition refs_valid (this : PSVHUD) : Prop :=
  ∀ id l, markers this !! id = Some l -> is_Some (store this !! l).

(** A vertex kept by the final filter has a vector. *)
Definition defined_when_visible (pos : Vertex) : Prop :=
  truthy (vertex_visible pos) = true -> is_Some (vector pos).

(** The HUD once [addMarker] has registered the marker, before the pass. *)
Definition registered (properties : Properties) (this : PSVHUD) : PSVHUD :=
  let m := new_PSVMarker (ToString (p_id properties)) properties in
  let marker := length (store this) in
  let this := set_store (λ objects, objects ++ [m]) this in
  let this := if isNormal m then set_container (appendChild marker) this
              else set_svg (appendChild marker) this in
  set_markers (λ registry, <[marker_id m := marker]> registry) this.

(** The HUD once [removeMarker] has deleted marker [l], before the pass. *)
Definition removed (l : ref) (m : Marker) (this : PSVHUD) : PSVHUD :=
  let this := if isNormal m then set_container (removeChild l) this
              else set_svg (removeChild l) this in
  let this := if bool_decide (hoveringMarker this = Some l)
              then set_tooltip_shown false this else this in
  set_markers (λ registry, delete (marker_id m) registry) this.

(** The names that the object [this.markers] inherits from
    [Object.prototype]: [this.markers[id]] is truthy for them although no
    marker is registered, a case that the registry above leaves out. *)
Definition Object_prototype : list string :=
  [ "constructor"; "hasOwnProperty"; "isPrototypeOf"; "propertyIsEnumerable";
    "toLocaleString"; "toString"; "valueOf"; "__proto__";
    "__defineGetter__"; "__defineSetter__"; "__lookupGetter__"; "__lookupSetter__" ].

Definition inherited (id : string) : bool := bool_decide (id ∈ Object_prototype).

(** The element of every registered marker is a child of the surface of
    its kind, as [removeChild] needs it. *)
Definition elements_attached (this : PSVHUD) : bool :=
  forallb (λ entry : string * ref,
             match store this !! entry.2 with
             | Some m => if isNormal m then bool_decide (entry.2 ∈ container this)
                         else bool_decide (entry.2 ∈ svg this)
             | None => true
             end)
          (map_to_list (markers this)).

(** The calls that name a marker by a name inherited from
    [Object.prototype]. *)
Definition names_inherited (c : Call) : bool :=
  match c with
  | AddMarker properties _ => inherited (ToString (p_id properties))
  | GetMarker marker | UpdateMarker marker _ | RemoveMarker marker _
  | GotoMarker marker | HideMarker marker | ShowMarker marker | ToggleMarker marker =>
      inherited (ToString (arg_id marker))
  | ClearMarkers _ | GetCurrentMarker | UpdatePositions | MouseEnter _ | MouseLeave _ =>
      false
  end.

(** Before each of the calls, and after the last one, the element of
    every registered marker is a child of the surface of its kind. *)
Fixpoint attached_along (calls : list (PhotoSphereViewer * Call)) (this : PSVHUD) : bool :=
  elements_attached this &&
  match calls with
  | [] => true
  | c :: calls => attached_along calls (call c.1 c.2 this)
  end.

(** The call threw [e] and left the HUD as it was. *)
Definition throws {A} (e : JsError) (this : PSVHUD) (result : Completion A * PSVHUD) : Prop :=
  result = (Throw e, this).

(** The two surfaces hold marker objects, each at most once, and the
    elements of the registered markers among them; [hoveringMarker] is a
    marker object, and the tooltip is shown only over a marker. *)
Record surfaces_wf (this : PSVHUD) : Prop := {
  attached_objects : ∀ l, l ∈ container this ++ svg this -> l < length (store this);
  attached_once : NoDup (container this ++ svg this);
  registered_attached : ∀ id l, markers this !! id = Some l -> l ∈ container this ++ svg this;
  hovering_object : ∀ l, hoveringMarker this = Some l -> l < length (store this);
  tooltip_hovering : tooltip_shown this = true -> is_Some (hoveringMarker this)
}.

(** The HUD but for its marker objects and the bounds of the last pass. *)
Record restored (this this' : PSVHUD) : Prop := {
  restored_markers : markers this' = markers this;
  restored_container : container this' = container this;
  restored_svg : svg this' = svg this;
  restored_currentMarker : currentMarker this' = currentMarker this;
  restored_hoveringMarker : hoveringMarker this' = hoveringMarker this;
  restored_tooltip_shown : tooltip_shown this' = tooltip_shown this
}.

(** The position of a point marker on the screen: the projection of its
    vector, moved by the anchor of the marker. *)
Definition anchored (psv : PhotoSphereViewer) (m : Marker) (p : Vector3) : Position :=
  let position := vector3ToViewerCoords psv p in
  {| top := (top position - height m * top (anchor m))%js;
     left := (left position - width m * left (anchor m))%js |}.

(** The marker is flagged visible, its vector is in front of the camera
    and [position] is on the viewport enlarged by the size of the marker. *)
Definition in_view (psv : PhotoSphereViewer) (m : Marker) (p : Vector3)
    (position : Position) : bool :=
  truthy (visible m) &&
  PrimFloat.ltb 0 (THREE.dot p (prop_direction psv)) &&
  PrimFloat.leb 0 (left position + width m)%js &&
  PrimFloat.leb (left position - width m)%js (size_width (prop_size psv)) &&
  PrimFloat.leb 0 (top position + height m)%js &&
  PrimFloat.leb (top position - height m)%js (size_height (prop_size psv)).

(** The point marker [m], of vector [p], as a pass leaves it. *)
Definition placed (psv : PhotoSphereViewer) (m : Marker) (p : Vector3) : Prop :=
  let position := anchored psv m p in
  if in_view psv m p position
  then position2D m = Some position /\
       style_transform (el m) = Some (position, rotation_of psv) /\
       classList_visible (el m) = true
  else position2D m = None /\ classList_visible (el m) = false.

(** The polygon [m] as a pass leaves it, for the points [positions]. *)
Definition outlined (m : Marker) (positions : list Position) : Prop :=
  attr_points (el m) = Some positions /\
  classList_visible (el m) = true /\
  position2D m = Some (_getPolygonDimensions m positions).2 /\
  width m = width (_getPolygonDimensions m positions).1 /\
  height m = height (_getPolygonDimensions m positions).1.

(** The vectors of the vertices that pass the inclusion test, in the
    order of the polygon. *)
Definition visibleVectors (b : FovBounds) (positions3D : list Vector3)
    (polygon_rad : list (float * float)) : list Vector3 :=
  omap (λ vr : Vector3 * (float * float),
          if truthy (vertexVisible b vr.2) then Some vr.1 else None)
       (zip positions3D polygon_rad).

(** The vector is in front of the camera and its projection is on the
    viewport. *)
Definition on_screen (psv : PhotoSphereViewer) (v : Vector3) : bool :=
  let pos := vector3ToViewerCoords psv v in
  PrimFloat.ltb 0 (THREE.dot v (prop_direction psv)) &&
  PrimFloat.leb 0 (left pos) && PrimFloat.leb (left pos) (size_width (prop_size psv)) &&
  PrimFloat.leb 0 (top pos) && PrimFloat.leb (top pos) (size_height (prop_size psv)).

(** [a <= b] holds; [a] is not NaN. *)
Definition fle (a b : float) : Prop := PrimFloat.leb a b = true.
Definition number (a : float) : Prop := PrimFloat.is_nan a = false.

(** The box from [corner] to [right] and [bottom] holds the points
    [positions], and each of its four sides holds one of them. *)
Definition bounding_box (corner : Position) (right bottom : float)
    (positions : list Position) : Prop :=
  Forall (λ pos, (fle (left corner) (left pos) /\ fle (left pos) right) /\
                 (fle (top corner) (top pos) /\ fle (top pos) bottom)) positions /\
  (positions ≠ [] ->
   (∃ pos, pos ∈ positions /\ left pos = left corner) /\
   (∃ pos, pos ∈ positions /\ left pos = right) /\
   (∃ pos, pos ∈ positions /\ top pos = top corner) /\
   (∃ pos, pos ∈ positions /\ top pos = bottom)).

(** The marker objects of [Samples.hud], the vectors of the polygon
    "crossing" and the corners of a triangle. *)
Module Objects.
Definition front : Marker :=
  default (new_PSVMarker "front" Examples.front) (store Samples.hud !! 0).
Definition area : Marker :=
  default (new_PSVMarker "area" Samples.area) (store Samples.hud !! 1).
Definition crossing_vectors : list Vector3 :=
  map (λ pos, Scenario.sphericalToVector (snd pos) (fst pos))
    [(0, 0.2); (0, 1.2); (0.3, 1.2); (0.3, 0.2)]%float.
Definition triangle : list Position :=
  [ {| top := 10; left := 40 |}; {| top := 30; left := 0 |}; {| top := 20; left := 60 |} ].
End Objects.

(** * Proofs *)

#[local] Arguments neighbours : simpl never.
#[local] Arguments visibleNeighbour : simpl nomatch.
#[local] Arguments _computeIntermediaryPoint : simpl never.
#[local] Arguments polygonPositions : simpl never.
#[local] Arguments THREE.dot : simpl never.
#[local] Arguments updatePositions : simpl never.
#[local] Arguments Earlier.updatePositions : simpl never.

Ltac run_M :=
  unfold readMarker, writeMarker, allocMarker, hideTooltip, showTooltip;
  unfold gets, modify, lift, throw, mbind, M_bind, mret, M_ret; cbn.

(** ** Flags and numbers *)

Lemma truthy_js_and a b : truthy (js_and a b) = truthy a && truthy b.
Proof. unfold js_and. destruct (truthy a) eqn:E; simpl; auto. Qed.

Lemma truthy_js_or a b : truthy (js_or a b) = truthy a || truthy b.
Proof. unfold js_or. destruct (truthy a) eqn:E; simpl; auto. Qed.

Lemma truthy_js_bitand_bool (a b : bool) :
  truthy (js_bitand (JBool a) (JBool b)) = a && b.
Proof. by destruct a, b. Qed.

Lemma ltb_0_false (d : float) : PrimFloat.ltb d 0 = true -> PrimFloat.ltb 0 d = false.
Proof.
  rewrite !ltb_spec. unfold SFltb.
  replace (Prim2SF 0) with (S754_zero false) by reflexivity.
  destruct (Prim2SF d) as [s|s| |s m e]; simpl; try congruence; destruct s; simpl; congruence.
Qed.

(** The test [D - D1 - D2 < 1e-15] passes whenever [D - D1 - D2] is
    negative, however far below zero. *)
Lemma arcTest_negative (D D1 D2 : float) :
  PrimFloat.ltb (D - D1 - D2)%js 0 = true -> arcTest D D1 D2 = true.
Proof.
  unfold arcTest. generalize (D - D1 - D2)%js. intros d.
  rewrite !ltb_spec. unfold SFltb.
  replace (Prim2SF 0) with (S754_zero false) by reflexivity.
  replace (Prim2SF epsilon) with (S754_finite false 5070602400912918 (-102)) by reflexivity.
  destruct (Prim2SF d) as [[]|[]| |[] m e]; intros H; try discriminate H; reflexivity.
Qed.

Lemma flag_ok_xor v : flag_ok v -> flag_ok (js_xor v (JBool true)).
Proof. destruct v as [[]|z]; simpl; [auto..|]. intros [->| ->]; auto. Qed.

Lemma js_xor_true v :
  flag_ok v -> js_xor v (JBool true) = JInt (if truthy v then 0 else 1).
Proof. destruct v as [[]|z]; simpl; [done..|]. by intros [->| ->]. Qed.


(** ** Clipping *)

Section ClippingFacts.
Variable psv : PhotoSphereViewer.

Lemma vertices_Some b positions3D polygon_rad :
  vertices (Some b) positions3D polygon_rad =
  Normal (imap (λ i pos, {| spherical := pos; vector := positions3D !! i;
                            vertex_visible := vertexVisible b pos |}) polygon_rad).
Proof. by destruct polygon_rad. Qed.

Lemma seq_lt n : Forall (λ i, i < n) (seq 0 n).
Proof. apply Forall_forall. intros i Hi. apply elem_of_seq in Hi. lia. Qed.

Lemma project_none_visible (positions : list Vertex) :
  Forall (λ pos, truthy (vertex_visible pos) = false) positions ->
  project psv positions = Normal [].
Proof.
  induction 1 as [|pos positions Hvis _ IH]; [done|].
  simpl. by rewrite Hvis.
Qed.

(** Both neighbours of a vertex of a closed polygon are vertices. *)
Lemma neighbours_in_range (positions : list Vertex) (i : nat) :
  i < length positions ->
  Forall (λ n, ∃ j, at_index positions n = positions !! j /\ n = Z.of_nat j /\ j < length positions)
    (neighbours (Z.of_nat (length positions)) (Z.of_nat i)).
Proof.
  intros Hi. unfold neighbours, at_index.
  repeat constructor.
  - destruct (Z.eqb_spec (Z.of_nat i) 0).
    + exists (length positions - 1). 
      destruct (Z.ltb_spec (Z.of_nat (length positions) - 1) 0); [lia|].
      split; [f_equal; lia | lia].
    + exists (i - 1).
      destruct (Z.ltb_spec (Z.of_nat i - 1) 0); [lia|].
      split; [f_equal; lia | lia].
  - destruct (Z.eqb_spec (Z.of_nat i) (Z.of_nat (length positions) - 1)).
    + exists 0. simpl. split; [done | lia].
    + exists (i + 1).
      destruct (Z.ltb_spec (Z.of_nat i + 1) 0); [lia|].
      split; [f_equal; lia | lia].
Qed.

Lemma visibleNeighbour_ok (positions : list Vertex) (ns : list Z) :
  Forall (λ n, ∃ j, at_index positions n = positions !! j /\ n = Z.of_nat j /\ j < length positions) ns ->
  ∃ found, visibleNeighbour positions ns = Normal found /\
    ((∀ pos, pos ∈ positions -> truthy (vertex_visible pos) = false) -> found = None) /\
    (∀ v, found = Some v ->
       ∃ pos, positions !! v = Some pos /\ truthy (vertex_visible pos) = true).
Proof.
  induction 1 as [|n ns (j & Hat & -> & Hj) _ (found & IH & IHnone & IHsome)].
  { exists None. by split_and!. }
  simpl. rewrite Hat.
  destruct (lookup_lt_is_Some_2 positions j Hj) as [pos Hpos].
  rewrite Hpos. simpl.
  destruct (truthy (vertex_visible pos)) eqn:Hvis.
  - exists (Some (Z.to_nat (Z.of_nat j))). rewrite Nat2Z.id. split_and!; [done|..].
    + intros Hall. apply list_elem_of_lookup_2 in Hpos. rewrite (Hall _ Hpos) in Hvis. done.
    + intros v [= <-]. eauto.
  - exists found. by split_and!.
Qed.

(** The pairs of [toBeComputed]: no exception on a closed polygon; the
    invisible members are some of the visited indices, in order; the
    visible members are visible vertices. *)
Lemma toBeComputed_ok (positions : list Vertex) (indices : list nat) :
  Forall (λ i, i < length positions) indices ->
  ∃ pairs, toBeComputed (Z.of_nat (length positions)) positions indices = Normal pairs /\
    pairs.*2 `sublist_of` indices /\
    ((∀ pos, pos ∈ positions -> truthy (vertex_visible pos) = false) -> pairs = []) /\
    Forall (λ p, (∃ pos, positions !! p.1 = Some pos /\ truthy (vertex_visible pos) = true) /\
                 (∃ pos, positions !! p.2 = Some pos /\ truthy (vertex_visible pos) = false))
           pairs.
Proof.
  induction 1 as [|i indices Hi _ (pairs & IH & IHsub & IHnone & IHall)].
  { exists []. by split_and!. }
  cbn. destruct (lookup_lt_is_Some_2 positions i Hi) as [pos Hpos].
  rewrite Hpos. cbn.
  destruct (truthy (vertex_visible pos)) eqn:Hvis.
  - simpl. rewrite IH. simpl. exists pairs. split_and!; [done| |done|done].
    by apply sublist_cons.
  - destruct (visibleNeighbour_ok positions _ (neighbours_in_range positions i Hi))
      as (found & -> & Hnone & Hsome).
    cbn. rewrite IH. cbn. destruct found as [v|].
    + exists ((v, i) :: pairs). split_and!; [done|..].
      * simpl. by apply sublist_skip.
      * intros Hall. by specialize (Hnone Hall).
      * constructor; [|done]. simpl. split; [by apply Hsome | eauto].
    + exists pairs. split_and!; [done| |done|done]. by apply sublist_cons.
Qed.

Lemma polygonPositions_none_visible b frustrumPoints positions3D polygon_rad :
  length positions3D = length polygon_rad ->
  Forall (λ pos, truthy (vertexVisible b pos) = false) polygon_rad ->
  polygonPositions psv (Some b) frustrumPoints positions3D polygon_rad = Normal [].
Proof.
  intros Hlen Hvis. unfold polygonPositions.
  rewrite vertices_Some. simpl.
  set (positions := imap _ polygon_rad).
  assert (Hinv : ∀ pos, pos ∈ positions -> truthy (vertex_visible pos) = false).
  { intros pos Hpos. apply list_elem_of_lookup in Hpos as [i Hpos].
    unfold positions in Hpos. rewrite list_lookup_imap in Hpos.
    destruct (polygon_rad !! i) as [rad|] eqn:Hrad; [|done].
    simpl in Hpos. injection Hpos as <-. simpl.
    by apply (proj1 (Forall_lookup _ _) Hvis i rad). }
  replace (Z.of_nat (length positions3D)) with (Z.of_nat (length positions))
    by (unfold positions; rewrite length_imap; lia).
  destruct (toBeComputed_ok positions _ (seq_lt (length positions)))
    as (pairs & -> & _ & Hnone & _).
  rewrite (Hnone Hinv). simpl.
  apply project_none_visible. by apply Forall_forall.
Qed.
Lemma toBeComputed_all_visible nbVectors (positions : list Vertex) indices :
  Forall (λ v, truthy (vertex_visible v) = true) positions ->
  Forall (λ i, i < length positions) indices ->
  toBeComputed nbVectors positions indices = Normal [].
Proof.
  intros Hvis. induction 1 as [|i indices Hi _ IH]; [done|].
  simpl. destruct (lookup_lt_is_Some_2 positions i Hi) as [pos Hpos].
  rewrite Hpos. simpl.
  rewrite (proj1 (Forall_lookup _ _) Hvis i pos Hpos). simpl.
  by rewrite IH.
Qed.

Lemma project_all_visible (positions : list Vertex) (vectors : list Vector3) :
  Forall2 (λ pos v, truthy (vertex_visible pos) = true /\ vector pos = Some v)
    positions vectors ->
  project psv positions = Normal (map (vector3ToViewerCoords psv) vectors).
Proof.
  induction 1 as [|pos v positions vectors [Hvis Hvec] _ IH]; [done|].
  simpl. rewrite Hvis, Hvec. simpl. by rewrite IH.
Qed.


Lemma polygonPositions_all_visible b frustrumPoints positions3D polygon_rad :
  length positions3D = length polygon_rad ->
  Forall (λ pos, truthy (vertexVisible b pos) = true) polygon_rad ->
  polygonPositions psv (Some b) frustrumPoints positions3D polygon_rad =
  Normal (map (vector3ToViewerCoords psv) positions3D).
Proof.
  intros Hlen Hvis. unfold polygonPositions.
  rewrite vertices_Some. simpl.
  rewrite toBeComputed_all_visible; simpl.
  - apply project_all_visible.
    apply Forall2_same_length_lookup. split.
    + by rewrite length_imap.
    + intros i pos v Hpos Hv. rewrite list_lookup_imap in Hpos.
      destruct (polygon_rad !! i) as [rad|] eqn:Hrad; [|done].
      simpl in Hpos. injection Hpos as <-. simpl. split; [|done].
      by apply (proj1 (Forall_lookup _ _) Hvis i rad).
  - apply Forall_forall. intros pos Hpos.
    apply list_elem_of_lookup in Hpos as [i Hpos].
    rewrite list_lookup_imap in Hpos.
    destruct (polygon_rad !! i) as [rad|] eqn:Hrad; [|done].
    simpl in Hpos. injection Hpos as <-. simpl.
    by apply (proj1 (Forall_lookup _ _) Hvis i rad).
  - apply seq_lt.
Qed.
End ClippingFacts.

Section Total.
Variable psv : PhotoSphereViewer.

Lemma firstIntersection_ok P1 P2 sides :
  Forall (λ s : option Vector3 * option Vector3, is_Some s.1 /\ is_Some s.2) sides ->
  ∃ r, firstIntersection psv (Some P1) (Some P2) sides = Normal r.
Proof.
  induction 1 as [|[s1 s2] sides [[P3 H3] [P4 H4]] _ [r IH]]; [by eexists|].
  simpl in H3, H4. subst s1 s2. cbn. destruct (arcIntersection2 psv P1 P2 P3 P4); eauto.
Qed.

Lemma _computeIntermediaryPoint_ok frustrumPoints P1 P2 :
  length frustrumPoints = 4 ->
  ∃ r, _computeIntermediaryPoint psv frustrumPoints (Some P1) (Some P2) = Normal r.
Proof.
  intros Hlen. apply firstIntersection_ok.
  destruct frustrumPoints as [|F0 [|F1 [|F2 [|F3 [|]]]]]; try done.
  unfold frustrumSides. simpl. repeat constructor; simpl; eauto.
Qed.

Lemma computePairs_ok frustrumPoints pairs : ∀ positions,
  length frustrumPoints = 4 ->
  NoDup pairs.*2 ->
  (∀ v i, v ∈ pairs.*1 -> i ∈ pairs.*2 -> v ≠ i) ->
  Forall (λ p, (∃ pos, positions !! p.1 = Some pos /\ is_Some (vector pos)) /\
               (∃ pos, positions !! p.2 = Some pos /\ is_Some (vector pos))) pairs ->
  Forall defined_when_visible positions ->
  ∃ positions', computePairs psv frustrumPoints pairs positions = Normal positions' /\
    Forall defined_when_visible positions'.
Proof.
  induction pairs as [|[v i] pairs IH]; intros positions Hlen Hnodup Hdisj Hpairs Hdef.
  { by exists positions. }
  apply Forall_cons in Hpairs as [[(pv & Hpv & [P1 HP1]) (pi & Hpi & [P2 HP2])] Hpairs].
  simpl in *. apply NoDup_cons in Hnodup as [Hi Hnodup].
  cbn. rewrite Hpv, Hpi. cbn. rewrite HP1, HP2.
  destruct (_computeIntermediaryPoint_ok frustrumPoints P1 P2 Hlen) as [vec ->].
  cbn. apply IH; [done|done|..].
  - intros v' i' Hv' Hi'. apply Hdisj; by right.
  - apply Forall_forall. intros [v' i'] Hin.
    destruct (proj1 (Forall_forall _ _) Hpairs _ Hin)
      as [(pv' & Hpv' & ?) (pi' & Hpi' & ?)]. simpl in *. split.
    + exists pv'. split; [|done]. rewrite list_lookup_insert_ne; [done|].
      intros <-. apply (Hdisj i i); [|by left|done].
      right. by apply (list_elem_of_fmap_2 fst _ (i, i')).
    + exists pi'. split; [|done]. rewrite list_lookup_insert_ne; [done|].
      intros <-. apply Hi. by apply (list_elem_of_fmap_2 snd _ (v', i)).
  - apply Forall_insert; [done|]. unfold defined_when_visible, js_notnot. simpl.
    intros Hv. by apply bool_decide_eq_true in Hv.
Qed.

Lemma project_ok (positions : list Vertex) :
  Forall defined_when_visible positions ->
  ∃ ps, project psv positions = Normal ps.
Proof.
  induction 1 as [|pos positions Hdef _ [ps IH]]; [by eexists|].
  cbn. destruct (truthy (vertex_visible pos)) eqn:Hvis; [|eauto].
  destruct (Hdef Hvis) as [v ->]. cbn. rewrite IH. cbn. eauto.
Qed.

(** On a closed polygon, with the four corners of the frustum, the
    clipping ends without exception. *)
Lemma polygonPositions_total b frustrumPoints positions3D polygon_rad :
  length positions3D = length polygon_rad ->
  length frustrumPoints = 4 ->
  ∃ ps, polygonPositions psv (Some b) frustrumPoints positions3D polygon_rad = Normal ps.
Proof.
  intros Hlen Hfrustrum. unfold polygonPositions.
  rewrite vertices_Some. cbn.
  set (positions := imap _ polygon_rad).
  assert (Hvec : ∀ i pos, positions !! i = Some pos -> is_Some (vector pos)).
  { intros i pos Hpos. unfold positions in Hpos. rewrite list_lookup_imap in Hpos.
    destruct (polygon_rad !! i) as [rad|] eqn:Hrad; [|done].
    simpl in Hpos. injection Hpos as <-. simpl.
    apply lookup_lt_is_Some_2. rewrite Hlen. by eapply lookup_lt_Some. }
  replace (Z.of_nat (length positions3D)) with (Z.of_nat (length positions))
    by (unfold positions; rewrite length_imap; lia).
  destruct (toBeComputed_ok positions _ (seq_lt (length positions)))
    as (pairs & -> & Hsub & _ & Hpairs).
  cbn.
  destruct (computePairs_ok frustrumPoints pairs positions) as (positions' & -> & Hdef);
    [done|..].
  - eapply sublist_NoDup; [apply NoDup_seq | exact Hsub].
  - intros v i Hv Hi ->.
    apply list_elem_of_fmap in Hv as ([v1 i1] & -> & Hin1).
    apply list_elem_of_fmap in Hi as ([v2 i2] & Heq & Hin2). simpl in *. subst i2.
    apply (proj1 (Forall_forall _ _) Hpairs) in Hin1 as [(p1 & Hp1 & Hvis1) _].
    apply (proj1 (Forall_forall _ _) Hpairs) in Hin2 as [_ (p2 & Hp2 & Hvis2)].
    simpl in *. congruence.
  - eapply Forall_impl; [exact Hpairs|].
    intros [v i] [(pv & Hpv & _) (pi & Hpi & _)]. simpl in *. split; eauto.
  - apply Forall_forall. intros pos Hpos _.
    apply list_elem_of_lookup in Hpos as [i Hpos]. eauto.
  - cbn. by apply project_ok.
Qed.
End Total.

Section ArcFacts.
Variable psv : PhotoSphereViewer.

(** What a returned point has passed: the two tests, on one of the two
    candidates. *)
Lemma arcIntersection2_Some P1 P2 P3 P4 C :
  arcIntersection2 psv P1 P2 P3 P4 = Some C ->
  let S1 := normalize psv (THREE.crossVectors
              (normalize psv (THREE.crossVectors P1 P2))
              (normalize psv (THREE.crossVectors P3 P4))) in
  let sph := vector3ToSphericalCoords psv in
  (C = S1 \/ C = THREE.multiplyScalar S1 (-1)%float) /\
  arcTest (arcDistance psv (sph P1) (sph P2))
          (arcDistance psv (sph C) (sph P1)) (arcDistance psv (sph C) (sph P2)) = true /\
  arcTest (arcDistance psv (sph P3) (sph P4))
          (arcDistance psv (sph C) (sph P3)) (arcDistance psv (sph C) (sph P4)) = true.
Proof.
  unfold arcIntersection2. cbv zeta. intros H.
  repeat match type of H with
         | context [if ?b then _ else _] => destruct b eqn:?
         end; try discriminate; injection H as <-; auto.
Qed.

(** For every viewer: when the distances from the first candidate to the
    endpoints add up to more than the distance between the endpoints, on
    the edge and on the side, the first candidate is returned. *)
Lemma arcIntersection2_first_candidate P1 P2 P3 P4 :
  let S1 := normalize psv (THREE.crossVectors
              (normalize psv (THREE.crossVectors P1 P2))
              (normalize psv (THREE.crossVectors P3 P4))) in
  let sph := vector3ToSphericalCoords psv in
  let distance := arcDistance psv in
  PrimFloat.ltb (distance (sph P1) (sph P2)
                 - distance (sph S1) (sph P1) - distance (sph S1) (sph P2))%js 0 = true ->
  PrimFloat.ltb (distance (sph P3) (sph P4)
                 - distance (sph S1) (sph P3) - distance (sph S1) (sph P4))%js 0 = true ->
  arcIntersection2 psv P1 P2 P3 P4 = Some S1.
Proof.
  intros S1 sph distance H1 H2. unfold arcIntersection2. cbv zeta.
  fold S1 sph distance. by rewrite (arcTest_negative _ _ _ H1), (arcTest_negative _ _ _ H2).
Qed.

(** A pair without intersection: the invisible vertex stays out. *)
Lemma computePairs_dropped frustrumPoints (positions : list Vertex) v i pv pi :
  positions !! v = Some pv -> positions !! i = Some pi ->
  _computeIntermediaryPoint psv frustrumPoints (vector pv) (vector pi) = Normal None ->
  computePairs psv frustrumPoints [(v, i)] positions =
  Normal (<[i := {| spherical := spherical pi; vector := None;
                    vertex_visible := JBool false |}]> positions).
Proof. intros Hv Hi Hnone. cbn. rewrite Hv, Hi. cbn. by rewrite Hnone. Qed.
End ArcFacts.


(** ** The projection pass *)

Section Pass.
Variable psv : PhotoSphereViewer.

Lemma _getMarkerPosition_point marker p :
  geometry marker = Point p ->
  ∃ marker' position, _getMarkerPosition psv marker = Normal (marker', position) /\
    same_marker marker marker'.
Proof.
  intros Hp. unfold _getMarkerPosition.
  destruct (dynamicSize marker); unfold position3D_of; simpl; rewrite Hp; cbn;
    eexists _, _; split; try reflexivity; by repeat split.
Qed.

Lemma _isMarkerVisible_point marker p position :
  geometry marker = Point p ->
  ∃ v, _isMarkerVisible psv marker position = Normal v.
Proof.
  intros Hp. unfold _isMarkerVisible, position3D_of. rewrite Hp.
  destruct (truthy (visible marker)); cbn; eauto.
Qed.

Lemma _isMarkerVisible_behind marker p position :
  geometry marker = Point p ->
  PrimFloat.ltb (THREE.dot p (prop_direction psv)) 0 = true ->
  ∃ v, _isMarkerVisible psv marker position = Normal v /\ truthy v = false /\
    (truthy (visible marker) = true -> v = JBool false).
Proof.
  intros Hp Hdot. unfold _isMarkerVisible, position3D_of. rewrite Hp.
  destruct (truthy (visible marker)) eqn:Hvis; cbn.
  - rewrite (ltb_0_false _ Hdot). cbn. by exists (JBool false).
  - by exists (visible marker).
Qed.

Lemma updatePosition_same this rotation m m' :
  updatePosition psv this rotation m = Normal m' -> same_marker m m'.
Proof.
  unfold updatePosition. destruct (isPolygon m) eqn:Hpoly.
  - destruct (_getPolygonPositions psv this m) as [positions|]; [|done]. cbn.
    intros [= <-]. by repeat split.
  - unfold isPolygon in Hpoly. destruct (geometry m) as [p|] eqn:Hp; [|done].
    destruct (_getMarkerPosition_point m p Hp) as (m1 & position & -> & Hsame).
    cbn.
    destruct Hsame as (Hid & Hvis & Hgeo & Htip).
    destruct (_isMarkerVisible psv m1 position) as [v|]; [|done]. cbn.
    destruct (truthy v); intros [= <-]; by repeat split.
Qed.

Lemma Earlier_updatePosition_same rotation m m' :
  Earlier.updatePosition psv rotation m = Normal m' -> same_marker m m'.
Proof.
  unfold Earlier.updatePosition. destruct (isPolygon m) eqn:Hpoly.
  - destruct (Earlier._getPolygonPositions psv m) as [positions|]; [|done]. cbn.
    destruct (Earlier._isPolygonVisible psv m positions) as [v|]; [|done]. cbn.
    destruct (truthy v); intros [= <-]; by repeat split.
  - unfold isPolygon in Hpoly. destruct (geometry m) as [p|] eqn:Hp; [|done].
    destruct (_getMarkerPosition_point m p Hp) as (m1 & position & -> & Hsame).
    cbn.
    destruct Hsame as (Hid & Hvis & Hgeo & Htip).
    destruct (_isMarkerVisible psv m1 position) as [v|]; [|done]. cbn.
    destruct (truthy v); intros [= <-]; by repeat split.
Qed.

Lemma updatePosition_total this rotation m b :
  marker_wf m ->
  prop_fovBounds this = Some b ->
  length (prop_frustrumPoints this) = 4 ->
  ∃ m', updatePosition psv this rotation m = Normal m'.
Proof.
  intros Hwf Hb Hfr. unfold updatePosition. destruct (isPolygon m) eqn:Hpoly.
  - unfold isPolygon in Hpoly. unfold marker_wf in Hwf.
    unfold _getPolygonPositions, polygonArrays.
    destruct (geometry m) as [|positions3D polygon_rad]; [done|]. cbn. rewrite Hb.
    destruct (polygonPositions_total psv b _ _ _ Hwf Hfr) as [ps ->]. cbn. eauto.
  - unfold isPolygon in Hpoly. destruct (geometry m) as [p|] eqn:Hp; [|done].
    destruct (_getMarkerPosition_point m p Hp) as (m1 & position & -> & Hsame).
    cbn. destruct Hsame as (_ & _ & Hgeo & _). rewrite Hp in Hgeo.
    destruct (_isMarkerVisible_point m1 p position Hgeo) as [v ->]. cbn.
    destruct (truthy v); eauto.
Qed.

(** A point marker behind the camera: [position2D] is null. *)
Lemma updatePosition_behind this rotation m p :
  geometry m = Point p ->
  PrimFloat.ltb (THREE.dot p (prop_direction psv)) 0 = true ->
  ∃ m', updatePosition psv this rotation m = Normal m' /\
    position2D m' = None /\ classList_visible (el m') = false.
Proof.
  intros Hp Hdot. unfold updatePosition, isPolygon. rewrite Hp.
  destruct (_getMarkerPosition_point m p Hp) as (m1 & position & -> & Hsame).
  cbn. destruct Hsame as (_ & _ & Hgeo & _). rewrite Hp in Hgeo.
  destruct (_isMarkerVisible_behind m1 p position Hgeo Hdot) as (v & -> & Hv & _).
  cbn. rewrite Hv. eauto.
Qed.

(** A polygon with no vertex in the field of view: the clipped list is
    empty and the marker is nevertheless given a position. *)
Lemma updatePosition_outside this rotation m b positions3D polygon_rad :
  geometry m = Polygon positions3D polygon_rad ->
  length positions3D = length polygon_rad ->
  prop_fovBounds this = Some b ->
  Forall (λ pos, truthy (vertexVisible b pos) = false) polygon_rad ->
  _getPolygonPositions psv this m = Normal [] /\
  ∃ m', updatePosition psv this rotation m = Normal m' /\
    position2D m' = Some {| top := infinity; left := infinity |} /\
    attr_points (el m') = Some [] /\
    classList_visible (el m') = true.
Proof.
  intros Hp Hlen Hb Hvis.
  assert (Hpos : _getPolygonPositions psv this m = Normal []).
  { unfold _getPolygonPositions, polygonArrays. rewrite Hp. cbn. rewrite Hb.
    by apply polygonPositions_none_visible. }
  split; [done|]. unfold updatePosition, isPolygon. rewrite Hp, Hpos. cbn. eauto.
Qed.
End Pass.

Lemma same_marker_refl m : same_marker m m.
Proof. by repeat split. Qed.

Lemma same_marker_trans m1 m2 m3 :
  same_marker m1 m2 -> same_marker m2 m3 -> same_marker m1 m3.
Proof. intros (?&?&?&?) (?&?&?&?). repeat split; congruence. Qed.

Lemma frame_refl this : frame this this.
Proof. split; try done. intros l m ?. exists m. split; [done|apply same_marker_refl]. Qed.

Lemma frame_trans this1 this2 this3 :
  frame this1 this2 -> frame this2 this3 -> frame this1 this3.
Proof.
  intros [] []. split; try congruence.
  intros l m Hm. destruct (frame_store0 l m Hm) as (m2 & Hm2 & Hs2).
  destruct (frame_store1 l m2 Hm2) as (m3 & Hm3 & Hs3).
  exists m3. split; [done|]. by eapply same_marker_trans.
Qed.

Lemma frame_set_prop b points this : frame this (set_prop b points this).
Proof. split; try done. intros l m ?. exists m. split; [done|apply same_marker_refl]. Qed.

Lemma frame_write this l m m' :
  store this !! l = Some m -> same_marker m m' ->
  frame this (set_store (λ objects, <[l := m']> objects) this).
Proof.
  intros Hl Hsame. split; try done; simpl.
  - by rewrite length_insert.
  - intros l1 m1 Hl1. destruct (decide (l = l1)) as [<-|Hne].
    + exists m'. rewrite list_lookup_insert_eq by (by eapply lookup_lt_Some).
      split; [done|]. congruence.
    + exists m1. rewrite list_lookup_insert_ne by done.
      split; [done|apply same_marker_refl].
Qed.

Section PassFacts.
Variable psv : PhotoSphereViewer.

Lemma updatePositionAt_eq rotation l this :
  updatePositionAt psv rotation l this =
  match store this !! l with
  | None => (Throw TypeError, this)
  | Some m =>
      match updatePosition psv this rotation m with
      | Normal m' => (Normal tt, set_store (λ objects, <[l := m']> objects) this)
      | Throw e => (Throw e, this)
      end
  end.
Proof.
  unfold updatePositionAt, readMarker, writeMarker, gets, lift, modify.
  unfold mbind, M_bind. cbn. destruct (store this !! l) as [m|]; cbn; [|done].
  by destruct (updatePosition psv this rotation m).
Qed.

Lemma updatePositionAt_frame rotation l this :
  frame this (updatePositionAt psv rotation l this).2.
Proof.
  rewrite updatePositionAt_eq. destruct (store this !! l) as [m|] eqn:Hl; [|apply frame_refl].
  destruct (updatePosition psv this rotation m) as [m'|] eqn:Hm'; [|apply frame_refl].
  eapply frame_write; [done|]. by eapply updatePosition_same.
Qed.

Lemma updatePositionAt_prop rotation l this :
  prop_fovBounds (updatePositionAt psv rotation l this).2 = prop_fovBounds this /\
  prop_frustrumPoints (updatePositionAt psv rotation l this).2 = prop_frustrumPoints this.
Proof.
  rewrite updatePositionAt_eq. destruct (store this !! l) as [m|]; [|done].
  by destruct (updatePosition psv this rotation m).
Qed.

Lemma forIn_cons (body : ref -> M unit) id (l : ref) entries this :
  forIn ((id, l) :: entries) body this =
  match body l this with
  | (Normal _, this') => forIn entries body this'
  | (Throw e, this') => (Throw e, this')
  end.
Proof. cbn. unfold mbind, M_bind. by destruct (body l this) as [[[]|] ?]. Qed.

Lemma forIn_frame rotation entries : ∀ this,
  frame this (forIn entries (updatePositionAt psv rotation) this).2.
Proof.
  induction entries as [|[id l] entries IH]; intros this; [apply frame_refl|].
  rewrite forIn_cons.
  pose proof (updatePositionAt_frame rotation l this) as Hf.
  destruct (updatePositionAt psv rotation l this) as [[[]|e] this1]; [|done].
  eapply frame_trans; [exact Hf|apply IH].
Qed.

Lemma forIn_prop rotation entries : ∀ this,
  prop_fovBounds (forIn entries (updatePositionAt psv rotation) this).2 = prop_fovBounds this /\
  prop_frustrumPoints (forIn entries (updatePositionAt psv rotation) this).2
    = prop_frustrumPoints this.
Proof.
  induction entries as [|[id l] entries IH]; intros this; [done|].
  rewrite forIn_cons.
  pose proof (updatePositionAt_prop rotation l this) as [H1 H2].
  destruct (updatePositionAt psv rotation l this) as [[[]|e] this1]; [|done].
  destruct (IH this1) as [H3 H4]. simpl in *. split; congruence.
Qed.

(** The pass ends without exception when every entry of the registry is
    a marker and every polygon is closed. *)
Lemma forIn_total rotation b entries : ∀ this,
  prop_fovBounds this = Some b ->
  length (prop_frustrumPoints this) = 4 ->
  Forall (λ e : string * ref, is_Some (store this !! e.2)) entries ->
  Forall marker_wf (store this) ->
  ∃ this', forIn entries (updatePositionAt psv rotation) this = (Normal tt, this').
Proof.
  induction entries as [|[id l] entries IH]; intros this Hb Hfr Hrefs Hwf; [by eexists|].
  apply Forall_cons in Hrefs as [[m Hl] Hrefs]. simpl in Hl.
  rewrite forIn_cons.
  pose proof (updatePositionAt_frame rotation l this) as Hf.
  pose proof (updatePositionAt_prop rotation l this) as [Hb' Hfr'].
  rewrite updatePositionAt_eq in *. rewrite Hl in *.
  destruct (updatePosition_total psv this rotation m b) as [m' Hm']; [|done..|].
  { by eapply (proj1 (Forall_lookup _ _) Hwf). }
  rewrite Hm' in *. simpl in Hf. clear Hb' Hfr'.
  apply IH.
  - done.
  - done.
  - eapply Forall_impl; [exact Hrefs|]. intros [id1 l1] [m1 Hl1]. simpl in Hl1.
    destruct (frame_store _ _ Hf l1 m1 Hl1) as (m1' & Hl1' & _). by exists m1'.
  - apply Forall_lookup. intros l1 m1' Hl1. simpl in Hl1.
    destruct (decide (l = l1)) as [<-|Hne].
    + rewrite list_lookup_insert_eq in Hl1 by (by eapply lookup_lt_Some).
      injection Hl1 as <-. apply updatePosition_same in Hm' as (_ & _ & Hgeo & _).
      unfold marker_wf. rewrite Hgeo.
      by apply (proj1 (Forall_lookup _ _) Hwf l m).
    + rewrite list_lookup_insert_ne in Hl1 by done.
      by apply (proj1 (Forall_lookup _ _) Hwf l1).
Qed.

(** A property [R] that every visit of marker [l] establishes, for a
    marker described by [I], holds after a pass that visits [l]. *)
Lemma forIn_visit rotation (I R : Marker -> Prop) fovBounds frustrumPoints (l : ref) :
  (∀ this m m', prop_fovBounds this = fovBounds ->
     prop_frustrumPoints this = frustrumPoints ->
     I m -> updatePosition psv this rotation m = Normal m' -> I m' /\ R m') ->
  ∀ entries this this' m,
    prop_fovBounds this = fovBounds ->
    prop_frustrumPoints this = frustrumPoints ->
    store this !! l = Some m -> I m ->
    forIn entries (updatePositionAt psv rotation) this = (Normal tt, this') ->
    ∃ m', store this' !! l = Some m' /\ I m' /\
      ((R m \/ l ∈ entries.*2) -> R m').
Proof.
  intros Hbody. induction entries as [|[id l1] entries IH];
    intros this this' m Hb Hfr Hl HI Hrun.
  { injection Hrun as <-. exists m. split_and!; [done..|].
    intros [?|Hin]; [done|]. by apply elem_of_nil in Hin. }
  rewrite forIn_cons in Hrun.
  pose proof (updatePositionAt_prop rotation l1 this) as [Hb' Hfr'].
  rewrite updatePositionAt_eq in *.
  destruct (store this !! l1) as [m1|] eqn:Hl1; [|done].
  destruct (updatePosition psv this rotation m1) as [m1'|] eqn:Hm1; [|done].
  simpl in Hb', Hfr'.
  destruct (decide (l1 = l)) as [->|Hne].
  - assert (m1 = m) as -> by congruence.
    destruct (Hbody this m m1' Hb Hfr HI Hm1) as [HI' HR'].
    destruct (IH (set_store (λ objects, <[l:=m1']> objects) this) this' m1' Hb Hfr)
      as (m' & Hm' & HIm' & HRm'); [|done|exact Hrun|].
    { simpl. apply list_lookup_insert_eq. by eapply lookup_lt_Some. }
    exists m'. split_and!; [done..|]. intros _. apply HRm'. by left.
  - destruct (IH (set_store (λ objects, <[l1:=m1']> objects) this) this' m Hb Hfr)
      as (m' & Hm' & HIm' & HRm'); [|done|exact Hrun|].
    { simpl. by rewrite list_lookup_insert_ne. }
    exists m'. split_and!; [done..|]. intros [HR|Hin]; apply HRm'; [by left|].
    right. simpl in Hin. apply elem_of_cons in Hin as [?|?]; [congruence|done].
Qed.

Lemma updatePositions_eq this :
  updatePositions psv this =
  let this0 := set_prop (fovBounds_of psv) (frustrumPoints_of psv (fovBounds_of psv)) this in
  forIn (map_to_list (markers this)) (updatePositionAt psv (rotation_of psv)) this0.
Proof. reflexivity. Qed.

Lemma updatePositions_frame this : frame this (updatePositions psv this).2.
Proof.
  rewrite updatePositions_eq. simpl.
  eapply frame_trans; [apply frame_set_prop|apply forIn_frame].
Qed.

Lemma Earlier_updatePositionAt_frame rotation l this :
  frame this (Earlier.updatePositionAt psv rotation l this).2.
Proof.
  unfold Earlier.updatePositionAt. run_M.
  destruct (store this !! l) as [m|] eqn:Hl; [|apply frame_refl]. cbn.
  destruct (Earlier.updatePosition psv rotation m) as [m'|] eqn:Hm'; [|apply frame_refl].
  eapply frame_write; [done|]. by eapply Earlier_updatePosition_same.
Qed.

Lemma Earlier_updatePositions_frame this :
  frame this (Earlier.updatePositions psv this).2.
Proof.
  unfold Earlier.updatePositions. run_M.
  generalize (map_to_list (markers this)). intros entries. revert this.
  induction entries as [|[id l] entries IH]; intros this; [apply frame_refl|].
  rewrite forIn_cons.
  pose proof (Earlier_updatePositionAt_frame (rotation_of psv) l this) as Hf.
  destruct (Earlier.updatePositionAt psv _ l this) as [[[]|e] this1]; [|done].
  eapply frame_trans; [exact Hf|apply IH].
Qed.

Lemma updatePositions_total this :
  refs_valid this -> Forall marker_wf (store this) ->
  ∃ this', updatePositions psv this = (Normal tt, this').
Proof.
  intros Hrefs Hwf. rewrite updatePositions_eq. simpl.
  eapply forIn_total; [done|done| |done].
  apply Forall_forall. intros [id l] Hin. apply elem_of_map_to_list in Hin.
  simpl. by eapply Hrefs.
Qed.

Lemma updatePositions_visit (I R : Marker -> Prop) this this' id l m :
  (∀ this m m', prop_fovBounds this = Some (fovBounds_of psv) ->
     I m -> updatePosition psv this (rotation_of psv) m = Normal m' -> I m' /\ R m') ->
  markers this !! id = Some l ->
  store this !! l = Some m -> I m ->
  updatePositions psv this = (Normal tt, this') ->
  ∃ m', store this' !! l = Some m' /\ I m' /\ R m'.
Proof.
  intros Hbody Hid Hl HI Hrun. rewrite updatePositions_eq in Hrun. simpl in Hrun.
  assert (Hbody' : ∀ this m m',
     prop_fovBounds this = Some (fovBounds_of psv) ->
     prop_frustrumPoints this = frustrumPoints_of psv (fovBounds_of psv) ->
     I m -> updatePosition psv this (rotation_of psv) m = Normal m' -> I m' /\ R m').
  { intros ? ? ? ? _. by apply Hbody. }
  destruct (forIn_visit (rotation_of psv) I R _ _ l Hbody' (map_to_list (markers this))
    (set_prop (fovBounds_of psv) (frustrumPoints_of psv (fovBounds_of psv)) this)
    this' m eq_refl eq_refl Hl HI Hrun)
    as (m' & Hm' & HIm' & HRm').
  exists m'. split_and!; [done..|]. apply HRm'. right.
  apply list_elem_of_fmap. exists (id, l). split; [done|].
  by apply elem_of_map_to_list.
Qed.
End PassFacts.

(** ** The registry *)

Section RegistryFacts.
Variable psv : PhotoSphereViewer.

Lemma getMarker_eq marker this :
  getMarker marker this =
  match markers this !! ToString (arg_id marker) with
  | Some l => (Normal l, this)
  | None => (Throw (cannot_find (arg_id marker)), this)
  end.
Proof. unfold getMarker. run_M. by destruct (markers this !! _). Qed.

Lemma addMarker_eq properties render this :
  addMarker psv properties render this =
  if negb (id_truthy (p_id properties)) then (Throw missing_id, this)
  else if bool_decide (is_Some (markers this !! ToString (p_id properties)))
  then (Throw (already_exists (p_id properties)), this)
  else if render then
    match updatePositions psv (registered properties this) with
    | (Normal _, this') => (Normal (length (store this)), this')
    | (Throw e, this') => (Throw e, this')
    end
  else (Normal (length (store this)), registered properties this).
Proof.
  unfold addMarker, registered.
  destruct (negb (id_truthy (p_id properties))); [done|]. run_M.
  destruct (bool_decide _); [done|]. cbn.
  destruct (isNormal (new_PSVMarker _ properties)); cbn; destruct render; try done.
Qed.

Lemma Earlier_addMarker_eq properties render this :
  Earlier.addMarker psv properties render this =
  if negb (id_truthy (p_id properties)) then (Throw missing_id, this)
  else if bool_decide (is_Some (markers this !! ToString (p_id properties)))
  then (Throw (already_exists (p_id properties)), this)
  else if render then
    match Earlier.updatePositions psv (registered properties this) with
    | (Normal _, this') => (Normal undefined, this')
    | (Throw e, this') => (Throw e, this')
    end
  else (Normal undefined, registered properties this).
Proof.
  unfold Earlier.addMarker, registered.
  destruct (negb (id_truthy (p_id properties))); [done|]. run_M.
  destruct (bool_decide _); [done|]. cbn.
  destruct (isNormal (new_PSVMarker _ properties)); cbn; destruct render; try done.
Qed.

Lemma removeMarker_eq marker render this :
  removeMarker psv marker render this =
  match markers this !! ToString (arg_id marker) with
  | None => (Throw (cannot_find (arg_id marker)), this)
  | Some l =>
      match store this !! l with
      | None => (Throw TypeError, this)
      | Some m =>
          if render then updatePositions psv (removed l m this)
          else (Normal tt, removed l m this)
      end
  end.
Proof.
  unfold removeMarker. unfold mbind at 1. unfold M_bind at 1.
  rewrite getMarker_eq. destruct (markers this !! _) as [l|]. 2: done.
  unfold removed. run_M. destruct (store this !! l) as [m|]. 2: done. cbn.
  destruct (isNormal m); cbn; destruct (bool_decide _); cbn; by destruct render.
Qed.

Lemma toggleMarker_eq marker this :
  toggleMarker psv marker this =
  match markers this !! ToString (arg_id marker) with
  | None => (Throw (cannot_find (arg_id marker)), this)
  | Some l =>
      match store this !! l with
      | None => (Throw TypeError, this)
      | Some m =>
          updatePositions psv
            (set_store (λ objects, <[l := set_visible (js_xor (visible m) (JBool true)) m]> objects) this)
      end
  end.
Proof.
  unfold toggleMarker. unfold mbind at 1. unfold M_bind at 1.
  rewrite getMarker_eq. destruct (markers this !! _) as [l|]; [|done].
  run_M. by destruct (store this !! l) as [m|].
Qed.
Lemma Earlier_toggleMarker_eq marker this :
  Earlier.toggleMarker psv marker this =
  match markers this !! ToString (arg_id marker) with
  | None => (Throw (cannot_find (arg_id marker)), this)
  | Some l =>
      match store this !! l with
      | None => (Throw TypeError, this)
      | Some m =>
          Earlier.updatePositions psv
            (set_store (λ objects, <[l := set_visible (js_xor (visible m) (JBool true)) m]> objects) this)
      end
  end.
Proof.
  unfold Earlier.toggleMarker. unfold mbind at 1. unfold M_bind at 1.
  rewrite getMarker_eq. destruct (markers this !! _) as [l|]; [|done].
  run_M. by destruct (store this !! l) as [m|].
Qed.
End RegistryFacts.

Lemma hud_wf_new : hud_wf new_PSVHUD.
Proof. split; intros ? ? H; simpl in H; [by rewrite lookup_empty in H | done]. Qed.

Lemma hud_wf_frame this this' : frame this this' -> hud_wf this -> hud_wf this'.
Proof.
  intros Hf [Hreg Hflags]. split.
  - intros id l Hid. rewrite (frame_markers _ _ Hf) in Hid.
    destruct (Hreg id l Hid) as (m & Hm & Hmid).
    destruct (frame_store _ _ Hf l m Hm) as (m' & Hm' & Hid' & _).
    exists m'. split; [done|by rewrite Hid'].
  - intros l m' Hm'.
    assert (is_Some (store this !! l)) as [m Hm].
    { apply lookup_lt_is_Some_2. rewrite <- (frame_length _ _ Hf). by eapply lookup_lt_Some. }
    destruct (frame_store _ _ Hf l m Hm) as (m'' & Hm'' & _ & Hvis & _).
    rewrite Hm' in Hm''. injection Hm'' as <-. rewrite Hvis. by eapply Hflags.
Qed.

Lemma hud_wf_write this l m m' :
  store this !! l = Some m -> marker_id m' = marker_id m -> flag_ok (visible m') ->
  hud_wf this -> hud_wf (set_store (λ objects, <[l := m']> objects) this).
Proof.
  intros Hl Hid Hflag [Hreg Hflags]. split.
  - intros id l1 Hid1. simpl in Hid1. destruct (Hreg id l1 Hid1) as (m1 & Hm1 & Hmid1).
    simpl. destruct (decide (l = l1)) as [<-|Hne].
    + exists m'. rewrite list_lookup_insert_eq by (by eapply lookup_lt_Some).
      rewrite Hm1 in Hl. injection Hl as <-. split; [done|by rewrite Hid].
    + exists m1. by rewrite list_lookup_insert_ne.
  - intros l1 m1 Hl1. simpl in Hl1. destruct (decide (l = l1)) as [<-|Hne].
    + rewrite list_lookup_insert_eq in Hl1 by (by eapply lookup_lt_Some).
      by injection Hl1 as <-.
    + rewrite list_lookup_insert_ne in Hl1 by done. by eapply Hflags.
Qed.

Lemma markers_registered properties this :
  markers (registered properties this) =
  <[ToString (p_id properties) := length (store this)]> (markers this).
Proof. unfold registered. simpl. by destruct (isNormal _). Qed.

Lemma store_registered properties this :
  store (registered properties this) =
  store this ++ [new_PSVMarker (ToString (p_id properties)) properties].
Proof. unfold registered. simpl. by destruct (isNormal _). Qed.

Lemma hud_wf_registered properties this :
  hud_wf this -> hud_wf (registered properties this).
Proof.
  intros [Hreg Hflags]. split.
  - intros id l. rewrite markers_registered, store_registered.
    destruct (decide (ToString (p_id properties) = id)) as [<-|Hne].
    + rewrite lookup_insert_eq. intros [= <-].
      exists (new_PSVMarker (ToString (p_id properties)) properties). split; [|done].
      by rewrite lookup_app_r, Nat.sub_diag.
    + rewrite lookup_insert_ne by done. intros Hid.
      destruct (Hreg id l Hid) as (m & Hm & Hmid). exists m. split; [|done].
      by apply lookup_app_l_Some.
  - intros l m. rewrite store_registered. intros Hl.
    apply lookup_app_Some in Hl as [Hl|[_ Hl]]; [by eapply Hflags|].
    destruct (l - length (store this)); [|done]. by injection Hl as <-.
Qed.

Lemma markers_removed l m this :
  markers (removed l m this) = delete (marker_id m) (markers this).
Proof. unfold removed. simpl. destruct (isNormal m); simpl; by destruct (bool_decide _). Qed.

Lemma store_removed l m this : store (removed l m this) = store this.
Proof. unfold removed. simpl. destruct (isNormal m); simpl; by destruct (bool_decide _). Qed.

Lemma hud_wf_removed l m this : hud_wf this -> hud_wf (removed l m this).
Proof.
  intros [Hreg Hflags]. split.
  - intros id l1. rewrite markers_removed, store_removed.
    intros Hid. apply lookup_delete_Some in Hid as [_ Hid]. by apply Hreg.
  - intros l1 m1. rewrite store_removed. apply Hflags.
Qed.

Section Calls.
Variable psv : PhotoSphereViewer.

Lemma updateMarker_eq input render this :
  updateMarker psv input render this =
  match markers this !! ToString (arg_id input) with
  | None => (Throw (cannot_find (arg_id input)), this)
  | Some l =>
      match store this !! l with
      | None => (Throw TypeError, this)
      | Some m =>
          let m' := match input with
                    | ArgObject o => PSVMarker_update o m
                    | ArgId _ => m
                    end in
          let this1 := set_store (λ objects, <[l := m']> objects) this in
          if render then
            match updatePositions psv this1 with
            | (Normal _, this') => (Normal l, this')
            | (Throw e, this') => (Throw e, this')
            end
          else (Normal l, this1)
      end
  end.
Proof.
  unfold updateMarker. unfold mbind at 1. unfold M_bind at 1.
  rewrite getMarker_eq. destruct (markers this !! _) as [l|]; [|done].
  run_M. destruct (store this !! l) as [m|]; [|done]. cbn. by destruct render.
Qed.

Lemma setVisible_eq (v : jsflag) marker this :
  (marker ← getMarker marker;
   m ← readMarker marker;
   _ ← writeMarker marker (set_visible v m);
   updatePositions psv) this =
  match markers this !! ToString (arg_id marker) with
  | None => (Throw (cannot_find (arg_id marker)), this)
  | Some l =>
      match store this !! l with
      | None => (Throw TypeError, this)
      | Some m =>
          updatePositions psv
            (set_store (λ objects, <[l := set_visible v m]> objects) this)
      end
  end.
Proof.
  unfold mbind at 1. unfold M_bind at 1.
  rewrite getMarker_eq. destruct (markers this !! _) as [l|]; [|done].
  run_M. by destruct (store this !! l) as [m|].
Qed.

Lemma hud_wf_updatePositions this : hud_wf this -> hud_wf (updatePositions psv this).2.
Proof. apply hud_wf_frame, updatePositions_frame. Qed.

Lemma markers_updatePositions this :
  markers (updatePositions psv this).2 = markers this.
Proof. apply (frame_markers _ _ (updatePositions_frame psv this)). Qed.

Lemma removeMarker_inv marker render this :
  hud_wf this ->
  hud_wf (removeMarker psv marker render this).2 /\
  ∀ id l, markers this !! id = Some l -> ToString (arg_id marker) ≠ id ->
    markers (removeMarker psv marker render this).2 !! id = Some l.
Proof.
  intros Hwf. rewrite removeMarker_eq.
  destruct (markers this !! ToString (arg_id marker)) as [l0|] eqn:Hl0; [|done].
  destruct (proj1 Hwf _ _ Hl0) as (m & Hm & Hmid). rewrite Hm.
  assert (Hrem : hud_wf (removed l0 m this)) by by apply hud_wf_removed.
  assert (Hkeep : ∀ id l, markers this !! id = Some l -> ToString (arg_id marker) ≠ id ->
    markers (removed l0 m this) !! id = Some l).
  { intros id l Hid Hne. rewrite markers_removed, Hmid.
    by rewrite lookup_delete_ne. }
  destruct render; [|done]. split.
  - by apply hud_wf_updatePositions.
  - intros id l Hid Hne. rewrite markers_updatePositions. by apply Hkeep.
Qed.

Lemma forEach_removeMarker_wf keys : ∀ this,
  hud_wf this ->
  hud_wf (forEach keys (λ marker, removeMarker psv (ArgId marker) false) this).2.
Proof.
  induction keys as [|k keys IH]; intros this Hwf; [done|].
  cbn. unfold mbind, M_bind.
  pose proof (proj1 (removeMarker_inv (ArgId k) false this Hwf)) as Hwf1.
  destruct (removeMarker psv (ArgId k) false this) as [[[]|e] this1]; [|done].
  by apply IH.
Qed.

Lemma call_inv c this :
  hud_wf this ->
  hud_wf (call psv c this) /\
  ∀ id l, markers this !! id = Some l -> removes id c = false ->
    markers (call psv c this) !! id = Some l.
Proof.
  intros Hwf. destruct c as [properties render|marker| |input render|marker render|render
    |marker|marker|marker|marker| |e|e]; simpl.
  - (* addMarker *)
    rewrite addMarker_eq. destruct (negb _); [done|].
    destruct (bool_decide _) eqn:Hdup; [done|].
    apply bool_decide_eq_false in Hdup.
    assert (Hreg : hud_wf (registered properties this)) by by apply hud_wf_registered.
    assert (Hkeep : ∀ id l, markers this !! id = Some l ->
      markers (registered properties this) !! id = Some l).
    { intros id l Hid. rewrite markers_registered, lookup_insert_ne; [done|].
      intros <-. apply Hdup. by exists l. }
    destruct render; [|by split; [|auto]].
    pose proof (hud_wf_updatePositions _ Hreg) as Hwf'.
    pose proof (markers_updatePositions (registered properties this)) as Hm.
    destruct (updatePositions psv (registered properties this)) as [[[]|e] this']; simpl in *;
      (split; [done|]); intros id l Hid _; rewrite Hm; by apply Hkeep.
  - (* getMarker *)
    rewrite getMarker_eq. by destruct (markers this !! _).
  - (* getCurrentMarker *) done.
  - (* updateMarker *)
    rewrite updateMarker_eq.
    destruct (markers this !! ToString (arg_id input)) as [l0|] eqn:Hl0; [|done].
    destruct (store this !! l0) as [m|] eqn:Hm; [|done]. cbv zeta.
    set (m' := match input with ArgObject o => PSVMarker_update o m | ArgId _ => m end).
    assert (Hw : hud_wf (set_store (λ objects, <[l0 := m']> objects) this)).
    { eapply hud_wf_write; [done| |  |done].
      - unfold m'. by destruct input.
      - unfold m'. destruct input; [by eapply (proj2 Hwf)|done]. }
    destruct render; [|done].
    pose proof (hud_wf_updatePositions _ Hw) as Hwf'.
    pose proof (markers_updatePositions (set_store (λ objects, <[l0 := m']> objects) this)) as Hmk.
    destruct (updatePositions psv _) as [[[]|e] this']; simpl in *;
      (split; [done|]); intros id l Hid _; by rewrite Hmk.
  - (* removeMarker *)
    destruct (removeMarker_inv marker render this Hwf) as [H1 H2].
    split; [done|]. intros id l Hid Hrm. apply H2; [done|].
    by apply bool_decide_eq_false in Hrm.
  - (* clearMarkers *)
    split; [|done]. unfold clearMarkers. unfold mbind at 1. unfold M_bind at 1. unfold gets.
    unfold mbind, M_bind.
    pose proof (forEach_removeMarker_wf (map_to_list (markers this)).*1 this Hwf) as Hwf1.
    destruct (forEach _ _ this) as [[[]|e] this1]; [|done].
    destruct render; [|done]. by apply hud_wf_updatePositions.
  - (* gotoMarker *)
    unfold gotoMarker. unfold mbind, M_bind. rewrite getMarker_eq.
    by destruct (markers this !! _).
  - (* hideMarker *)
    unfold hideMarker. rewrite setVisible_eq.
    destruct (markers this !! ToString (arg_id marker)) as [l0|] eqn:Hl0; [|done].
    destruct (store this !! l0) as [m|] eqn:Hm; [|done].
    assert (Hw : hud_wf (set_store (λ objects, <[l0 := set_visible (JBool false) m]> objects) this))
      by by eapply hud_wf_write.
    split; [by apply hud_wf_updatePositions|].
    intros id l Hid _. by rewrite markers_updatePositions.
  - (* showMarker *)
    unfold showMarker. rewrite setVisible_eq.
    destruct (markers this !! ToString (arg_id marker)) as [l0|] eqn:Hl0; [|done].
    destruct (store this !! l0) as [m|] eqn:Hm; [|done].
    assert (Hw : hud_wf (set_store (λ objects, <[l0 := set_visible (JBool true) m]> objects) this))
      by by eapply hud_wf_write.
    split; [by apply hud_wf_updatePositions|].
    intros id l Hid _. by rewrite markers_updatePositions.
  - (* toggleMarker *)
    rewrite toggleMarker_eq.
    destruct (markers this !! ToString (arg_id marker)) as [l0|] eqn:Hl0; [|done].
    destruct (store this !! l0) as [m|] eqn:Hm; [|done].
    assert (Hw : hud_wf (set_store (λ objects,
        <[l0 := set_visible (js_xor (visible m) (JBool true)) m]> objects) this)).
    { eapply hud_wf_write; [done|done| |done]. simpl. apply flag_ok_xor.
      by eapply (proj2 Hwf). }
    split; [by apply hud_wf_updatePositions|].
    intros id l Hid _. by rewrite markers_updatePositions.
  - (* updatePositions *)
    split; [by apply hud_wf_updatePositions|].
    intros id l Hid _. by rewrite markers_updatePositions.
  - (* _onMouseEnter *)
    unfold _onMouseEnter. destruct (target_psvMarker e) as [l0|]; [|done].
    run_M. destruct (store this !! l0) as [m|]; [|done]. cbn.
    destruct (bool_decide _ && negb _); [|done]. cbn.
    by destruct (position2D m).
  - (* _onMouseLeave *)
    unfold _onMouseLeave. destruct (target_psvMarker e) as [l0|]; [|done].
    run_M. destruct (store this !! l0) as [m|]; [|done]. cbn.
    by destruct (isPolygon m && _).
Qed.

Lemma hud_wf_call c this : hud_wf this -> hud_wf (call psv c this).
Proof. intros. by apply call_inv. Qed.
End Calls.

Lemma run_inv calls : ∀ this,
  hud_wf this ->
  hud_wf (run calls this) /\
  ∀ id l, markers this !! id = Some l ->
    Forall (λ c : PhotoSphereViewer * Call, removes id c.2 = false) calls ->
    markers (run calls this) !! id = Some l.
Proof.
  induction calls as [|[psv c] calls IH]; intros this Hwf; [done|].
  simpl. destruct (call_inv psv c this Hwf) as [Hwf1 Hkeep1].
  destruct (IH _ Hwf1) as [Hwf2 Hkeep2]. split; [done|].
  intros id l Hid Hcalls. apply Forall_cons in Hcalls as [Hc Hcalls].
  apply Hkeep2; [|done]. by apply Hkeep1.
Qed.


Section Keys.
Variable psv : PhotoSphereViewer.

Lemma removeMarker_markers marker render this id l :
  markers (removeMarker psv marker render this).2 !! id = Some l ->
  markers this !! id = Some l.
Proof.
  rewrite removeMarker_eq.
  destruct (markers this !! ToString (arg_id marker)) as [l0|]; [|done].
  destruct (store this !! l0) as [m|]; [|done].
  assert (markers (removed l0 m this) !! id = Some l -> markers this !! id = Some l) as Hrem.
  { rewrite markers_removed. intros H. by apply lookup_delete_Some in H as [_ H]. }
  destruct render; [|done]. by rewrite markers_updatePositions.
Qed.

Lemma forEach_removeMarker_markers keys : ∀ this id l,
  markers (forEach keys (λ marker, removeMarker psv (ArgId marker) false) this).2 !! id
    = Some l ->
  markers this !! id = Some l.
Proof.
  induction keys as [|k keys IH]; intros this id l; [done|].
  cbn. unfold mbind, M_bind.
  pose proof (removeMarker_markers (ArgId k) false this id l) as Hrem.
  destruct (removeMarker psv (ArgId k) false this) as [[[]|e] this1]; [|done].
  intros H. by apply Hrem, IH.
Qed.

(** A call adds no key to the registry, except [addMarker] the truthy id
    of its properties. *)
Lemma call_markers c this id l :
  markers (call psv c this) !! id = Some l ->
  markers this !! id = Some l \/ id_truthy (Some id) = true.
Proof.
  destruct c as [properties render|marker| |input render|marker render|render
    |marker|marker|marker|marker| |e|e]; simpl.
  - (* addMarker *)
    rewrite addMarker_eq. destruct (id_truthy (p_id properties)) eqn:Hid; [|by left].
    simpl. destruct (bool_decide _); [by left|].
    assert (markers (registered properties this) !! id = Some l ->
      markers this !! id = Some l \/ id_truthy (Some id) = true) as Hreg.
    { rewrite markers_registered. intros H.
      apply lookup_insert_Some in H as [[<- _]|[_ H]]; [right|by left].
      by destruct (p_id properties). }
    destruct render; [|done].
    pose proof (markers_updatePositions psv (registered properties this)) as Hm.
    destruct (updatePositions psv (registered properties this)) as [[[]|e] this'];
      simpl in *; by rewrite Hm.
  - rewrite getMarker_eq. destruct (markers this !! _); by left.
  - by left.
  - rewrite updateMarker_eq.
    destruct (markers this !! ToString (arg_id input)) as [l0|]; [|by left].
    destruct (store this !! l0) as [m|]; [|by left]. cbv zeta.
    destruct render; [|by left].
    match goal with |- context [updatePositions psv ?t] =>
      pose proof (markers_updatePositions psv t) as Hm;
      destruct (updatePositions psv t) as [[[]|e] this'] end;
      simpl in *; rewrite Hm; by left.
  - intros H. left. by eapply removeMarker_markers.
  - unfold clearMarkers. unfold mbind at 1. unfold M_bind at 1. unfold gets.
    unfold mbind, M_bind.
    pose proof (forEach_removeMarker_markers (map_to_list (markers this)).*1 this id l) as Hf.
    destruct (forEach _ _ this) as [[[]|e] this1]; [|by left; apply Hf].
    destruct render; [|by left; apply Hf].
    rewrite markers_updatePositions. by left; apply Hf.
  - unfold gotoMarker. unfold mbind, M_bind. rewrite getMarker_eq.
    destruct (markers this !! _); by left.
  - unfold hideMarker. rewrite setVisible_eq.
    destruct (markers this !! ToString (arg_id marker)) as [l0|]; [|by left].
    destruct (store this !! l0) as [m|]; [|by left].
    rewrite markers_updatePositions. by left.
  - unfold showMarker. rewrite setVisible_eq.
    destruct (markers this !! ToString (arg_id marker)) as [l0|]; [|by left].
    destruct (store this !! l0) as [m|]; [|by left].
    rewrite markers_updatePositions. by left.
  - rewrite toggleMarker_eq.
    destruct (markers this !! ToString (arg_id marker)) as [l0|]; [|by left].
    destruct (store this !! l0) as [m|]; [|by left].
    rewrite markers_updatePositions. by left.
  - rewrite markers_updatePositions. by left.
  - unfold _onMouseEnter. destruct (target_psvMarker e) as [l0|]; [|by left].
    run_M. destruct (store this !! l0) as [m|]; [|by left]. cbn.
    destruct (bool_decide _ && negb _); [|by left]. cbn.
    destruct (position2D m); by left.
  - unfold _onMouseLeave. destruct (target_psvMarker e) as [l0|]; [|by left].
    run_M. destruct (store this !! l0) as [m|]; [|by left]. cbn.
    destruct (isPolygon m && _); by left.
Qed.
End Keys.

(** The ids of a registry that the HUD reaches are truthy. *)
Lemma keys_truthy_run calls : ∀ this,
  keys_truthy this -> keys_truthy (run calls this).
Proof.
  induction calls as [|[psv c] calls IH]; intros this Hkeys; [done|].
  simpl. apply IH. intros id l H.
  apply call_markers in H as [H|H]; [by eapply Hkeys|done].
Qed.

Lemma keys_truthy_new : keys_truthy new_PSVHUD.
Proof. intros id l H. simpl in H. by rewrite lookup_empty in H. Qed.

(** In such a registry, the id of a marker that is present is an id for
    [addMarker]. *)
Lemma present_id_truthy this properties id :
  keys_truthy this ->
  p_id properties = Some id ->
  is_Some (markers this !! id) ->
  id_truthy (p_id properties) = true /\
  is_Some (markers this !! ToString (p_id properties)).
Proof. intros Hkeys -> [l Hl]. split; [by eapply Hkeys|by exists l]. Qed.

(** The invariants hold in every state the HUD reaches. *)
Lemma hud_wf_run calls : hud_wf (run calls new_PSVHUD).
Proof. apply run_inv, hud_wf_new. Qed.

Lemma hud_wf_refs_valid this : hud_wf this -> refs_valid this.
Proof. intros [Hreg _] id l Hl. destruct (Hreg id l Hl) as (m & Hm & _). eauto. Qed.

(** ** Claims on the registry *)

(** C3.  When the properties have an id and this id is already in the
    registry, [addMarker] throws "marker ... already exists" and the HUD,
    registry included, is as it was before the call.  Both listings of
    [addMarker] agree on this. *)
Theorem addMarker_duplicate (psv : PhotoSphereViewer) (properties : Properties)
    (render : bool) (this : PSVHUD) :
  id_truthy (p_id properties) = true ->
  is_Some (markers this !! ToString (p_id properties)) ->
  addMarker psv properties render this = (Throw (already_exists (p_id properties)), this) /\
  Earlier.addMarker psv properties render this
    = (Throw (already_exists (p_id properties)), this).
Proof.
  intros Hid Hdup. rewrite addMarker_eq, Earlier_addMarker_eq, Hid. simpl.
  by rewrite bool_decide_eq_true_2.
Qed.

Lemma addMarker_duplicate_witness :
  let this := (addMarker Scenario.viewer Examples.front true new_PSVHUD).2 in
  addMarker Scenario.viewer Examples.front true this
    = (Throw (already_exists (Some "front")), this) /\
  Earlier.addMarker Scenario.viewer Examples.front true this
    = (Throw (already_exists (Some "front")), this).
Proof.
  apply (addMarker_duplicate Scenario.viewer Examples.front true).
  - reflexivity.
  - vm_compute. eauto.
Defined.

Lemma addMarker_Normal psv properties render this marker this1 :
  hud_wf this ->
  addMarker psv properties render this = (Normal marker, this1) ->
  id_truthy (p_id properties) = true /\
  markers this !! ToString (p_id properties) = None /\
  marker = length (store this) /\
  markers this1 !! ToString (p_id properties) = Some marker /\
  hud_wf this1 /\
  frame (registered properties this) this1.
Proof.
  intros Hwf. rewrite addMarker_eq.
  destruct (id_truthy (p_id properties)); [|done]. simpl.
  destruct (bool_decide _) eqn:Hdup; [done|].
  apply bool_decide_eq_false in Hdup.
  assert (markers this !! ToString (p_id properties) = None) as Hnone.
  { destruct (markers this !! _); [|done]. destruct Hdup. eauto. }
  pose proof (hud_wf_registered properties this Hwf) as Hreg.
  assert (markers (registered properties this) !! ToString (p_id properties)
          = Some (length (store this))) as Hnew
    by by rewrite markers_registered, lookup_insert_eq.
  destruct render.
  - pose proof (updatePositions_frame psv (registered properties this)) as Hf.
    destruct (updatePositions psv (registered properties this)) as [[[]|e] this'];
      [|done]. intros [= <- <-]. simpl in Hf. split_and!; try done.
    + by rewrite (frame_markers _ _ Hf).
    + by eapply hud_wf_frame.
  - intros [= <- <-]. split_and!; try done. apply frame_refl.
Qed.

Lemma registered_until_removed psv properties render this this1 marker calls :
  hud_wf this ->
  addMarker psv properties render this = (Normal marker, this1) ->
  Forall (λ c : PhotoSphereViewer * Call,
            removes (ToString (p_id properties)) c.2 = false) calls ->
  markers (run calls this1) !! ToString (p_id properties) = Some marker /\
  ∀ psv' render' arg, ToString (arg_id arg) = ToString (p_id properties) ->
    markers (removeMarker psv' arg render' (run calls this1)).2
      !! ToString (p_id properties) = None.
Proof.
  intros Hwf Hadd Hcalls.
  destruct (addMarker_Normal _ _ _ _ _ _ Hwf Hadd) as (_ & _ & _ & Hreg & Hwf1 & _).
  destruct (run_inv calls this1 Hwf1) as [Hwf2 Hkeep].
  specialize (Hkeep _ _ Hreg Hcalls). split; [done|].
  intros psv' render' arg Harg.
  rewrite removeMarker_eq, Harg, Hkeep.
  destruct (proj1 Hwf2 _ _ Hkeep) as (m & -> & Hmid).
  assert (markers (removed marker m (run calls this1)) !! ToString (p_id properties) = None)
    by by rewrite markers_removed, Hmid, lookup_delete_eq.
  destruct render'; [|done]. by rewrite markers_updatePositions.
Qed.

(** C4.  After [addMarker] has returned a marker for a fresh id, and after
    any sequence of calls none of which removes this id ([removeMarker] on
    it, or [clearMarkers]), [getMarker] with this id returns the same
    reference, whether the id is given as such or in an object.  Once
    [removeMarker] has been called with this id, given as such or in an
    object, [getMarker] with it throws "cannot find marker ...".  The
    calls name no marker by a name inherited from [Object.prototype], and
    before each of them the element of every registered marker is on the
    surface of its kind. *)
Theorem getMarker_until_removed (psv : PhotoSphereViewer) (properties : Properties)
    (render : bool) (this this1 : PSVHUD) (marker : nat) (id : string)
    (calls : list (PhotoSphereViewer * Call)) :
  hud_wf this ->
  p_id properties = Some id ->
  inherited id = false ->
  addMarker psv properties render this = (Normal marker, this1) ->
  Forall (λ c : PhotoSphereViewer * Call, removes id c.2 = false) calls ->
  Forall (λ c : PhotoSphereViewer * Call, names_inherited c.2 = false) calls ->
  attached_along calls this1 = true ->
  let this2 := run calls this1 in
  (getMarker (ArgId id) this2 = (Normal marker, this2) /\
   ∀ o, ToString (p_id o) = id ->
     getMarker (ArgObject o) this2 = (Normal marker, this2)) /\
  (∀ psv' render' o this3,
     ToString (p_id o) = id ->
     this3 = (removeMarker psv' (ArgId id) render' this2).2 \/
     this3 = (removeMarker psv' (ArgObject o) render' this2).2 ->
     getMarker (ArgId id) this3 = (Throw (cannot_find (Some id)), this3) /\
     ∀ o', ToString (p_id o') = id ->
       getMarker (ArgObject o') this3 = (Throw (cannot_find (p_id o')), this3)).
Proof.
  intros Hwf Hid _ Hadd Hcalls _ _ this2.
  assert (Hprop : ToString (p_id properties) = id) by by rewrite Hid.
  rewrite <- Hprop in Hcalls.
  destruct (registered_until_removed psv properties render this this1 marker calls
              Hwf Hadd Hcalls) as [Hkept Hgone].
  rewrite Hprop in Hkept, Hgone. fold this2 in Hkept, Hgone. split.
  - split.
    + rewrite getMarker_eq. simpl. by rewrite Hkept.
    + intros o Ho. rewrite getMarker_eq. simpl. by rewrite Ho, Hkept.
  - intros psv' render' o this3 Ho Hthis3.
    assert (Hnone : markers this3 !! id = None).
    { destruct Hthis3 as [-> | ->]; by apply Hgone. }
    split.
    + rewrite getMarker_eq. simpl. by rewrite Hnone.
    + intros o' Ho'. rewrite getMarker_eq. simpl. by rewrite Ho', Hnone.
Qed.

Lemma getMarker_until_removed_witness :
  let this2 := run [(Scenario.viewer, AddMarker Examples.back true);
                    (Scenario.viewer, ToggleMarker (ArgId "front"));
                    (Scenario.viewer, RemoveMarker (ArgId "back") true)]
                 (addMarker Scenario.viewer Examples.front true new_PSVHUD).2 in
  (getMarker (ArgId "front") this2 = (Normal 0, this2) /\
   ∀ o, ToString (p_id o) = "front" ->
     getMarker (ArgObject o) this2 = (Normal 0, this2)) /\
  (∀ psv' render' o this3,
     ToString (p_id o) = "front" ->
     this3 = (removeMarker psv' (ArgId "front") render' this2).2 \/
     this3 = (removeMarker psv' (ArgObject o) render' this2).2 ->
     getMarker (ArgId "front") this3 = (Throw (cannot_find (Some "front")), this3) /\
     ∀ o', ToString (p_id o') = "front" ->
       getMarker (ArgObject o') this3 = (Throw (cannot_find (p_id o')), this3)).
Proof.
  apply (getMarker_until_removed Scenario.viewer Examples.front true new_PSVHUD
           (addMarker Scenario.viewer Examples.front true new_PSVHUD).2 0 "front").
  - apply hud_wf_new.
  - reflexivity.
  - vm_compute. reflexivity.
  - vm_compute. reflexivity.
  - repeat constructor.
  - repeat constructor.
  - vm_compute. reflexivity.
Defined.

(** In the second listing (lines 600-625), the reference returned by
    [addMarker] is the one registered under the id, and it refers to the
    marker built from the properties. *)
Lemma addMarker_returns_marker psv properties render this marker this1 :
  hud_wf this ->
  addMarker psv properties render this = (Normal marker, this1) ->
  getMarker (ArgId (ToString (p_id properties))) this1 = (Normal marker, this1) /\
  ∃ m, store this1 !! marker = Some m /\
    same_marker (new_PSVMarker (ToString (p_id properties)) properties) m.
Proof.
  intros Hwf Hadd.
  destruct (addMarker_Normal _ _ _ _ _ _ Hwf Hadd) as (_ & _ & -> & Hreg & _ & Hf).
  split; [by rewrite getMarker_eq; simpl; rewrite Hreg|].
  apply (frame_store _ _ Hf). rewrite store_registered.
  by rewrite lookup_app_r, Nat.sub_diag.
Qed.

(** [addMarker] returns, for properties with a fresh id, when the polygons
    of the HUD and the new marker have as many vectors as pairs. *)
Lemma addMarker_total psv properties render this :
  id_truthy (p_id properties) = true ->
  markers this !! ToString (p_id properties) = None ->
  hud_wf this ->
  Forall marker_wf (store this) ->
  marker_wf (new_PSVMarker (ToString (p_id properties)) properties) ->
  ∃ marker this1, addMarker psv properties render this = (Normal marker, this1).
Proof.
  intros Hid Hnew Hwf Hpoly Hm. rewrite addMarker_eq, Hid. simpl.
  rewrite bool_decide_eq_false_2 by (rewrite Hnew; by intros [? ?]).
  destruct render; [|eauto].
  destruct (updatePositions_total psv (registered properties this)) as [this1 ->]; [..|eauto].
  - by apply hud_wf_refs_valid, hud_wf_registered.
  - rewrite store_registered. apply Forall_app. split; [done|by constructor].
Qed.

(** In the first listing (lines 97-120), no call of [addMarker] returns a
    marker. *)
Lemma Earlier_addMarker_no_marker psv properties render this marker :
  (Earlier.addMarker psv properties render this).1 ≠ Normal (Some marker).
Proof.
  rewrite Earlier_addMarker_eq. destruct (negb _); [done|].
  destruct (bool_decide _); [done|]. destruct render; [|done].
  by destruct (Earlier.updatePositions psv _) as [[[]|] ?].
Qed.

(** C5.  On the empty HUD, with the properties of a marker "front", the
    [addMarker] of the first listing registers the marker ([getMarker]
    finds it) and returns [undefined], although its documentation says
    [@returns {PSVMarker}]; the [addMarker] of the second listing returns
    the marker. *)
Theorem Earlier_addMarker_returns_undefined :
  let result := Earlier.addMarker Scenario.viewer Examples.front false new_PSVHUD in
  result.1 = Normal undefined /\
  (getMarker (ArgId "front") result.2).1 = Normal 0 /\
  (addMarker Scenario.viewer Examples.front false new_PSVHUD).1 = Normal 0.
Proof. vm_compute. done. Qed.

(** [removeMarker] never writes [this.hoveringMarker]. *)
Lemma removeMarker_hoveringMarker psv marker render this :
  hoveringMarker (removeMarker psv marker render this).2 = hoveringMarker this.
Proof.
  rewrite removeMarker_eq. destruct (markers this !! _) as [l|]; [|done].
  destruct (store this !! l) as [m|]; [|done].
  assert (hoveringMarker (removed l m this) = hoveringMarker this) as Hrem.
  { unfold removed. simpl. destruct (isNormal m); simpl; by destruct (bool_decide _). }
  destruct render; [|done].
  by rewrite (frame_hoveringMarker _ _ (updatePositions_frame psv _)).
Qed.

Lemma _onMouseLeave_hoveringMarker e marker m this :
  target_psvMarker e = Some marker ->
  store this !! marker = Some m ->
  isPolygon m = false ->
  hoveringMarker (_onMouseLeave e this).2 = None /\
  tooltip_shown (_onMouseLeave e this).2 = false.
Proof.
  intros He Hm Hpoly. unfold _onMouseLeave. rewrite He. run_M. rewrite Hm. cbn.
  by rewrite Hpoly.
Qed.

(** C9.  A point marker "front" with a tooltip is added and the mouse
    enters it: it is the hovering marker and its tooltip is shown.
    [removeMarker] then hides the tooltip, detaches the element and
    deletes the marker from the registry, and [this.hoveringMarker] still
    refers to the removed marker.  [_onMouseLeave], in the same state,
    resets [this.hoveringMarker] to null. *)
Theorem removeMarker_keeps_hoveringMarker :
  let this0 := (addMarker Scenario.viewer Examples.front true new_PSVHUD).2 in
  let this1 := (_onMouseEnter (Examples.enter 0) this0).2 in
  let this2 := (removeMarker Scenario.viewer (ArgId "front") true this1).2 in
  (hoveringMarker this1 = Some 0 /\ tooltip_shown this1 = true) /\
  (hoveringMarker this2 = Some 0 /\ tooltip_shown this2 = false /\
   markers this2 !! "front" = None /\ container this2 = []) /\
  hoveringMarker (_onMouseLeave (Examples.enter 0) this1).2 = None.
Proof. vm_compute. done. Qed.

(** One call of [toggleMarker] on a registered marker, in either
    listing. *)
Lemma toggle_visible (update : M unit) marker this l m :
  (∀ this, frame this (update this).2) ->
  markers this !! ToString (arg_id marker) = Some l ->
  store this !! l = Some m ->
  flag_ok (visible m) ->
  let this1 :=
    (update (set_store (λ objects,
       <[l := set_visible (js_xor (visible m) (JBool true)) m]> objects) this)).2 in
  markers this1 !! ToString (arg_id marker) = Some l /\
  ∃ m1, store this1 !! l = Some m1 /\
    visible m1 = JInt (if truthy (visible m) then 0 else 1).
Proof.
  intros Hframe Hl Hm Hflag this1.
  set (this' := set_store _ this) in this1.
  pose proof (Hframe this') as Hf. fold this1 in Hf.
  split; [by rewrite (frame_markers _ _ Hf)|].
  destruct (frame_store _ _ Hf l (set_visible (js_xor (visible m) (JBool true)) m))
    as (m1 & Hm1 & _ & Hvis & _).
  { simpl. apply list_lookup_insert_eq. by eapply lookup_lt_Some. }
  exists m1. split; [done|]. rewrite Hvis. simpl. by apply js_xor_true.
Qed.

Lemma toggleMarker_visible psv marker this l m :
  markers this !! ToString (arg_id marker) = Some l ->
  store this !! l = Some m ->
  flag_ok (visible m) ->
  let this1 := (toggleMarker psv marker this).2 in
  markers this1 !! ToString (arg_id marker) = Some l /\
  ∃ m1, store this1 !! l = Some m1 /\
    visible m1 = JInt (if truthy (visible m) then 0 else 1).
Proof.
  intros Hl Hm Hflag. cbv zeta. rewrite toggleMarker_eq, Hl, Hm.
  apply (toggle_visible (updatePositions psv)); try done.
  apply updatePositions_frame.
Qed.

Lemma Earlier_toggleMarker_visible psv marker this l m :
  markers this !! ToString (arg_id marker) = Some l ->
  store this !! l = Some m ->
  flag_ok (visible m) ->
  let this1 := (Earlier.toggleMarker psv marker this).2 in
  markers this1 !! ToString (arg_id marker) = Some l /\
  ∃ m1, store this1 !! l = Some m1 /\
    visible m1 = JInt (if truthy (visible m) then 0 else 1).
Proof.
  intros Hl Hm Hflag. cbv zeta. rewrite Earlier_toggleMarker_eq, Hl, Hm.
  apply (toggle_visible (Earlier.updatePositions psv)); try done.
  apply Earlier_updatePositions_frame.
Qed.

Lemma flag_ok_bit (b : bool) : flag_ok (JInt (if b then 0 else 1)).
Proof. destruct b; simpl; auto. Qed.

(** C10.  For a registered marker whose [visible] flag is a boolean, or
    the 0 or 1 left by an earlier toggle, one call of [toggleMarker] leaves
    the number 0 or 1 in [visible], of the opposite truthiness, and a
    second call restores the truthiness of the original flag.  This holds
    for the [toggleMarker] of both listings. *)
Theorem toggleMarker_twice (psv psv' : PhotoSphereViewer) (marker : MarkerArg)
    (this : PSVHUD) (l : nat) (m : Marker) :
  markers this !! ToString (arg_id marker) = Some l ->
  store this !! l = Some m ->
  flag_ok (visible m) ->
  toggled_twice
    (toggleMarker psv marker this).2
    (toggleMarker psv' marker (toggleMarker psv marker this).2).2 l m /\
  toggled_twice
    (Earlier.toggleMarker psv marker this).2
    (Earlier.toggleMarker psv' marker (Earlier.toggleMarker psv marker this).2).2 l m.
Proof.
  intros Hl Hm Hflag. split.
  - destruct (toggleMarker_visible psv marker this l m Hl Hm Hflag)
      as (Hl1 & m1 & Hm1 & Hvis1).
    destruct (toggleMarker_visible psv' marker _ l m1 Hl1 Hm1)
      as (_ & m2 & Hm2 & Hvis2); [rewrite Hvis1; apply flag_ok_bit|].
    exists m1, m2. rewrite Hvis1 in Hvis2. rewrite Hvis1, Hvis2.
    split_and!; try done; by destruct (truthy (visible m)).
  - destruct (Earlier_toggleMarker_visible psv marker this l m Hl Hm Hflag)
      as (Hl1 & m1 & Hm1 & Hvis1).
    destruct (Earlier_toggleMarker_visible psv' marker _ l m1 Hl1 Hm1)
      as (_ & m2 & Hm2 & Hvis2); [rewrite Hvis1; apply flag_ok_bit|].
    exists m1, m2. rewrite Hvis1 in Hvis2. rewrite Hvis1, Hvis2.
    split_and!; try done; by destruct (truthy (visible m)).
Qed.

Lemma toggleMarker_twice_witness :
  toggled_twice
    (toggleMarker Scenario.viewer (ArgId "front")
       (addMarker Scenario.viewer Examples.front false new_PSVHUD).2).2
    (toggleMarker Scenario.viewer (ArgId "front")
       (toggleMarker Scenario.viewer (ArgId "front")
          (addMarker Scenario.viewer Examples.front false new_PSVHUD).2).2).2
    0 (new_PSVMarker "front" Examples.front) /\
  toggled_twice
    (Earlier.toggleMarker Scenario.viewer (ArgId "front")
       (addMarker Scenario.viewer Examples.front false new_PSVHUD).2).2
    (Earlier.toggleMarker Scenario.viewer (ArgId "front")
       (Earlier.toggleMarker Scenario.viewer (ArgId "front")
          (addMarker Scenario.viewer Examples.front false new_PSVHUD).2).2).2
    0 (new_PSVMarker "front" Examples.front).
Proof.
  apply (toggleMarker_twice Scenario.viewer Scenario.viewer (ArgId "front")
           (addMarker Scenario.viewer Examples.front false new_PSVHUD).2 0
           (new_PSVMarker "front" Examples.front)).
  - vm_compute. reflexivity.
  - vm_compute. reflexivity.
  - simpl. exact I.
Defined.

(** ** Claims on the projection pass *)

(** C6.  A vertex [[lat, lon]] passes the inclusion test exactly when
    [latitude1 < lat < latitude2] and, if [longitude1 > longitude2] (the
    window crosses the origin), [lon > longitude1] or [lon < longitude2],
    and otherwise [longitude1 < lon < longitude2]. *)
Theorem vertexVisible_spec (b : FovBounds) (lat lon : float) :
  truthy (vertexVisible b (lat, lon)) = true <->
  (flt (latitude1 b) lat /\ flt lat (latitude2 b)) /\
  (if wraps b
   then flt (longitude1 b) lon \/ flt lon (longitude2 b)
   else flt (longitude1 b) lon /\ flt lon (longitude2 b)).
Proof.
  unfold vertexVisible, wraps, flt, js_and, js_or. simpl.
  destruct (PrimFloat.ltb (latitude1 b) lat), (PrimFloat.ltb lat (latitude2 b)),
    (PrimFloat.ltb (longitude2 b) (longitude1 b)),
    (PrimFloat.ltb (longitude1 b) lon), (PrimFloat.ltb lon (longitude2 b));
    simpl; intuition congruence.
Qed.

(** C7.  For a polygon with as many vectors as [[latitude, longitude]]
    pairs, all of whose vertices pass the inclusion test against the
    current bounds, [_getPolygonPositions] returns the projections of the
    vectors of the marker, in their order: as many points as vertices. *)
Theorem getPolygonPositions_all_visible (psv : PhotoSphereViewer) (this : PSVHUD)
    (marker : Marker) (b : FovBounds)
    (positions3D : list Vector3) (polygon_rad : list (float * float)) :
  geometry marker = Polygon positions3D polygon_rad ->
  length positions3D = length polygon_rad ->
  prop_fovBounds this = Some b ->
  Forall (λ pos, truthy (vertexVisible b pos) = true) polygon_rad ->
  ∃ positions,
    _getPolygonPositions psv this marker = Normal positions /\
    positions = map (vector3ToViewerCoords psv) positions3D /\
    length positions = length positions3D.
Proof.
  intros Hgeo Hlen Hb Hvis. exists (map (vector3ToViewerCoords psv) positions3D).
  split_and!; [|done|by rewrite length_map].
  unfold _getPolygonPositions, polygonArrays. rewrite Hgeo. cbn. rewrite Hb.
  by apply polygonPositions_all_visible.
Qed.

Lemma getPolygonPositions_all_visible_witness :
  ∃ positions,
    _getPolygonPositions Scenario.viewer (updatePositions Scenario.viewer new_PSVHUD).2
      (new_PSVMarker "inside" Examples.inside) = Normal positions /\
    positions = map (vector3ToViewerCoords Scenario.viewer)
                  [Scenario.sphericalToVector 0.1 0.1;
                   Scenario.sphericalToVector 0.2 (-0.1);
                   Scenario.sphericalToVector 6.2 0.2] /\
    length positions = length [Scenario.sphericalToVector 0.1 0.1;
                               Scenario.sphericalToVector 0.2 (-0.1);
                               Scenario.sphericalToVector 6.2 0.2].
Proof.
  apply (getPolygonPositions_all_visible Scenario.viewer
           (updatePositions Scenario.viewer new_PSVHUD).2
           (new_PSVMarker "inside" Examples.inside)
           (fovBounds_of Scenario.viewer)
           [Scenario.sphericalToVector 0.1 0.1;
            Scenario.sphericalToVector 0.2 (-0.1);
            Scenario.sphericalToVector 6.2 0.2]
           [(0.1, 0.1); (-0.1, 0.2); (0.2, 6.2)]%float).
  - reflexivity.
  - reflexivity.
  - vm_compute; reflexivity.
  - repeat constructor; vm_compute; reflexivity.
Defined.

(** C8.  For a registered point marker whose vector has a negative dot
    product with the direction of the camera, [_isMarkerVisible] returns a
    falsy value for every position on the screen ([false] itself when the
    marker's [visible] flag is set), and the pass ends with [position2D]
    null and the class [visible] removed.  The pass ends without exception
    when the registry refers to markers and every polygon has as many
    vectors as pairs. *)
Theorem point_marker_behind_camera (psv : PhotoSphereViewer) (this : PSVHUD)
    (id : string) (l : nat) (m : Marker) (p : Vector3) :
  refs_valid this ->
  Forall marker_wf (store this) ->
  markers this !! id = Some l ->
  store this !! l = Some m ->
  geometry m = Point p ->
  PrimFloat.ltb (THREE.dot p (prop_direction psv)) 0 = true ->
  (∀ position, ∃ v,
     _isMarkerVisible psv m position = Normal v /\ truthy v = false /\
     (truthy (visible m) = true -> v = JBool false)) /\
  ∃ this' m',
    updatePositions psv this = (Normal tt, this') /\
    store this' !! l = Some m' /\
    position2D m' = None /\
    classList_visible (el m') = false.
Proof.
  intros Hrefs Hwf Hid Hl Hgeo Hdot. split.
  - intros position. by apply (_isMarkerVisible_behind psv m p).
  - destruct (updatePositions_total psv this Hrefs Hwf) as [this' Hrun].
    destruct (updatePositions_visit psv (λ m, geometry m = Point p)
      (λ m, position2D m = None /\ classList_visible (el m) = false)
      this this' id l m) as (m' & Hm' & _ & Hpos & Hcls); try done.
    + intros this0 m0 m0' _ Hgeo0 Hm0.
      destruct (updatePosition_behind psv this0 (rotation_of psv) m0 p Hgeo0 Hdot)
        as (m1 & Hm1 & Hpos1 & Hcls1).
      rewrite Hm1 in Hm0. injection Hm0 as <-. split; [|done].
      apply updatePosition_same in Hm1 as (_ & _ & -> & _). done.
    + by exists this', m'.
Qed.

Lemma point_marker_behind_camera_witness :
  (∀ position, ∃ v,
     _isMarkerVisible Scenario.viewer (new_PSVMarker "back" Examples.back) position
       = Normal v /\ truthy v = false /\
     (truthy (visible (new_PSVMarker "back" Examples.back)) = true -> v = JBool false)) /\
  ∃ this' m',
    updatePositions Scenario.viewer
      (addMarker Scenario.viewer Examples.back false new_PSVHUD).2 = (Normal tt, this') /\
    store this' !! 0 = Some m' /\
    position2D m' = None /\
    classList_visible (el m') = false.
Proof.
  apply (point_marker_behind_camera Scenario.viewer
           (addMarker Scenario.viewer Examples.back false new_PSVHUD).2
           "back" 0 (new_PSVMarker "back" Examples.back)
           (Scenario.sphericalToVector Math_PI 0)).
  - apply hud_wf_refs_valid, (hud_wf_call Scenario.viewer (AddMarker Examples.back false)),
      hud_wf_new.
  - (vm_compute; repeat constructor).
  - (vm_compute; reflexivity).
  - (vm_compute; reflexivity).
  - reflexivity.
  - (vm_compute; reflexivity).
Defined.

(** The test written after [return true;], which is the
    [_isPolygonVisible] of the first listing, is false on an empty list
    of positions. *)
Lemma Earlier_isPolygonVisible_nil psv marker positions3D polygon_rad :
  geometry marker = Polygon positions3D polygon_rad ->
  ∃ v, Earlier._isPolygonVisible psv marker [] = Normal v /\ truthy v = false.
Proof.
  intros Hgeo. unfold Earlier._isPolygonVisible, polygonArrays. rewrite Hgeo.
  destruct (truthy (visible marker)) eqn:Hvis; cbn; eauto.
Qed.

(** C1.  Camera at longitude 0 and latitude 0; a polygon "outside" around
    longitude 3, none of whose vertices passes the inclusion test.  The
    pass ends normally, the clipped list of the polygon is empty, and the
    marker is given the position [{top: Infinity, left: Infinity}] and the
    class [visible] instead of a null [position2D]. *)
Theorem invisible_polygon_marked_visible :
  let this := (addMarker Scenario.viewer Examples.outside false new_PSVHUD).2 in
  let result := updatePositions Scenario.viewer this in
  Forall (λ pos, truthy (vertexVisible (fovBounds_of Scenario.viewer) pos) = false)
    [(0.1, 3); (-0.1, 3); (0, 3.2)]%float /\
  result.1 = Normal tt /\
  _getPolygonPositions Scenario.viewer result.2 (new_PSVMarker "outside" Examples.outside)
    = Normal [] /\
  position2D <$> store result.2 !! 0
    = Some (Some {| top := infinity; left := infinity |}) /\
  classList_visible ∘ el <$> store result.2 !! 0 = Some true.
Proof.
  split; [repeat constructor; vm_compute; reflexivity|].
  vm_compute. split_and!; reflexivity.
Qed.

(** C2.  Camera at longitude 0 and latitude 0, horizontal field of view
    of 90 degrees.  The vertex at longitude 0.2 on the equator is in the
    field of view, the vertex at longitude 1.2 on the equator is not.  For
    this pair [_computeIntermediaryPoint] returns the point [C] found
    against the first side of the frustum (its upper edge), although the
    distances from [C] to the two vertices add up to more than 0.7 radians
    over the distance between the vertices: [C] is not on the edge between
    them. *)
Theorem intersection_accepted_off_segment :
  let b := fovBounds_of Scenario.viewer in
  let frustrumPoints := frustrumPoints_of Scenario.viewer b in
  let sph := Scenario.vectorToSpherical in
  let distance := arcDistance Scenario.viewer in
  (truthy (vertexVisible b (0, 0.2)%float) = true /\
   truthy (vertexVisible b (0, 1.2)%float) = false) /\
  match _computeIntermediaryPoint Scenario.viewer frustrumPoints
          (Some Examples.P1) (Some Examples.P2) with
  | Normal (Some C) =>
      _computeArcIntersection2 Scenario.viewer (Some Examples.P1) (Some Examples.P2)
        (frustrumPoints !! 0) (frustrumPoints !! 1) = Normal (Some C) /\
      PrimFloat.ltb
        (distance (sph Examples.P1) (sph Examples.P2) + 0.7)%js
        (distance (sph C) (sph Examples.P1) + distance (sph C) (sph Examples.P2))%js = true
  | _ => False
  end.
Proof. vm_compute. split_and!; reflexivity. Qed.

(** * Further properties *)

(** ** Errors of the registry *)

(** X1.  When no marker is registered under the id that is given, as such
    or in an object, and the id is not a name inherited from
    [Object.prototype], [getMarker], [updateMarker], [removeMarker],
    [gotoMarker], [hideMarker], [showMarker] and [toggleMarker] (of either
    listing) throw "cannot find marker ..." and leave the HUD as it was:
    nothing is written and no pass is run. *)
Theorem unknown_marker (psv : PhotoSphereViewer) (marker : MarkerArg) (render : bool)
    (this : PSVHUD) :
  inherited (ToString (arg_id marker)) = false ->
  markers this !! ToString (arg_id marker) = None ->
  throws (cannot_find (arg_id marker)) this (getMarker marker this) /\
  throws (cannot_find (arg_id marker)) this (updateMarker psv marker render this) /\
  throws (cannot_find (arg_id marker)) this (removeMarker psv marker render this) /\
  throws (cannot_find (arg_id marker)) this (gotoMarker marker this) /\
  throws (cannot_find (arg_id marker)) this (hideMarker psv marker this) /\
  throws (cannot_find (arg_id marker)) this (showMarker psv marker this) /\
  throws (cannot_find (arg_id marker)) this (toggleMarker psv marker this) /\
  throws (cannot_find (arg_id marker)) this (Earlier.toggleMarker psv marker this).
Proof.
  intros _ Hnone. unfold throws.
  rewrite getMarker_eq, updateMarker_eq, removeMarker_eq, toggleMarker_eq,
    Earlier_toggleMarker_eq.
  unfold hideMarker, showMarker. rewrite !setVisible_eq.
  unfold gotoMarker. unfold mbind, M_bind. rewrite getMarker_eq.
  rewrite Hnone. done.
Qed.

Lemma unknown_marker_witness :
  let this := (addMarker Scenario.viewer Examples.front true new_PSVHUD).2 in
  throws (cannot_find (Some "back")) this (getMarker (ArgId "back") this) /\
  throws (cannot_find (Some "back")) this (updateMarker Scenario.viewer (ArgId "back") true this) /\
  throws (cannot_find (Some "back")) this (removeMarker Scenario.viewer (ArgId "back") true this) /\
  throws (cannot_find (Some "back")) this (gotoMarker (ArgId "back") this) /\
  throws (cannot_find (Some "back")) this (hideMarker Scenario.viewer (ArgId "back") this) /\
  throws (cannot_find (Some "back")) this (showMarker Scenario.viewer (ArgId "back") this) /\
  throws (cannot_find (Some "back")) this (toggleMarker Scenario.viewer (ArgId "back") this) /\
  throws (cannot_find (Some "back")) this
    (Earlier.toggleMarker Scenario.viewer (ArgId "back") this).
Proof.
  apply (unknown_marker Scenario.viewer (ArgId "back") true).
  - vm_compute. reflexivity.
  - vm_compute. reflexivity.
Defined.

(** X2.  When the properties have no id, or the empty string as id,
    [addMarker] throws "missing marker id" and leaves the HUD as it was, in
    both listings. *)
Theorem addMarker_missing_id (psv : PhotoSphereViewer) (properties : Properties)
    (render : bool) (this : PSVHUD) :
  id_truthy (p_id properties) = false ->
  throws missing_id this (addMarker psv properties render this) /\
  throws missing_id this (Earlier.addMarker psv properties render this).
Proof.
  intros Hid. unfold throws. by rewrite addMarker_eq, Earlier_addMarker_eq, Hid.
Qed.

Section Clear.
Variable psv : PhotoSphereViewer.

Lemma removed_unchanged l m this :
  store (removed l m this) = store this /\
  currentMarker (removed l m this) = currentMarker this /\
  hoveringMarker (removed l m this) = hoveringMarker this /\
  prop_fovBounds (removed l m this) = prop_fovBounds this /\
  prop_frustrumPoints (removed l m this) = prop_frustrumPoints this.
Proof. unfold removed. destruct (isNormal m); simpl; by destruct (bool_decide _). Qed.

Lemma removed_surfaces l m this :
  container (removed l m this)
    = (if isNormal m then removeChild l (container this) else container this) /\
  svg (removed l m this)
    = (if isNormal m then svg this else removeChild l (svg this)) /\
  tooltip_shown (removed l m this)
    = (if bool_decide (hoveringMarker this = Some l) then false else tooltip_shown this).
Proof. unfold removed. destruct (isNormal m); simpl; by destruct (bool_decide _). Qed.

Lemma elem_of_removeChild (l c : nat) children :
  c ∈ removeChild l children <-> c ≠ l /\ c ∈ children.
Proof. unfold removeChild. by rewrite list_elem_of_filter. Qed.

Lemma forEach_removeMarker_all keys : ∀ this,
  hud_wf this -> NoDup keys ->
  (∀ k, k ∈ keys -> is_Some (markers this !! k)) ->
  ∃ this',
    forEach keys (λ marker, removeMarker psv (ArgId marker) false) this = (Normal tt, this') /\
    (∀ id, markers this' !! id = if bool_decide (id ∈ keys) then None else markers this !! id) /\
    (store this' = store this /\
     currentMarker this' = currentMarker this /\
     hoveringMarker this' = hoveringMarker this /\
     prop_fovBounds this' = prop_fovBounds this /\
     prop_frustrumPoints this' = prop_frustrumPoints this) /\
    ((∀ l, l ∈ container this' -> l ∈ container this) /\
     (∀ l, l ∈ svg this' -> l ∈ svg this) /\
     (tooltip_shown this' = true -> tooltip_shown this = true)) /\
    (∀ k l m, k ∈ keys -> markers this !! k = Some l -> store this !! l = Some m ->
       (if isNormal m then l ∉ container this' else l ∉ svg this') /\
       (hoveringMarker this = Some l -> tooltip_shown this' = false)).
Proof.
  induction keys as [|k keys IH]; intros this Hwf Hnodup Hkeys.
  { exists this. split_and!; try done. intros ? ? ? H. by apply elem_of_nil in H. }
  apply NoDup_cons in Hnodup as [Hk Hnodup].
  destruct (Hkeys k) as [l Hl]; [by left|].
  destruct (proj1 Hwf _ _ Hl) as (m & Hm & Hmid).
  cbn. unfold mbind, M_bind. rewrite removeMarker_eq. cbn. rewrite Hl, Hm.
  destruct (removed_unchanged l m this) as (Hst & Hcur & Hhov & Hb & Hfr).
  destruct (removed_surfaces l m this) as (Hcont & Hsvg & Htip).
  destruct (IH (removed l m this)) as (this' & Hrun & Hmk & Hsame & Hmono & Hgone).
  { by apply hud_wf_removed. }
  { done. }
  { intros k' Hk'. rewrite markers_removed, Hmid.
    rewrite lookup_delete_ne by (intros ->; done). apply Hkeys. by right. }
  destruct Hsame as (Hst' & Hcur' & Hhov' & Hb' & Hfr').
  destruct Hmono as (Hcont' & Hsvg' & Htip').
  exists this'. split; [done|]. split_and!.
  - intros id. rewrite Hmk, markers_removed, Hmid.
    destruct (decide (id = k)) as [->|Hne].
    + rewrite (bool_decide_eq_true_2 (k ∈ k :: keys)) by by left.
      destruct (bool_decide (k ∈ keys)); [done|]. by rewrite lookup_delete_eq.
    + rewrite lookup_delete_ne by done.
      destruct (decide (id ∈ keys)) as [Hin|Hnin].
      * rewrite !bool_decide_eq_true_2; [done|by right|done].
      * rewrite !bool_decide_eq_false_2; [done| |done].
        intros [?|?]%elem_of_cons; done.
  - congruence.
  - congruence.
  - congruence.
  - congruence.
  - congruence.
  - intros c Hc. apply Hcont' in Hc. rewrite Hcont in Hc.
    destruct (isNormal m); [|done]. by apply elem_of_removeChild in Hc as [_ Hc].
  - intros c Hc. apply Hsvg' in Hc. rewrite Hsvg in Hc.
    destruct (isNormal m); [done|]. by apply elem_of_removeChild in Hc as [_ Hc].
  - intros Hshown. apply Htip' in Hshown. rewrite Htip in Hshown.
    by destruct (bool_decide _).
  - intros k1 l1 m1 Hk1 Hl1 Hm1.
    apply elem_of_cons in Hk1 as [->|Hk1].
    + assert (l1 = l) as -> by congruence. assert (m1 = m) as -> by congruence.
      split.
      * destruct (isNormal m) eqn:Hkind.
        -- intros Hc. apply Hcont' in Hc. rewrite Hcont in Hc.
           by apply elem_of_removeChild in Hc as [? _].
        -- intros Hc. apply Hsvg' in Hc. rewrite Hsvg in Hc.
           by apply elem_of_removeChild in Hc as [? _].
      * intros Hh. destruct (tooltip_shown this') eqn:Hshown; [|done].
        specialize (Htip' eq_refl). rewrite Htip in Htip'.
        by rewrite bool_decide_eq_true_2 in Htip'.
    + destruct (Hgone k1 l1 m1 Hk1) as [H1 H2].
      * rewrite markers_removed, Hmid, lookup_delete_ne; [done|]. by intros ->.
      * by rewrite Hst.
      * split; [done|]. intros Hh. apply H2. by rewrite Hhov.
Qed.
End Clear.

(** X3.  On a HUD whose registry refers to markers under their ids, the
    element of each on the surface of its kind, [clearMarkers] returns and
    leaves an empty registry, whether it renders or not.  The element of every marker that was registered is detached
    from its surface and the tooltip is hidden if one of them was hovered;
    the marker objects, [currentMarker] and [hoveringMarker] are left as
    they were. *)
Theorem clearMarkers_empties (psv : PhotoSphereViewer) (render : bool) (this : PSVHUD) :
  hud_wf this -> elements_attached this = true ->
  ∃ this',
    clearMarkers psv render this = (Normal tt, this') /\
    markers this' = ∅ /\
    store this' = store this /\
    currentMarker this' = currentMarker this /\
    hoveringMarker this' = hoveringMarker this /\
    ∀ id l m, markers this !! id = Some l -> store this !! l = Some m ->
      (if isNormal m then l ∉ container this' else l ∉ svg this') /\
      (hoveringMarker this = Some l -> tooltip_shown this' = false).
Proof.
  intros Hwf _.
  destruct (forEach_removeMarker_all psv (map_to_list (markers this)).*1 this Hwf)
    as (this1 & Hrun & Hmk & (Hst & Hcur & Hhov & _ & _) & _ & Hgone).
  { apply NoDup_fst_map_to_list. }
  { intros k Hk. apply list_elem_of_fmap in Hk as ([k' l] & -> & Hin).
    apply elem_of_map_to_list in Hin. by exists l. }
  assert (Hempty : markers this1 = ∅).
  { apply map_eq. intros id. rewrite Hmk, lookup_empty.
    destruct (markers this !! id) as [l|] eqn:Hid; [|by destruct (bool_decide _)].
    rewrite bool_decide_eq_true_2; [done|].
    apply list_elem_of_fmap. exists (id, l). split; [done|]. by apply elem_of_map_to_list. }
  assert (Hgone' : ∀ id l m, markers this !! id = Some l -> store this !! l = Some m ->
      (if isNormal m then l ∉ container this1 else l ∉ svg this1) /\
      (hoveringMarker this = Some l -> tooltip_shown this1 = false)).
  { intros id l m Hid Hm. apply (Hgone id l m); [|done..].
    apply list_elem_of_fmap. exists (id, l). split; [done|]. by apply elem_of_map_to_list. }
  unfold clearMarkers. unfold mbind at 1. unfold M_bind at 1. unfold gets.
  unfold mbind, M_bind. rewrite Hrun.
  destruct render.
  - rewrite updatePositions_eq, Hempty, map_to_list_empty. cbn.
    eexists. split; [reflexivity|]. simpl. split_and!; done.
  - exists this1. split_and!; done.
Qed.

(** ** Surfaces *)

Lemma surfaces_wf_new : surfaces_wf new_PSVHUD.
Proof.
  split; simpl; try done.
  - intros l H. by apply elem_of_nil in H.
  - constructor.
Qed.

Lemma hud_wf_same this this' :
  markers this' = markers this -> store this' = store this -> hud_wf this -> hud_wf this'.
Proof.
  intros Hm Hs [Hreg Hflags]. split.
  - intros id l. rewrite Hm, Hs. apply Hreg.
  - intros l m. rewrite Hs. apply Hflags.
Qed.

(** What changes neither the registry nor the surfaces keeps them well
    formed, when the hovered marker is an object and the tooltip is shown
    over a marker only. *)
Lemma surfaces_wf_hover this this' :
  markers this' = markers this -> container this' = container this ->
  svg this' = svg this -> length (store this') = length (store this) ->
  (∀ l, hoveringMarker this' = Some l -> l < length (store this)) ->
  (tooltip_shown this' = true -> is_Some (hoveringMarker this')) ->
  surfaces_wf this -> surfaces_wf this'.
Proof.
  intros Hm Hc Hs Hlen Hhov Htip [H1 H2 H3 H4 H5].
  split; rewrite ?Hm, ?Hc, ?Hs, ?Hlen; done.
Qed.

Lemma surfaces_wf_same this this' :
  markers this' = markers this -> container this' = container this ->
  svg this' = svg this -> length (store this') = length (store this) ->
  hoveringMarker this' = hoveringMarker this ->
  tooltip_shown this' = tooltip_shown this ->
  surfaces_wf this -> surfaces_wf this'.
Proof.
  intros Hm Hc Hs Hlen Hhov Htip Hwf.
  apply (surfaces_wf_hover this this'); try done.
  - rewrite Hhov. apply (hovering_object _ Hwf).
  - rewrite Hhov, Htip. apply (tooltip_hovering _ Hwf).
Qed.

Lemma surfaces_wf_frame this this' : frame this this' -> surfaces_wf this -> surfaces_wf this'.
Proof. intros []. by apply surfaces_wf_same. Qed.

Lemma surfaces_wf_write this l m :
  surfaces_wf this -> surfaces_wf (set_store (λ objects, <[l := m]> objects) this).
Proof. apply surfaces_wf_same; try done. simpl. by rewrite length_insert. Qed.

Lemma surfaces_registered properties this :
  container (registered properties this) ++ svg (registered properties this) ≡ₚ
  length (store this) :: (container this ++ svg this).
Proof.
  unfold registered. destruct (isNormal _); simpl; unfold appendChild.
  - rewrite <- app_assoc. simpl. by rewrite <- Permutation_middle.
  - by rewrite app_assoc, <- Permutation_cons_append.
Qed.

Lemma surfaces_wf_registered properties this :
  surfaces_wf this -> surfaces_wf (registered properties this).
Proof.
  intros [H1 H2 H3 H4 H5].
  assert (Hfields : hoveringMarker (registered properties this) = hoveringMarker this /\
                    tooltip_shown (registered properties this) = tooltip_shown this).
  { unfold registered. by destruct (isNormal _). }
  destruct Hfields as [Hhov Htip].
  split; rewrite ?store_registered, ?length_app, ?markers_registered, ?Hhov, ?Htip.
  - intros l Hl. rewrite surfaces_registered in Hl.
    apply elem_of_cons in Hl as [->|Hl]; [simpl; lia|]. apply H1 in Hl. lia.
  - rewrite surfaces_registered. apply NoDup_cons. split; [|done].
    intros Hl. apply H1 in Hl. lia.
  - intros id l Hl. rewrite surfaces_registered.
    apply lookup_insert_Some in Hl as [[_ <-]|[_ Hl]]; [by left|].
    right. by eapply H3.
  - intros l Hl. apply H4 in Hl. simpl. lia.
  - done.
Qed.

Lemma surfaces_removed l m this :
  container (removed l m this) ++ svg (removed l m this) `sublist_of`
    container this ++ svg this /\
  ∀ c, c ∈ container this ++ svg this -> c ≠ l ->
    c ∈ container (removed l m this) ++ svg (removed l m this).
Proof.
  destruct (removed_surfaces l m this) as (-> & -> & _).
  destruct (isNormal m); unfold removeChild; split.
  - apply sublist_app; [apply sublist_filter|done].
  - intros c Hc Hne. apply elem_of_app in Hc as [Hc|Hc]; apply elem_of_app; [left|by right].
    by apply list_elem_of_filter.
  - apply sublist_app; [done|apply sublist_filter].
  - intros c Hc Hne. apply elem_of_app in Hc as [Hc|Hc]; apply elem_of_app; [by left|right].
    by apply list_elem_of_filter.
Qed.

Lemma surfaces_wf_removed id l m this :
  hud_wf this -> surfaces_wf this ->
  markers this !! id = Some l -> store this !! l = Some m -> marker_id m = id ->
  surfaces_wf (removed l m this).
Proof.
  intros [Hreg _] [H1 H2 H3 H4 H5] Hl Hm Hmid.
  destruct (removed_unchanged l m this) as (Hst & _ & Hhov & _).
  destruct (removed_surfaces l m this) as (_ & _ & Htip).
  destruct (surfaces_removed l m this) as [Hsub Hkeep].
  split; rewrite ?Hst, ?Hhov, ?markers_removed.
  - intros c Hc. apply H1. by eapply elem_of_sublist.
  - by eapply sublist_NoDup.
  - intros id' l' Hl'. apply lookup_delete_Some in Hl' as [Hne Hl'].
    apply Hkeep; [by eapply H3|]. intros ->.
    destruct (Hreg _ _ Hl') as (m' & Hm' & Hmid'). congruence.
  - done.
  - rewrite Htip. destruct (bool_decide _); [done|]. done.
Qed.

(** ** Handlers *)

Ltac handler_cases :=
  run_M;
  repeat match goal with
         | |- context [match ?x with _ => _ end] =>
             lazymatch x with
             | context [match _ with _ => _ end] => fail
             | _ => destruct x eqn:?; cbn
             end
         end.

Lemma deref_lookup_lt {A} (l : list A) (n : nat) (a : A) :
  deref (l !! n) = Normal a -> n < length l.
Proof.
  destruct (l !! n) eqn:H; [|done]. intros _. by eapply lookup_lt_Some.
Qed.

(** The mouse and click handlers write [hoveringMarker], [currentMarker]
    and the tooltip only. *)
Lemma _onMouseEnter_untouched e this :
  let this' := (_onMouseEnter e this).2 in
  markers this' = markers this /\ store this' = store this /\
  container this' = container this /\ svg this' = svg this /\
  currentMarker this' = currentMarker this.
Proof. unfold _onMouseEnter. handler_cases; done. Qed.

Lemma _onMouseLeave_untouched e this :
  let this' := (_onMouseLeave e this).2 in
  markers this' = markers this /\ store this' = store this /\
  container this' = container this /\ svg this' = svg this /\
  currentMarker this' = currentMarker this.
Proof. unfold _onMouseLeave. handler_cases; done. Qed.

Lemma _onMouseMove_untouched v e this :
  let this' := (_onMouseMove v e this).2 in
  markers this' = markers this /\ store this' = store this /\
  container this' = container this /\ svg this' = svg this /\
  currentMarker this' = currentMarker this.
Proof. unfold _onMouseMove. handler_cases; done. Qed.

Lemma _onClick_untouched v e this :
  let this' := (_onClick v e this).2 in
  markers this' = markers this /\ store this' = store this /\
  container this' = container this /\ svg this' = svg this /\
  hoveringMarker this' = hoveringMarker this /\
  tooltip_shown this' = tooltip_shown this.
Proof. unfold _onClick. handler_cases; done. Qed.

Lemma _onMouseEnter_surfaces e this :
  surfaces_wf this -> surfaces_wf (_onMouseEnter e this).2.
Proof.
  intros Hwf. destruct (_onMouseEnter_untouched e this) as (Hm & Hs & Hc & Hg & _).
  apply (surfaces_wf_hover this); try done; [by rewrite Hs|..];
    unfold _onMouseEnter; handler_cases;
    try apply (hovering_object _ Hwf); try apply (tooltip_hovering _ Hwf);
    try done; try (intros ? [= <-];
           first [by apply (hovering_object _ Hwf)|by eapply deref_lookup_lt]); eauto.
Qed.

Lemma _onMouseLeave_surfaces e this :
  surfaces_wf this -> surfaces_wf (_onMouseLeave e this).2.
Proof.
  intros Hwf. destruct (_onMouseLeave_untouched e this) as (Hm & Hs & Hc & Hg & _).
  apply (surfaces_wf_hover this); try done; [by rewrite Hs|..];
    unfold _onMouseLeave; handler_cases;
    try apply (hovering_object _ Hwf); try apply (tooltip_hovering _ Hwf);
    try done.
Qed.

Lemma _onMouseMove_surfaces v e this :
  surfaces_wf this -> surfaces_wf (_onMouseMove v e this).2.
Proof.
  intros Hwf. destruct (_onMouseMove_untouched v e this) as (Hm & Hs & Hc & Hg & _).
  apply (surfaces_wf_hover this); try done; [by rewrite Hs|..];
    unfold _onMouseMove; handler_cases;
    try apply (hovering_object _ Hwf); try apply (tooltip_hovering _ Hwf);
    try done; try (intros ? [= <-];
           first [by apply (hovering_object _ Hwf)|by eapply deref_lookup_lt]); eauto.
Qed.

Lemma _onClick_surfaces v e this :
  surfaces_wf this -> surfaces_wf (_onClick v e this).2.
Proof.
  intros Hwf. destruct (_onClick_untouched v e this) as (Hm & Hs & Hc & Hg & Hh & Ht).
  apply (surfaces_wf_same this); try done. by rewrite Hs.
Qed.

Section Invariants.
Variable psv : PhotoSphereViewer.

Lemma surfaces_wf_updatePositions this :
  surfaces_wf this -> surfaces_wf (updatePositions psv this).2.
Proof. apply surfaces_wf_frame, updatePositions_frame. Qed.

Lemma removeMarker_surfaces marker render this :
  hud_wf this -> surfaces_wf this -> surfaces_wf (removeMarker psv marker render this).2.
Proof.
  intros Hwf Hs. rewrite removeMarker_eq.
  destruct (markers this !! _) as [l|] eqn:Hl; [|done].
  destruct (proj1 Hwf _ _ Hl) as (m & Hm & Hmid). rewrite Hm.
  assert (surfaces_wf (removed l m this)) by by eapply surfaces_wf_removed.
  destruct render; [|done]. by apply surfaces_wf_updatePositions.
Qed.

Lemma forEach_removeMarker_surfaces keys : ∀ this,
  hud_wf this -> surfaces_wf this ->
  surfaces_wf (forEach keys (λ marker, removeMarker psv (ArgId marker) false) this).2.
Proof.
  induction keys as [|k keys IH]; intros this Hwf Hs; [done|].
  cbn. unfold mbind, M_bind.
  pose proof (proj1 (removeMarker_inv psv (ArgId k) false this Hwf)) as Hwf1.
  pose proof (removeMarker_surfaces (ArgId k) false this Hwf Hs) as Hs1.
  destruct (removeMarker psv (ArgId k) false this) as [[[]|e] this1]; [|done].
  by apply IH.
Qed.

Lemma call_surfaces c this :
  hud_wf this -> surfaces_wf this -> surfaces_wf (call psv c this).
Proof.
  intros Hwf Hs. destruct c as [properties render|marker| |input render|marker render|render
    |marker|marker|marker|marker| |e|e]; simpl.
  - (* addMarker *)
    rewrite addMarker_eq. destruct (negb _); [done|].
    destruct (bool_decide _); [done|].
    pose proof (surfaces_wf_registered properties this Hs) as Hreg.
    destruct render; [|done].
    pose proof (surfaces_wf_updatePositions _ Hreg) as Hs'.
    by destruct (updatePositions psv (registered properties this)) as [[[]|e] this'].
  - rewrite getMarker_eq. by destruct (markers this !! _).
  - done.
  - (* updateMarker *)
    rewrite updateMarker_eq.
    destruct (markers this !! ToString (arg_id input)) as [l0|]; [|done].
    destruct (store this !! l0) as [m|]; [|done]. cbv zeta.
    match goal with |- context [set_store ?f this] =>
      pose proof (surfaces_wf_write this l0 _ Hs : surfaces_wf (set_store f this)) as Hw end.
    destruct render; [|done].
    pose proof (surfaces_wf_updatePositions _ Hw) as Hs'.
    by destruct (updatePositions psv _) as [[[]|e] this'].
  - by apply removeMarker_surfaces.
  - (* clearMarkers *)
    unfold clearMarkers. unfold mbind at 1. unfold M_bind at 1. unfold gets.
    unfold mbind, M_bind.
    pose proof (forEach_removeMarker_surfaces (map_to_list (markers this)).*1 this Hwf Hs)
      as Hs1.
    destruct (forEach _ _ this) as [[[]|e] this1]; [|done].
    destruct render; [|done]. by apply surfaces_wf_updatePositions.
  - unfold gotoMarker. unfold mbind, M_bind. rewrite getMarker_eq.
    by destruct (markers this !! _).
  - unfold hideMarker. rewrite setVisible_eq.
    destruct (markers this !! ToString (arg_id marker)) as [l0|]; [|done].
    destruct (store this !! l0) as [m|]; [|done].
    by apply surfaces_wf_updatePositions, surfaces_wf_write.
  - unfold showMarker. rewrite setVisible_eq.
    destruct (markers this !! ToString (arg_id marker)) as [l0|]; [|done].
    destruct (store this !! l0) as [m|]; [|done].
    by apply surfaces_wf_updatePositions, surfaces_wf_write.
  - rewrite toggleMarker_eq.
    destruct (markers this !! ToString (arg_id marker)) as [l0|]; [|done].
    destruct (store this !! l0) as [m|]; [|done].
    by apply surfaces_wf_updatePositions, surfaces_wf_write.
  - by apply surfaces_wf_updatePositions.
  - by apply _onMouseEnter_surfaces.
  - by apply _onMouseLeave_surfaces.
Qed.

(** The state in which [handleEvent] leaves the HUD is the one its
    handler leaves. *)
Lemma handleEvent_state v e this :
  (handleEvent psv v e this).2 =
  if String.eqb (event_type e) "mouseenter" then (_onMouseEnter (mouse e) this).2
  else if String.eqb (event_type e) "mouseleave" then (_onMouseLeave (mouse e) this).2
  else if String.eqb (event_type e) "mousemove" then (_onMouseMove v e this).2
  else if String.eqb (event_type e) "click" then (_onClick v e this).2
  else if String.eqb (event_type e) "render" then (updatePositions psv this).2
  else this.
Proof.
  unfold handleEvent. unfold mbind, M_bind, mret, M_ret.
  destruct (String.eqb _ _); [by destruct (_onMouseEnter (mouse e) this) as [[?|?] ?]|].
  destruct (String.eqb _ _); [by destruct (_onMouseLeave (mouse e) this) as [[?|?] ?]|].
  destruct (String.eqb _ _); [by destruct (_onMouseMove v e this) as [[?|?] ?]|].
  destruct (String.eqb _ _); [done|].
  destruct (String.eqb _ _); [by destruct (updatePositions psv this) as [[?|?] ?]|].
  done.
Qed.

Lemma act_inv a this :
  hud_wf this /\ keys_truthy this /\ surfaces_wf this ->
  hud_wf (act psv a this) /\ keys_truthy (act psv a this) /\ surfaces_wf (act psv a this).
Proof.
  intros (Hwf & Hkeys & Hs). destruct a as [c|v e]; simpl.
  - split_and!.
    + by apply hud_wf_call.
    + intros id l H. apply call_markers in H as [H|H]; [by eapply Hkeys|done].
    + by apply call_surfaces.
  - rewrite handleEvent_state.
    destruct (_onMouseEnter_untouched (mouse e) this) as (Hm1 & Hs1 & _).
    destruct (_onMouseLeave_untouched (mouse e) this) as (Hm2 & Hs2 & _).
    destruct (_onMouseMove_untouched v e this) as (Hm3 & Hs3 & _).
    destruct (_onClick_untouched v e this) as (Hm4 & Hs4 & _).
    repeat (destruct (String.eqb (event_type e) _);
      [split_and!;
       [by eapply hud_wf_same
       |intros id l; rewrite ?Hm1, ?Hm2, ?Hm3, ?Hm4; apply Hkeys
       |auto using _onMouseEnter_surfaces, _onMouseLeave_surfaces, _onMouseMove_surfaces,
          _onClick_surfaces]|]).
    destruct (String.eqb (event_type e) _); [|done].
    split_and!.
    + by apply hud_wf_updatePositions.
    + intros id l. rewrite markers_updatePositions. apply Hkeys.
    + by apply surfaces_wf_updatePositions.
Qed.
End Invariants.

Lemma after_inv actions : ∀ this,
  hud_wf this /\ keys_truthy this /\ surfaces_wf this ->
  hud_wf (after actions this) /\ keys_truthy (after actions this) /\
  surfaces_wf (after actions this).
Proof.
  induction actions as [|[psv a] actions IH]; intros this Hinv; [done|].
  simpl. by apply IH, act_inv.
Qed.

(** X4.  In every state that a new HUD reaches by calls of its methods and
    by events, each entry of the registry refers to a marker whose id is
    its key, the ids are truthy strings, the [visible] flags are booleans
    or the 0 or 1 of a toggle, the element of every registered marker is
    attached to a surface, no element is attached twice, and the tooltip
    is shown only while [hoveringMarker] is set. *)
Theorem reachable_invariants (actions : list (PhotoSphereViewer * Action)) :
  hud_wf (after actions new_PSVHUD) /\
  keys_truthy (after actions new_PSVHUD) /\
  surfaces_wf (after actions new_PSVHUD).
Proof.
  apply after_inv. split_and!;
    [apply hud_wf_new|apply keys_truthy_new|apply surfaces_wf_new].
Qed.

(** ** Adding and removing *)

Lemma removeChild_appendChild (l : nat) children :
  l ∉ children -> removeChild l (appendChild l children) = children.
Proof.
  intros Hl. unfold removeChild, appendChild. rewrite filter_app.
  rewrite filter_cons_False by (intros H; by apply H).
  rewrite filter_nil, app_nil_r.
  induction children as [|c children IH]; [done|].
  apply not_elem_of_cons in Hl as [Hne Hl].
  rewrite filter_cons_True by done. by rewrite IH.
Qed.

Lemma registered_unchanged properties this :
  currentMarker (registered properties this) = currentMarker this /\
  hoveringMarker (registered properties this) = hoveringMarker this /\
  tooltip_shown (registered properties this) = tooltip_shown this.
Proof. unfold registered. by destruct (isNormal _). Qed.

Lemma registered_surfaces properties this :
  container (registered properties this)
    = (if isNormal (new_PSVMarker (ToString (p_id properties)) properties)
       then appendChild (length (store this)) (container this) else container this) /\
  svg (registered properties this)
    = (if isNormal (new_PSVMarker (ToString (p_id properties)) properties)
       then svg this else appendChild (length (store this)) (svg this)).
Proof. unfold registered. by destruct (isNormal _). Qed.

Lemma restored_frame this this1 this2 :
  frame this1 this2 -> restored this this1 -> restored this this2.
Proof. intros [] []. split; congruence. Qed.

(** X5.  Removing a marker that was just added, under the id of its
    properties (not a name inherited from [Object.prototype]), gives back
    the registry, the two surfaces, the selected and the hovered markers and
    the tooltip as they were before it was added, whether or not either
    call renders. *)
Theorem addMarker_removeMarker (psv psv' : PhotoSphereViewer) (properties : Properties)
    (render render' : bool) (this this1 : PSVHUD) (marker : nat) :
  hud_wf this -> surfaces_wf this ->
  inherited (ToString (p_id properties)) = false ->
  addMarker psv properties render this = (Normal marker, this1) ->
  restored this
    (removeMarker psv' (ArgId (ToString (p_id properties))) render' this1).2.
Proof.
  intros Hwf Hs _ Hadd.
  destruct (addMarker_Normal _ _ _ _ _ _ Hwf Hadd) as (_ & Hnew & -> & Hreg & Hwf1 & Hf).
  rewrite removeMarker_eq. simpl. rewrite Hreg.
  destruct (proj1 Hwf1 _ _ Hreg) as (m1 & Hm1 & Hmid). rewrite Hm1.
  destruct (frame_store _ _ Hf (length (store this))
              (new_PSVMarker (ToString (p_id properties)) properties))
    as (m1' & Hm1' & _ & _ & Hgeo & _).
  { rewrite store_registered. by rewrite lookup_app_r, Nat.sub_diag. }
  assert (m1' = m1) as -> by congruence.
  assert (Hkind : isNormal m1 = isNormal (new_PSVMarker (ToString (p_id properties)) properties))
    by (unfold isNormal, isPolygon; by rewrite Hgeo).
  assert (Hfresh : (length (store this) ∉ container this) /\
                   (length (store this) ∉ svg this)).
  { split; intros Hin; apply (Nat.lt_irrefl (length (store this)));
      apply (attached_objects _ Hs); apply elem_of_app; auto. }
  assert (Hrest : restored this (removed (length (store this)) m1 this1)).
  { destruct (removed_unchanged (length (store this)) m1 this1) as (_ & Hcur & Hhov & _).
    destruct (removed_surfaces (length (store this)) m1 this1) as (Hcont & Hsvg & Htip).
    destruct (registered_unchanged properties this) as (Rcur & Rhov & Rtip).
    destruct (registered_surfaces properties this) as (Rcont & Rsvg).
    destruct Hf as [Fm Fc Fs Fcur Fhov Ftip _ _].
    split.
    - rewrite markers_removed, Hmid, Fm, markers_registered. by apply delete_insert_id.
    - rewrite Hcont, Fc, Hkind, Rcont.
      destruct (isNormal (new_PSVMarker _ properties)); [|done].
      apply removeChild_appendChild, Hfresh.
    - rewrite Hsvg, Fs, Hkind, Rsvg.
      destruct (isNormal (new_PSVMarker _ properties)); [done|].
      apply removeChild_appendChild, Hfresh.
    - congruence.
    - congruence.
    - rewrite Htip, Ftip, Fhov, Rhov, Rtip.
      rewrite bool_decide_eq_false_2; [done|].
      intros Hh. apply (hovering_object _ Hs) in Hh. lia. }
  destruct render'; [|done].
  eapply restored_frame; [apply updatePositions_frame|done].
Qed.

(** ** Events *)

(** X6.  No event adds, removes or replaces a marker: whatever its type
    and its target, [handleEvent] leaves the registry and the two surfaces
    as they are, and every marker object with its id, its [visible] flag,
    its geometry and its tooltip. *)
Theorem handleEvent_keeps_markers (psv : PhotoSphereViewer) (v : ViewerState) (e : Event)
    (this : PSVHUD) :
  markers (handleEvent psv v e this).2 = markers this /\
  container (handleEvent psv v e this).2 = container this /\
  svg (handleEvent psv v e this).2 = svg this /\
  length (store (handleEvent psv v e this).2) = length (store this) /\
  ∀ l m, store this !! l = Some m ->
    ∃ m', store (handleEvent psv v e this).2 !! l = Some m' /\ same_marker m m'.
Proof.
  rewrite handleEvent_state.
  assert (Hsame : ∀ this', markers this' = markers this /\ store this' = store this /\
            container this' = container this /\ svg this' = svg this ->
    markers this' = markers this /\ container this' = container this /\
    svg this' = svg this /\ length (store this') = length (store this) /\
    ∀ l m, store this !! l = Some m -> ∃ m', store this' !! l = Some m' /\ same_marker m m').
  { intros this' (-> & -> & -> & ->). split_and!; try done.
    intros l m Hm. exists m. split; [done|apply same_marker_refl]. }
  destruct (String.eqb _ _);
    [apply Hsame; pose proof (_onMouseEnter_untouched (mouse e) this) as H; cbv zeta in H; tauto|].
  destruct (String.eqb _ _);
    [apply Hsame; pose proof (_onMouseLeave_untouched (mouse e) this) as H; cbv zeta in H; tauto|].
  destruct (String.eqb _ _);
    [apply Hsame; pose proof (_onMouseMove_untouched v e this) as H; cbv zeta in H; tauto|].
  destruct (String.eqb _ _);
    [apply Hsame; pose proof (_onClick_untouched v e this) as H; cbv zeta in H; tauto|].
  destruct (String.eqb _ _); [|by apply Hsame].
  destruct (updatePositions_frame psv this). by split_and!.
Qed.

Section Selection.
Variable psv : PhotoSphereViewer.

Lemma removeMarker_currentMarker marker render this :
  currentMarker (removeMarker psv marker render this).2 = currentMarker this.
Proof.
  rewrite removeMarker_eq. destruct (markers this !! _) as [l|]; [|done].
  destruct (store this !! l) as [m|]; [|done].
  destruct (removed_unchanged l m this) as (_ & Hcur & _).
  destruct render; [|done].
  by rewrite (frame_currentMarker _ _ (updatePositions_frame psv _)).
Qed.

Lemma forEach_removeMarker_currentMarker keys : ∀ this,
  currentMarker (forEach keys (λ marker, removeMarker psv (ArgId marker) false) this).2
    = currentMarker this.
Proof.
  induction keys as [|k keys IH]; intros this; [done|].
  cbn. unfold mbind, M_bind.
  pose proof (removeMarker_currentMarker (ArgId k) false this) as Hrem.
  destruct (removeMarker psv (ArgId k) false this) as [[[]|e] this1]; [|done].
  by rewrite IH.
Qed.

Lemma currentMarker_updatePositions this :
  currentMarker (updatePositions psv this).2 = currentMarker this.
Proof. apply (frame_currentMarker _ _ (updatePositions_frame psv this)). Qed.

Lemma call_currentMarker c this : currentMarker (call psv c this) = currentMarker this.
Proof.
  destruct c as [properties render|marker| |input render|marker render|render
    |marker|marker|marker|marker| |e|e]; simpl.
  - rewrite addMarker_eq. destruct (negb _); [done|].
    destruct (bool_decide _); [done|].
    destruct (registered_unchanged properties this) as (Hcur & _).
    destruct render; [|done].
    pose proof (currentMarker_updatePositions (registered properties this)) as Hp.
    destruct (updatePositions psv (registered properties this)) as [[[]|e] this'];
      simpl in *; congruence.
  - rewrite getMarker_eq. by destruct (markers this !! _).
  - done.
  - rewrite updateMarker_eq.
    destruct (markers this !! ToString (arg_id input)) as [l0|]; [|done].
    destruct (store this !! l0) as [m|]; [|done]. cbv zeta.
    destruct render; [|done].
    match goal with |- context [updatePositions psv ?t] =>
      pose proof (currentMarker_updatePositions t) as Hp;
      destruct (updatePositions psv t) as [[[]|e] this'] end; done.
  - apply removeMarker_currentMarker.
  - unfold clearMarkers. unfold mbind at 1. unfold M_bind at 1. unfold gets.
    unfold mbind, M_bind.
    pose proof (forEach_removeMarker_currentMarker (map_to_list (markers this)).*1 this) as Hf.
    destruct (forEach _ _ this) as [[[]|e] this1]; [|done].
    destruct render; [|done]. by rewrite currentMarker_updatePositions.
  - unfold gotoMarker. unfold mbind, M_bind. rewrite getMarker_eq.
    by destruct (markers this !! _).
  - unfold hideMarker. rewrite setVisible_eq.
    destruct (markers this !! ToString (arg_id marker)) as [l0|]; [|done].
    destruct (store this !! l0) as [m|]; [|done].
    by rewrite currentMarker_updatePositions.
  - unfold showMarker. rewrite setVisible_eq.
    destruct (markers this !! ToString (arg_id marker)) as [l0|]; [|done].
    destruct (store this !! l0) as [m|]; [|done].
    by rewrite currentMarker_updatePositions.
  - rewrite toggleMarker_eq.
    destruct (markers this !! ToString (arg_id marker)) as [l0|]; [|done].
    destruct (store this !! l0) as [m|]; [|done].
    by rewrite currentMarker_updatePositions.
  - apply currentMarker_updatePositions.
  - by destruct (_onMouseEnter_untouched e this) as (_ & _ & _ & _ & ?).
  - by destruct (_onMouseLeave_untouched e this) as (_ & _ & _ & _ & ?).
Qed.

Lemma act_currentMarker a this :
  is_click a = false -> currentMarker (act psv a this) = currentMarker this.
Proof.
  destruct a as [c|v e]; simpl; intros Hclick; [apply call_currentMarker|].
  rewrite handleEvent_state, Hclick. clear Hclick.
  destruct (String.eqb _ _);
    [by destruct (_onMouseEnter_untouched (mouse e) this) as (_ & _ & _ & _ & ?)|].
  destruct (String.eqb _ _);
    [by destruct (_onMouseLeave_untouched (mouse e) this) as (_ & _ & _ & _ & ?)|].
  destruct (String.eqb _ _);
    [by destruct (_onMouseMove_untouched v e this) as (_ & _ & _ & _ & ?)|].
  destruct (String.eqb _ _); [|done]. apply currentMarker_updatePositions.
Qed.

Lemma _onClick_currentMarker v e this :
  currentMarker (_onClick v e this).2 = closest_psvMarker e.
Proof. unfold _onClick. handler_cases; done. Qed.
End Selection.

Lemma after_currentMarker actions : ∀ this,
  Forall (λ a : PhotoSphereViewer * Action, is_click a.2 = false) actions ->
  currentMarker (after actions this) = currentMarker this.
Proof.
  induction actions as [|[psv a] actions IH]; intros this Hall; [done|].
  apply Forall_cons in Hall as [Ha Hall]. simpl.
  rewrite IH by done. by apply act_currentMarker.
Qed.

(** X7.  After a click, and until the next click, [getCurrentMarker]
    returns the marker of the element that was clicked, null when the click
    was outside of every marker: no method and no other event changes the
    selection, [removeMarker] and [clearMarkers] included. *)
Theorem getCurrentMarker_after_click (psv : PhotoSphereViewer) (v : ViewerState)
    (e : Event) (actions : list (PhotoSphereViewer * Action)) (this : PSVHUD) :
  event_type e = "click" ->
  Forall (λ a : PhotoSphereViewer * Action, is_click a.2 = false) actions ->
  getCurrentMarker (after actions (handleEvent psv v e this).2)
    = (Normal (closest_psvMarker e), after actions (handleEvent psv v e this).2).
Proof.
  intros Hclick Hactions. unfold getCurrentMarker, gets.
  rewrite after_currentMarker by done.
  rewrite handleEvent_state, Hclick. simpl.
  by rewrite _onClick_currentMarker.
Qed.



Lemma addMarker_missing_id_witness :
  throws missing_id Samples.hud
    (addMarker Scenario.viewer Samples.anonymous true Samples.hud) /\
  throws missing_id Samples.hud
    (Earlier.addMarker Scenario.viewer Samples.anonymous true Samples.hud).
Proof.
  apply (addMarker_missing_id Scenario.viewer Samples.anonymous true Samples.hud).
  reflexivity.
Defined.

Lemma clearMarkers_empties_witness :
  ∃ this',
    clearMarkers Scenario.viewer true Samples.hovered = (Normal tt, this') /\
    markers this' = ∅ /\
    store this' = store Samples.hovered /\
    currentMarker this' = currentMarker Samples.hovered /\
    hoveringMarker this' = hoveringMarker Samples.hovered /\
    ∀ id l m, markers Samples.hovered !! id = Some l -> store Samples.hovered !! l = Some m ->
      (if isNormal m then l ∉ container this' else l ∉ svg this') /\
      (hoveringMarker Samples.hovered = Some l -> tooltip_shown this' = false).
Proof.
  apply (clearMarkers_empties Scenario.viewer true Samples.hovered).
  - apply (after_inv [(Scenario.viewer, Dispatch Samples.idle
                         (Samples.event "mouseenter" (Some 0) false))] Samples.hud).
    apply (after_inv [(Scenario.viewer, Method (AddMarker Examples.front true));
                      (Scenario.viewer, Method (AddMarker Samples.area true))] new_PSVHUD).
    split_and!; [apply hud_wf_new|apply keys_truthy_new|apply surfaces_wf_new].
  - vm_compute. reflexivity.
Defined.

Lemma addMarker_removeMarker_witness :
  restored Samples.hovered
    (removeMarker Scenario.viewer (ArgId (ToString (p_id Examples.back))) true
       (addMarker Scenario.viewer Examples.back true Samples.hovered).2).2.
Proof.
  apply (addMarker_removeMarker Scenario.viewer Scenario.viewer Examples.back true true
           Samples.hovered (addMarker Scenario.viewer Examples.back true Samples.hovered).2 2).
  - apply (after_inv [(Scenario.viewer, Dispatch Samples.idle
                         (Samples.event "mouseenter" (Some 0) false))] Samples.hud).
    apply (after_inv [(Scenario.viewer, Method (AddMarker Examples.front true));
                      (Scenario.viewer, Method (AddMarker Samples.area true))] new_PSVHUD).
    split_and!; [apply hud_wf_new|apply keys_truthy_new|apply surfaces_wf_new].
  - apply (after_inv [(Scenario.viewer, Dispatch Samples.idle
                         (Samples.event "mouseenter" (Some 0) false))] Samples.hud).
    apply (after_inv [(Scenario.viewer, Method (AddMarker Examples.front true));
                      (Scenario.viewer, Method (AddMarker Samples.area true))] new_PSVHUD).
    split_and!; [apply hud_wf_new|apply keys_truthy_new|apply surfaces_wf_new].
  - vm_compute. reflexivity.
  - vm_compute. reflexivity.
Defined.

Lemma getCurrentMarker_after_click_witness :
  getCurrentMarker
    (after [(Scenario.viewer, Method (RemoveMarker (ArgId "front") true));
            (Scenario.viewer, Dispatch Samples.idle (Samples.event "mousemove" None false))]
       (handleEvent Scenario.viewer Samples.idle (Samples.event "click" (Some 0) false)
          Samples.hud).2)
    = (Normal (closest_psvMarker (Samples.event "click" (Some 0) false)),
       after [(Scenario.viewer, Method (RemoveMarker (ArgId "front") true));
              (Scenario.viewer, Dispatch Samples.idle (Samples.event "mousemove" None false))]
         (handleEvent Scenario.viewer Samples.idle (Samples.event "click" (Some 0) false)
            Samples.hud).2).
Proof.
  apply (getCurrentMarker_after_click Scenario.viewer Samples.idle
           (Samples.event "click" (Some 0) false)).
  - reflexivity.
  - repeat constructor.
Defined.

(** ** Placement *)

Section Placement.
Variable psv : PhotoSphereViewer.

Lemma truthy_isMarkerVisible m p position :
  geometry m = Point p ->
  ∃ v, _isMarkerVisible psv m position = Normal v /\ truthy v = in_view psv m p position.
Proof.
  intros Hp. unfold _isMarkerVisible, position3D_of, in_view. rewrite Hp.
  destruct (truthy (visible m)) eqn:Hvis; cbn.
  - eexists. split; [reflexivity|]. by rewrite !truthy_js_and.
  - by exists (visible m).
Qed.

Lemma updatePosition_point this m m' p :
  geometry m = Point p ->
  updatePosition psv this (rotation_of psv) m = Normal m' ->
  (geometry m' = Point p /\ visible m' = visible m /\ anchor m' = anchor m /\
   dynamicSize m' = dynamicSize m /\
   (dynamicSize m = false -> width m' = width m /\ height m' = height m)) /\
  placed psv m' p.
Proof.
  intros Hp. unfold updatePosition, isPolygon. rewrite Hp.
  unfold _getMarkerPosition.
  set (m1 := if dynamicSize m then _ else m).
  assert (H1 : geometry m1 = Point p /\ visible m1 = visible m /\ anchor m1 = anchor m /\
               dynamicSize m1 = dynamicSize m /\
               (dynamicSize m = false -> width m1 = width m /\ height m1 = height m)).
  { unfold m1. destruct (dynamicSize m) eqn:Hdyn; simpl; by rewrite ?Hdyn. }
  destruct H1 as (Hp1 & Hvis1 & Hanc1 & Hdyn1 & Hdim1).
  unfold position3D_of. rewrite Hp1. cbn.
  fold (anchored psv m1 p).
  destruct (truthy_isMarkerVisible m1 p (anchored psv m1 p) Hp1) as (v & -> & Hv).
  cbn. unfold placed. destruct (truthy v) eqn:Htruthy; intros [= <-];
    (split; [done|]); cbv zeta;
    match goal with |- context [in_view psv ?M p ?pos] =>
      change (in_view psv M p pos) with (in_view psv m1 p (anchored psv m1 p)) end;
    by rewrite <- Hv.
Qed.

Lemma updatePosition_polygon this rotation m m' positions3D polygon_rad :
  geometry m = Polygon positions3D polygon_rad ->
  updatePosition psv this rotation m = Normal m' ->
  (geometry m' = Polygon positions3D polygon_rad /\ visible m' = visible m) /\
  ∃ positions,
    polygonPositions psv (prop_fovBounds this) (prop_frustrumPoints this)
      positions3D polygon_rad = Normal positions /\
    outlined m' positions.
Proof.
  intros Hp. unfold updatePosition, isPolygon, _getPolygonPositions, polygonArrays.
  rewrite Hp. cbn.
  destruct (polygonPositions psv _ _ positions3D polygon_rad) as [positions|]; [|done].
  cbn. intros [= <-]. split; [done|]. exists positions. by split.
Qed.

Lemma point_placed this this' id l m p :
  updatePositions psv this = (Normal tt, this') ->
  markers this !! id = Some l -> store this !! l = Some m -> geometry m = Point p ->
  ∃ m', store this' !! l = Some m' /\
    (geometry m' = Point p /\ visible m' = visible m /\ anchor m' = anchor m /\
     dynamicSize m' = dynamicSize m /\
     (dynamicSize m = false -> width m' = width m /\ height m' = height m)) /\
    placed psv m' p.
Proof.
  intros Hrun Hid Hl Hp.
  apply (updatePositions_visit psv
    (λ m0, geometry m0 = Point p /\ visible m0 = visible m /\ anchor m0 = anchor m /\
           dynamicSize m0 = dynamicSize m /\
           (dynamicSize m = false -> width m0 = width m /\ height m0 = height m))
    (λ m0, placed psv m0 p) this this' id l m); try done.
  intros this0 m0 m0' _ (Hp0 & Hvis0 & Hanc0 & Hdyn0 & Hdim0) Hm0.
  destruct (updatePosition_point this0 m0 m0' p Hp0 Hm0)
    as ((Hp' & Hvis' & Hanc' & Hdyn' & Hdim') & Hplaced).
  split; [|done]. split_and!; try congruence.
  intros Hdyn. rewrite <- Hdyn0 in Hdyn.
  destruct (Hdim' Hdyn) as [-> ->]. apply Hdim0. congruence.
Qed.
End Placement.

(** X9.  On a HUD whose registry refers to marker objects and whose
    polygons have as many vectors as pairs, a pass returns and leaves a
    registered point marker with its [visible] flag and its anchor as
    before, its size as before unless the size is dynamic, and placed: if
    it is flagged visible, in front of the camera and within the viewport
    enlarged by its size, [position2D] is the projection of its vector
    moved by its anchor, the element is translated there and rotated by the
    angle of the pass, and it has the class [visible]; otherwise
    [position2D] is null and the class is removed. *)
Theorem point_marker_placed (psv : PhotoSphereViewer) (this : PSVHUD)
    (id : string) (l : nat) (m : Marker) (p : Vector3) :
  refs_valid this -> Forall marker_wf (store this) ->
  markers this !! id = Some l -> store this !! l = Some m -> geometry m = Point p ->
  ∃ this' m',
    updatePositions psv this = (Normal tt, this') /\
    store this' !! l = Some m' /\
    visible m' = visible m /\ anchor m' = anchor m /\
    (dynamicSize m = false -> width m' = width m /\ height m' = height m) /\
    placed psv m' p.
Proof.
  intros Hrefs Hwf Hid Hl Hp.
  destruct (updatePositions_total psv this Hrefs Hwf) as [this' Hrun].
  destruct (point_placed psv this this' id l m p Hrun Hid Hl Hp)
    as (m' & Hm' & (_ & ? & ? & _ & ?) & ?).
  by exists this', m'.
Qed.

(** X10.  On such a HUD, a pass returns and leaves a registered polygon
    with the points that the clipping gives for the bounds and the corners
    of the view of the camera of this pass: they are its attribute
    [points], [position2D] is the corner of their box and the size of the
    marker is the size of the box.  The polygon has the class [visible]
    whatever its [visible] flag, which the pass leaves as it was. *)
Theorem polygon_marker_outlined (psv : PhotoSphereViewer) (this : PSVHUD)
    (id : string) (l : nat) (m : Marker)
    (positions3D : list Vector3) (polygon_rad : list (float * float)) :
  refs_valid this -> Forall marker_wf (store this) ->
  markers this !! id = Some l -> store this !! l = Some m ->
  geometry m = Polygon positions3D polygon_rad ->
  ∃ this' m' positions,
    updatePositions psv this = (Normal tt, this') /\
    store this' !! l = Some m' /\
    visible m' = visible m /\
    polygonPositions psv (Some (fovBounds_of psv))
      (frustrumPoints_of psv (fovBounds_of psv)) positions3D polygon_rad
      = Normal positions /\
    outlined m' positions.
Proof.
  intros Hrefs Hwf Hid Hl Hp.
  destruct (updatePositions_total psv this Hrefs Hwf) as [this' Hrun].
  pose proof Hrun as Hrun'. rewrite updatePositions_eq in Hrun. simpl in Hrun.
  destruct (forIn_visit psv (rotation_of psv)
    (λ m0, geometry m0 = Polygon positions3D polygon_rad /\ visible m0 = visible m)
    (λ m0, ∃ positions,
       polygonPositions psv (Some (fovBounds_of psv))
         (frustrumPoints_of psv (fovBounds_of psv)) positions3D polygon_rad
         = Normal positions /\
       outlined m0 positions)
    (Some (fovBounds_of psv)) (frustrumPoints_of psv (fovBounds_of psv)) l)
    with (entries := map_to_list (markers this))
         (this := set_prop (fovBounds_of psv) (frustrumPoints_of psv (fovBounds_of psv)) this)
         (this' := this') (m := m)
    as (m' & Hm' & (_ & Hvis') & HR); try done.
  - intros this0 m0 m0' Hb Hfr (Hp0 & Hvis0) Hm0.
    destruct (updatePosition_polygon psv this0 _ m0 m0' _ _ Hp0 Hm0)
      as ((Hp' & Hvis') & positions & Hpos & Hout).
    rewrite Hb, Hfr in Hpos. split; [split; congruence|]. by exists positions.
  - destruct HR as (positions & Hpos & Hout).
    + right. apply list_elem_of_fmap. exists (id, l). split; [done|].
      by apply elem_of_map_to_list.
    + by exists this', m', positions.
Qed.

Section Visibility.
Variable psv : PhotoSphereViewer.

Lemma setVisible_point (v : jsflag) marker this l m p :
  refs_valid this -> Forall marker_wf (store this) ->
  markers this !! ToString (arg_id marker) = Some l ->
  store this !! l = Some m -> geometry m = Point p ->
  ∃ this' m',
    (marker ← getMarker marker;
     m ← readMarker marker;
     _ ← writeMarker marker (set_visible v m);
     updatePositions psv) this = (Normal tt, this') /\
    markers this' = markers this /\
    store this' !! l = Some m' /\ visible m' = v /\ placed psv m' p.
Proof.
  intros Hrefs Hwf Hid Hl Hp. rewrite setVisible_eq, Hid, Hl.
  set (this1 := set_store _ this).
  assert (Hl1 : store this1 !! l = Some (set_visible v m)).
  { simpl. apply list_lookup_insert_eq. by eapply lookup_lt_Some. }
  destruct (updatePositions_total psv this1) as [this' Hrun].
  { intros id0 l0 Hid0. simpl. apply lookup_lt_is_Some. rewrite length_insert.
    apply lookup_lt_is_Some. by eapply Hrefs. }
  { simpl. apply Forall_insert; [done|]. unfold marker_wf. simpl. by rewrite Hp. }
  destruct (point_placed psv this1 this' (ToString (arg_id marker)) l (set_visible v m) p)
    as (m' & Hm' & (_ & Hvis & _) & Hplaced); try done.
  exists this', m'. split_and!; try done.
  pose proof (frame_markers _ _ (updatePositions_frame psv this1)) as Hmk.
  by rewrite Hrun in Hmk.
Qed.
End Visibility.

(** X11.  On a HUD whose registry refers to marker objects and whose
    polygons have as many vectors as pairs, with a registered point marker:
    [hideMarker] returns, leaves the registry as it was, and the marker has
    [visible = false], a null [position2D] and no class [visible];
    [showMarker] returns and the marker has [visible = true] and is placed
    as by a pass. *)
Theorem hide_and_show_point_marker (psv : PhotoSphereViewer) (marker : MarkerArg)
    (this : PSVHUD) (l : nat) (m : Marker) (p : Vector3) :
  refs_valid this -> Forall marker_wf (store this) ->
  markers this !! ToString (arg_id marker) = Some l ->
  store this !! l = Some m -> geometry m = Point p ->
  (∃ this' m',
     hideMarker psv marker this = (Normal tt, this') /\
     markers this' = markers this /\
     store this' !! l = Some m' /\ visible m' = JBool false /\
     position2D m' = None /\ classList_visible (el m') = false) /\
  (∃ this' m',
     showMarker psv marker this = (Normal tt, this') /\
     markers this' = markers this /\
     store this' !! l = Some m' /\ visible m' = JBool true /\
     placed psv m' p).
Proof.
  intros Hrefs Hwf Hid Hl Hp. split.
  - destruct (setVisible_point psv (JBool false) marker this l m p)
      as (this' & m' & Hrun & Hmk & Hm' & Hvis & Hplaced); try done.
    exists this', m'. split_and!; try done;
      unfold placed, in_view in Hplaced; rewrite Hvis in Hplaced; simpl in Hplaced; tauto.
  - destruct (setVisible_point psv (JBool true) marker this l m p)
      as (this' & m' & Hrun & Hmk & Hm' & Hvis & Hplaced); try done.
    by exists this', m'.
Qed.

(** ** What the clipping keeps *)

Section Kept.
Variable psv : PhotoSphereViewer.

Lemma project_keeps (ps0 ps1 : list Vertex) : ∀ out,
  Forall2 (λ a b : Vertex, truthy (vertex_visible a) = true -> b = a) ps0 ps1 ->
  project psv ps1 = Normal out ->
  omap (λ a, if truthy (vertex_visible a)
             then vector3ToViewerCoords psv <$> vector a else None) ps0
    `sublist_of` out /\
  length out <= length ps1.
Proof.
  intros out H. revert out.
  induction H as [|a b ps0 ps1 Hab _ IH]; intros out.
  { intros [= <-]. done. }
  cbn. destruct (truthy (vertex_visible a)) eqn:Ha.
  - rewrite (Hab eq_refl), Ha.
    destruct (vector a) as [v|]; [|done]. cbn.
    destruct (project psv ps1) as [rest|]; [|done]. cbn. intros [= <-].
    destruct (IH rest eq_refl) as [Hsub Hlen]. split; [by apply sublist_skip|simpl; lia].
  - destruct (truthy (vertex_visible b)).
    + destruct (vector b) as [v|]; [|done]. cbn.
      destruct (project psv ps1) as [rest|]; [|done]. cbn. intros [= <-].
      destruct (IH rest eq_refl) as [Hsub Hlen]. split; [by apply sublist_cons|simpl; lia].
    + intros Hout. destruct (IH out Hout) as [Hsub Hlen]. split; [done|simpl; lia].
Qed.

Lemma computePairs_keeps frustrumPoints (ps0 : list Vertex) pairs : ∀ cur ps1,
  Forall2 (λ a b : Vertex, truthy (vertex_visible a) = true -> b = a) ps0 cur ->
  Forall (λ p : nat * nat,
            ∃ pos, ps0 !! p.2 = Some pos /\ truthy (vertex_visible pos) = false) pairs ->
  computePairs psv frustrumPoints pairs cur = Normal ps1 ->
  Forall2 (λ a b : Vertex, truthy (vertex_visible a) = true -> b = a) ps0 ps1.
Proof.
  induction pairs as [|[v i] pairs IH]; intros cur ps1 Hcur Hpairs.
  { by intros [= <-]. }
  apply Forall_cons in Hpairs as [(pos & Hpos & Hinv) Hpairs]. simpl in Hpos.
  cbn. destruct (cur !! v) as [pv|]; [|done]. cbn.
  destruct (cur !! i) as [pi|]; [|done]. cbn.
  destruct (_computeIntermediaryPoint psv frustrumPoints (vector pv) (vector pi))
    as [vec|]; [|done]. cbn.
  apply IH; [|done].
  rewrite <- (list_insert_id ps0 i pos Hpos).
  apply Forall2_insert; [done|]. intros Hvis. congruence.
Qed.

Lemma omap_vertices b : ∀ positions3D polygon_rad,
  length positions3D = length polygon_rad ->
  omap (λ a, if truthy (vertex_visible a)
             then vector3ToViewerCoords psv <$> vector a else None)
    (imap (λ i pos, {| spherical := pos; vector := positions3D !! i;
                       vertex_visible := vertexVisible b pos |}) polygon_rad)
  = map (vector3ToViewerCoords psv) (visibleVectors b positions3D polygon_rad).
Proof.
  intros positions3D polygon_rad. revert positions3D.
  induction polygon_rad as [|pos polygon_rad IH]; intros [|v positions3D] Hlen; try done.
  injection Hlen as Hlen. specialize (IH positions3D Hlen).
  rewrite imap_cons. unfold visibleVectors in *. cbn.
  destruct (truthy (vertexVisible b pos)); cbn; [f_equal|]; exact IH.
Qed.

Lemma polygonPositions_keeps b frustrumPoints positions3D polygon_rad positions :
  length positions3D = length polygon_rad ->
  polygonPositions psv (Some b) frustrumPoints positions3D polygon_rad = Normal positions ->
  map (vector3ToViewerCoords psv) (visibleVectors b positions3D polygon_rad)
    `sublist_of` positions /\
  length positions <= length polygon_rad.
Proof.
  intros Hlen. unfold polygonPositions. rewrite vertices_Some. cbn.
  rewrite <- (omap_vertices b positions3D polygon_rad Hlen).
  set (ps0 := imap _ polygon_rad).
  assert (Hlen0 : length ps0 = length polygon_rad) by (unfold ps0; by rewrite length_imap).
  replace (Z.of_nat (length positions3D)) with (Z.of_nat (length ps0)) by lia.
  destruct (toBeComputed_ok ps0 _ (seq_lt (length ps0))) as (pairs & -> & _ & _ & Hpairs).
  cbn. destruct (computePairs psv frustrumPoints pairs ps0) as [ps1|] eqn:Hps1; [|done].
  cbn. intros Hout.
  assert (H01 : Forall2 (λ a b : Vertex, truthy (vertex_visible a) = true -> b = a) ps0 ps1).
  { eapply (computePairs_keeps frustrumPoints ps0 pairs ps0); [|..|exact Hps1].
    - apply Forall2_same_length_lookup. split; [done|]. intros; congruence.
    - eapply Forall_impl; [exact Hpairs|]. by intros [v i] [_ ?]. }
  destruct (project_keeps ps0 ps1 positions H01 Hout) as [Hsub Hle].
  split; [done|]. apply Forall2_length in H01. lia.
Qed.
End Kept.

(** X12.  For a polygon with as many vectors as pairs and the four
    corners of a view, the clipping returns, and it keeps every vertex that
    passes the inclusion test: the projections of these vertices are among
    the points it returns, in the order of the polygon.  It returns at most
    one point for each vertex of the polygon. *)
Theorem clipping_keeps_visible_vertices (psv : PhotoSphereViewer) (b : FovBounds)
    (frustrumPoints positions3D : list Vector3) (polygon_rad : list (float * float)) :
  length positions3D = length polygon_rad ->
  length frustrumPoints = 4 ->
  ∃ positions,
    polygonPositions psv (Some b) frustrumPoints positions3D polygon_rad = Normal positions /\
    map (vector3ToViewerCoords psv) (visibleVectors b positions3D polygon_rad)
      `sublist_of` positions /\
    length positions <= length polygon_rad.
Proof.
  intros Hlen Hfr.
  destruct (polygonPositions_total psv b frustrumPoints positions3D polygon_rad Hlen Hfr)
    as [positions Hpos].
  exists positions. split; [done|]. by apply (polygonPositions_keeps psv b frustrumPoints).
Qed.

(** ** The pass of the first listing *)

Section EarlierPass.
Variable psv : PhotoSphereViewer.

Lemma somePositionVisible_spec suf : ∀ pre,
  Earlier.somePositionVisible psv (pre ++ suf) (length pre)
    (map (vector3ToViewerCoords psv) suf)
  = Normal (JBool (existsb (on_screen psv) suf)).
Proof.
  induction suf as [|v suf IH]; intros pre; [done|].
  cbn. rewrite list_lookup_middle by done. cbn.
  rewrite !truthy_js_and. cbn. fold (on_screen psv v).
  destruct (on_screen psv v); [done|]. cbn.
  specialize (IH (pre ++ [v])). rewrite <- app_assoc, length_app in IH. simpl in IH.
  by rewrite Nat.add_1_r in IH.
Qed.

Lemma Earlier_updatePosition_polygon rotation m positions3D polygon_rad :
  geometry m = Polygon positions3D polygon_rad ->
  ∃ m', Earlier.updatePosition psv rotation m = Normal m' /\
    (geometry m' = geometry m /\ visible m' = visible m) /\
    if truthy (visible m') && existsb (on_screen psv) positions3D
    then outlined m' (map (vector3ToViewerCoords psv) positions3D)
    else position2D m' = None /\ classList_visible (el m') = false.
Proof.
  intros Hp. unfold Earlier.updatePosition, isPolygon, Earlier._getPolygonPositions,
    Earlier._isPolygonVisible, polygonArrays. rewrite Hp. cbn.
  destruct (truthy (visible m)) eqn:Hvis; cbn.
  - pose proof (somePositionVisible_spec positions3D []) as Hsome. simpl in Hsome.
    rewrite Hsome. cbn.
    destruct (existsb (on_screen psv) positions3D); cbn;
      eexists; (split; [reflexivity|]); cbn; rewrite Hvis; by repeat split.
  - rewrite Hvis. eexists. split; [reflexivity|]. cbn. rewrite Hvis. by repeat split.
Qed.

Lemma Earlier_updatePosition_total rotation m : ∃ m', Earlier.updatePosition psv rotation m = Normal m'.
Proof.
  destruct (geometry m) as [p|positions3D polygon_rad] eqn:Hp.
  - unfold Earlier.updatePosition, isPolygon. rewrite Hp.
    destruct (_getMarkerPosition_point psv m p Hp) as (m1 & position & -> & Hsame).
    cbn. destruct Hsame as (_ & _ & Hgeo & _). rewrite Hp in Hgeo.
    destruct (_isMarkerVisible_point psv m1 p position Hgeo) as [v ->]. cbn.
    destruct (truthy v); eauto.
  - destruct (Earlier_updatePosition_polygon rotation m _ _ Hp) as (m' & ? & _). eauto.
Qed.

Lemma Earlier_updatePositionAt_eq rotation l this :
  Earlier.updatePositionAt psv rotation l this =
  match store this !! l with
  | None => (Throw TypeError, this)
  | Some m =>
      match Earlier.updatePosition psv rotation m with
      | Normal m' => (Normal tt, set_store (λ objects, <[l := m']> objects) this)
      | Throw e => (Throw e, this)
      end
  end.
Proof.
  unfold Earlier.updatePositionAt. run_M. destruct (store this !! l) as [m|]; cbn; [|done].
  by destruct (Earlier.updatePosition psv rotation m).
Qed.

(** The pass of the first listing returns when the entries visited are
    marker objects; it leaves a visited marker as its last visit does. *)
Lemma Earlier_forIn_visit rotation (I R : Marker -> Prop) (l : nat) :
  (∀ m m', I m -> Earlier.updatePosition psv rotation m = Normal m' -> I m' /\ R m') ->
  ∀ entries this m,
    Forall (λ e : string * nat, is_Some (store this !! e.2)) entries ->
    store this !! l = Some m -> I m ->
    ∃ this' m', forIn entries (Earlier.updatePositionAt psv rotation) this = (Normal tt, this') /\
      store this' !! l = Some m' /\ I m' /\ ((R m \/ l ∈ entries.*2) -> R m').
Proof.
  intros Hbody. induction entries as [|[id l1] entries IH]; intros this m Hrefs Hl HI.
  { exists this, m. split_and!; [done..|].
    intros [?|Hin]; [done|]. by apply elem_of_nil in Hin. }
  apply Forall_cons in Hrefs as [[m1 Hl1] Hrefs]. simpl in Hl1.
  rewrite forIn_cons, Earlier_updatePositionAt_eq, Hl1.
  destruct (Earlier_updatePosition_total rotation m1) as [m1' Hm1]. rewrite Hm1.
  assert (Hrefs' : Forall (λ e : string * nat,
            is_Some (store (set_store (λ objects, <[l1:=m1']> objects) this) !! e.2)) entries).
  { eapply Forall_impl; [exact Hrefs|]. intros [id2 l2] Hsome. simpl in *.
    apply lookup_lt_is_Some. rewrite length_insert. by apply lookup_lt_is_Some. }
  destruct (decide (l1 = l)) as [->|Hne].
  - assert (m1 = m) as -> by congruence.
    destruct (Hbody m m1' HI Hm1) as [HI' HR'].
    destruct (IH (set_store (λ objects, <[l:=m1']> objects) this) m1' Hrefs')
      as (this' & m' & Hrun & Hm' & HIm' & HRm'); [|done|].
    { simpl. apply list_lookup_insert_eq. by eapply lookup_lt_Some. }
    exists this', m'. split_and!; [done..|]. intros _. apply HRm'. by left.
  - destruct (IH (set_store (λ objects, <[l1:=m1']> objects) this) m Hrefs')
      as (this' & m' & Hrun & Hm' & HIm' & HRm'); [|done|].
    { simpl. by rewrite list_lookup_insert_ne. }
    exists this', m'. split_and!; [done..|]. intros [HR|Hin]; apply HRm'; [by left|].
    right. simpl in Hin. apply elem_of_cons in Hin as [?|?]; [congruence|done].
Qed.
End EarlierPass.

(** X13.  In the first listing, the pass returns on every HUD whose
    registry refers to marker objects, and it shows a registered polygon
    exactly when the polygon is flagged visible and one of its vertices is
    in front of the camera with its projection on the viewport.  The
    points of the polygon are then the projections of all its vectors;
    otherwise [position2D] is null and the class that shows the marker is
    removed. *)
Theorem Earlier_polygon_shown (psv : PhotoSphereViewer) (this : PSVHUD)
    (id : string) (l : nat) (m : Marker)
    (positions3D : list Vector3) (polygon_rad : list (float * float)) :
  refs_valid this ->
  markers this !! id = Some l -> store this !! l = Some m ->
  geometry m = Polygon positions3D polygon_rad ->
  ∃ this' m',
    Earlier.updatePositions psv this = (Normal tt, this') /\
    store this' !! l = Some m' /\ visible m' = visible m /\
    if truthy (visible m) && existsb (on_screen psv) positions3D
    then outlined m' (map (vector3ToViewerCoords psv) positions3D)
    else position2D m' = None /\ classList_visible (el m') = false.
Proof.
  intros Hrefs Hid Hl Hp. unfold Earlier.updatePositions. run_M.
  destruct (Earlier_forIn_visit psv (rotation_of psv)
    (λ m0, geometry m0 = Polygon positions3D polygon_rad /\ visible m0 = visible m)
    (λ m0, if truthy (visible m) && existsb (on_screen psv) positions3D
           then outlined m0 (map (vector3ToViewerCoords psv) positions3D)
           else position2D m0 = None /\ classList_visible (el m0) = false) l)
    with (entries := map_to_list (markers this)) (this := this) (m := m)
    as (this' & m' & Hrun & Hm' & (_ & Hvis') & HR); try done.
  - intros m0 m0' (Hp0 & Hvis0) Hm0.
    destruct (Earlier_updatePosition_polygon psv (rotation_of psv) m0 _ _ Hp0)
      as (m0'' & Hm0' & (Hgeo' & Hvis'') & Hshown).
    assert (m0'' = m0') as -> by congruence.
    split; [split; congruence|]. by rewrite Hvis'', Hvis0 in Hshown.
  - apply Forall_forall. intros [id0 l0] Hin. apply elem_of_map_to_list in Hin.
    simpl. by eapply Hrefs.
  - exists this', m'. split_and!; try done. apply HR. right.
    apply list_elem_of_fmap. exists (id, l). split; [done|]. by apply elem_of_map_to_list.
Qed.

(** ** The order of the numbers *)

Ltac cmp_cases :=
  repeat match goal with
         | H : context [PosDef.Pos.compare_cont Eq ?a ?b] |- _ =>
             change (PosDef.Pos.compare_cont Eq a b) with (Pos.compare a b) in H
         | |- context [PosDef.Pos.compare_cont Eq ?a ?b] =>
             change (PosDef.Pos.compare_cont Eq a b) with (Pos.compare a b)
         end;
  repeat match goal with
         | H : context [(?x ?= ?y)%Z] |- _ => destruct (Z.compare_spec x y); simpl in H
         | |- context [(?x ?= ?y)%Z] => destruct (Z.compare_spec x y); simpl
         | H : context [(?x ?= ?y)%positive] |- _ => destruct (Pos.compare_spec x y); simpl in H
         | |- context [(?x ?= ?y)%positive] => destruct (Pos.compare_spec x y); simpl
         end;
  try discriminate; try reflexivity; try lia.

Lemma SFleb_trans a b c : SFleb a b = true -> SFleb b c = true -> SFleb a c = true.
Proof.
  unfold SFleb, SFcompare.
  destruct a as [[]|[]| |[] m1 e1], b as [[]|[]| |[] m2 e2], c as [[]|[]| |[] m3 e3];
    intros H1 H2; try discriminate; try reflexivity; cmp_cases.
Qed.

Lemma SFleb_total a b :
  SFeqb a a = true -> SFeqb b b = true -> SFltb b a = false -> SFleb a b = true.
Proof.
  unfold SFeqb, SFleb, SFltb, SFcompare.
  destruct a as [[]|[]| |[] m1 e1], b as [[]|[]| |[] m2 e2];
    intros H1 H2 H3; try discriminate; try reflexivity; cmp_cases.
Qed.

Lemma SFleb_refl a : SFeqb a a = true -> SFleb a a = true.
Proof. unfold SFeqb, SFleb. by destruct (SFcompare a a) as [[]|]. Qed.

Lemma SFltb_leb a b : SFltb a b = true -> SFleb a b = true.
Proof. unfold SFltb, SFleb. by destruct (SFcompare a b) as [[]|]. Qed.

Lemma number_eqb a : number a -> SFeqb (Prim2SF a) (Prim2SF a) = true.
Proof.
  unfold number, PrimFloat.is_nan. rewrite FloatAxioms.eqb_spec. by destruct (SFeqb _ _).
Qed.

Lemma fle_refl a : number a -> fle a a.
Proof. intros H. unfold fle. rewrite leb_spec. by apply SFleb_refl, number_eqb. Qed.

Lemma fle_trans a b c : fle a b -> fle b c -> fle a c.
Proof. unfold fle. rewrite !leb_spec. apply SFleb_trans. Qed.

Lemma ltb_fle a b : PrimFloat.ltb a b = true -> fle a b.
Proof. unfold fle. rewrite ltb_spec, leb_spec. apply SFltb_leb. Qed.

Lemma not_ltb_fle a b : number a -> number b -> PrimFloat.ltb b a = false -> fle a b.
Proof.
  intros Ha Hb. unfold fle. rewrite ltb_spec, leb_spec.
  apply SFleb_total; by apply number_eqb.
Qed.

Lemma fle_infinity a : number a -> fle a infinity /\ fle neg_infinity a.
Proof.
  intros Ha. apply number_eqb in Ha. unfold fle. rewrite !leb_spec.
  replace (Prim2SF infinity) with (S754_infinity false) by reflexivity.
  replace (Prim2SF neg_infinity) with (S754_infinity true) by reflexivity.
  revert Ha. unfold SFeqb, SFleb, SFcompare.
  by destruct (Prim2SF a) as [[]|[]| |[] m e].
Qed.

Lemma infinity_fle a : fle infinity a -> a = infinity.
Proof.
  unfold fle. rewrite leb_spec. intros H. apply Prim2SF_inj.
  replace (Prim2SF infinity) with (S754_infinity false) in * by reflexivity.
  revert H. unfold SFleb, SFcompare.
  by destruct (Prim2SF a) as [[]|[]| |[] m e].
Qed.

Lemma fle_neg_infinity a : fle a neg_infinity -> a = neg_infinity.
Proof.
  unfold fle. rewrite leb_spec. intros H. apply Prim2SF_inj.
  replace (Prim2SF neg_infinity) with (S754_infinity true) in * by reflexivity.
  revert H. unfold SFleb, SFcompare.
  by destruct (Prim2SF a) as [[]|[]| |[] m e].
Qed.

Lemma Math_min_spec a b :
  number a -> number b ->
  number (Math_min a b) /\ fle (Math_min a b) a /\ fle (Math_min a b) b /\
  (Math_min a b = a \/ Math_min a b = b).
Proof.
  intros Ha Hb. unfold Math_min. rewrite Ha, Hb.
  destruct (PrimFloat.ltb b a) eqn:Hlt.
  { split_and!; [done|by apply ltb_fle|by apply fle_refl|by right]. }
  destruct (PrimFloat.ltb a b) eqn:Hgt.
  { split_and!; [done|by apply fle_refl|by apply ltb_fle|by left]. }
  destruct (PrimFloat.get_sign a).
  - split_and!; [done|by apply fle_refl|by apply not_ltb_fle|by left].
  - split_and!; [done|by apply not_ltb_fle|by apply fle_refl|by right].
Qed.

Lemma Math_max_spec a b :
  number a -> number b ->
  number (Math_max a b) /\ fle a (Math_max a b) /\ fle b (Math_max a b) /\
  (Math_max a b = a \/ Math_max a b = b).
Proof.
  intros Ha Hb. unfold Math_max. rewrite Ha, Hb.
  destruct (PrimFloat.ltb a b) eqn:Hlt.
  { split_and!; [done|by apply ltb_fle|by apply fle_refl|by right]. }
  destruct (PrimFloat.ltb b a) eqn:Hgt.
  { split_and!; [done|by apply fle_refl|by apply ltb_fle|by left]. }
  destruct (PrimFloat.get_sign a).
  - split_and!; [done|by apply not_ltb_fle|by apply fle_refl|by right].
  - split_and!; [done|by apply fle_refl|by apply not_ltb_fle|by left].
Qed.

Lemma foldl_Math_min (f : Position -> float) positions : ∀ init,
  number init -> Forall (λ pos, number (f pos)) positions ->
  let r := foldl (λ acc pos, Math_min acc (f pos)) init positions in
  number r /\ fle r init /\ Forall (λ pos, fle r (f pos)) positions /\
  (r = init \/ ∃ pos, pos ∈ positions /\ f pos = r).
Proof.
  induction positions as [|pos positions IH]; intros init Hinit Hall; cbv zeta.
  { split_and!; [done|by apply fle_refl|done|by left]. }
  apply Forall_cons in Hall as [Hpos Hall]. simpl.
  destruct (Math_min_spec init (f pos) Hinit Hpos) as (Hn & Hle1 & Hle2 & Hor).
  destruct (IH (Math_min init (f pos)) Hn Hall) as (Hr & Hrle & Hrall & Hror).
  split_and!; [done|by eapply fle_trans| |].
  - constructor; [by eapply fle_trans|done].
  - destruct Hror as [->|(pos' & Hin & Heq)].
    + destruct Hor as [->| ->]; [by left|]. right. exists pos. split; [by left|done].
    + right. exists pos'. split; [by right|done].
Qed.

Lemma foldl_Math_max (f : Position -> float) positions : ∀ init,
  number init -> Forall (λ pos, number (f pos)) positions ->
  let r := foldl (λ acc pos, Math_max acc (f pos)) init positions in
  number r /\ fle init r /\ Forall (λ pos, fle (f pos) r) positions /\
  (r = init \/ ∃ pos, pos ∈ positions /\ f pos = r).
Proof.
  induction positions as [|pos positions IH]; intros init Hinit Hall; cbv zeta.
  { split_and!; [done|by apply fle_refl|done|by left]. }
  apply Forall_cons in Hall as [Hpos Hall]. simpl.
  destruct (Math_max_spec init (f pos) Hinit Hpos) as (Hn & Hle1 & Hle2 & Hor).
  destruct (IH (Math_max init (f pos)) Hn Hall) as (Hr & Hrle & Hrall & Hror).
  split_and!; [done|by eapply fle_trans| |].
  - constructor; [by eapply fle_trans|done].
  - destruct Hror as [->|(pos' & Hin & Heq)].
    + destruct Hor as [->| ->]; [by left|]. right. exists pos. split; [by left|done].
    + right. exists pos'. split; [by right|done].
Qed.

(** The least and the greatest of the values [f pos], from [Infinity] and
    [-Infinity]. *)
Lemma least_spec (f : Position -> float) positions :
  Forall (λ pos, number (f pos)) positions ->
  let r := foldl (λ acc pos, Math_min acc (f pos)) infinity positions in
  Forall (λ pos, fle r (f pos)) positions /\
  (positions ≠ [] -> ∃ pos, pos ∈ positions /\ f pos = r).
Proof.
  intros Hall. destruct (foldl_Math_min f positions infinity eq_refl Hall)
    as (_ & _ & Hle & Hor). cbv zeta. split; [done|].
  intros Hne. destruct Hor as [Hinf|?]; [|done].
  destruct positions as [|pos positions]; [done|]. exists pos. split; [by left|].
  apply Forall_cons in Hle as [Hle _]. rewrite Hinf in *. by apply infinity_fle.
Qed.

Lemma greatest_spec (f : Position -> float) positions :
  Forall (λ pos, number (f pos)) positions ->
  let r := foldl (λ acc pos, Math_max acc (f pos)) neg_infinity positions in
  Forall (λ pos, fle (f pos) r) positions /\
  (positions ≠ [] -> ∃ pos, pos ∈ positions /\ f pos = r).
Proof.
  intros Hall. destruct (foldl_Math_max f positions neg_infinity eq_refl Hall)
    as (_ & _ & Hle & Hor). cbv zeta. split; [done|].
  intros Hne. destruct Hor as [Hinf|?]; [|done].
  destruct positions as [|pos positions]; [done|]. exists pos. split; [by left|].
  apply Forall_cons in Hle as [Hle _]. rewrite Hinf in *. by apply fle_neg_infinity.
Qed.

(** X14.  For points whose coordinates are numbers, [_getPolygonDimensions]
    gives the box of the points: the corner it returns is above and to the
    left of every point, the width and the height it gives to the marker
    are the differences to a right side and a bottom side that no point
    passes, and each of the four sides goes through one of the points. *)
Theorem polygon_dimensions_box (marker : Marker) (positions : list Position) :
  Forall (λ pos, number (left pos) /\ number (top pos)) positions ->
  ∃ right bottom,
    width (_getPolygonDimensions marker positions).1
      = (right - left (_getPolygonDimensions marker positions).2)%js /\
    height (_getPolygonDimensions marker positions).1
      = (bottom - top (_getPolygonDimensions marker positions).2)%js /\
    bounding_box (_getPolygonDimensions marker positions).2 right bottom positions.
Proof.
  intros Hall.
  assert (Hleft : Forall (λ pos, number (left pos)) positions)
    by (eapply Forall_impl; [exact Hall|]; by intros ? [? ?]).
  assert (Htop : Forall (λ pos, number (top pos)) positions)
    by (eapply Forall_impl; [exact Hall|]; by intros ? [? ?]).
  destruct (least_spec left positions Hleft) as [HminX HminX'].
  destruct (least_spec top positions Htop) as [HminY HminY'].
  destruct (greatest_spec left positions Hleft) as [HmaxX HmaxX'].
  destruct (greatest_spec top positions Htop) as [HmaxY HmaxY'].
  eexists _, _. split; [reflexivity|]. split; [reflexivity|]. split.
  - apply Forall_forall. intros pos Hin. simpl.
    rewrite Forall_forall in HminX, HminY, HmaxX, HmaxY. split; split; auto.
  - intros Hne. simpl. split_and!; auto.
Qed.

(** X15.  A pass, in either listing and whether it returns or throws,
    leaves the registry, the two surfaces, the selected and the hovered
    markers and the tooltip as they are, and every marker object with its
    id, its [visible] flag, its geometry and its tooltip: it writes
    positions, sizes and elements only. *)
Theorem pass_writes_positions_only (psv : PhotoSphereViewer) (this : PSVHUD) :
  frame this (updatePositions psv this).2 /\
  frame this (Earlier.updatePositions psv this).2.
Proof. split; [apply updatePositions_frame|apply Earlier_updatePositions_frame]. Qed.

Lemma Samples_hud_inv :
  hud_wf Samples.hud /\ keys_truthy Samples.hud /\ surfaces_wf Samples.hud.
Proof.
  apply (after_inv [(Scenario.viewer, Method (AddMarker Examples.front true));
                    (Scenario.viewer, Method (AddMarker Samples.area true))] new_PSVHUD).
  split_and!; [apply hud_wf_new|apply keys_truthy_new|apply surfaces_wf_new].
Qed.

Lemma point_marker_placed_witness :
  ∃ this' m',
    updatePositions Scenario.viewer Samples.hud = (Normal tt, this') /\
    store this' !! 0 = Some m' /\
    visible m' = visible Objects.front /\ anchor m' = anchor Objects.front /\
    (dynamicSize Objects.front = false ->
     width m' = width Objects.front /\ height m' = height Objects.front) /\
    placed Scenario.viewer m' (Scenario.sphericalToVector 0 0).
Proof.
  apply (point_marker_placed Scenario.viewer Samples.hud "front" 0 Objects.front
           (Scenario.sphericalToVector 0 0)).
  - apply hud_wf_refs_valid, Samples_hud_inv.
  - vm_compute. repeat constructor.
  - vm_compute. reflexivity.
  - vm_compute. reflexivity.
  - vm_compute. reflexivity.
Defined.

Lemma polygon_marker_outlined_witness :
  ∃ this' m' positions,
    updatePositions Scenario.viewer Samples.hud = (Normal tt, this') /\
    store this' !! 1 = Some m' /\
    visible m' = visible Objects.area /\
    polygonPositions Scenario.viewer (Some (fovBounds_of Scenario.viewer))
      (frustrumPoints_of Scenario.viewer (fovBounds_of Scenario.viewer))
      (map (λ pos, Scenario.sphericalToVector (snd pos) (fst pos))
         [(0.1, 0.1); (-0.1, 0.2); (0.2, 6.2)]%float)
      [(0.1, 0.1); (-0.1, 0.2); (0.2, 6.2)]%float
      = Normal positions /\
    outlined m' positions.
Proof.
  apply (polygon_marker_outlined Scenario.viewer Samples.hud "area" 1 Objects.area).
  - apply hud_wf_refs_valid, Samples_hud_inv.
  - vm_compute. repeat constructor.
  - vm_compute. reflexivity.
  - vm_compute. reflexivity.
  - vm_compute. reflexivity.
Defined.

Lemma hide_and_show_point_marker_witness :
  (∃ this' m',
     hideMarker Scenario.viewer (ArgId "front") Samples.hud = (Normal tt, this') /\
     markers this' = markers Samples.hud /\
     store this' !! 0 = Some m' /\ visible m' = JBool false /\
     position2D m' = None /\ classList_visible (el m') = false) /\
  (∃ this' m',
     showMarker Scenario.viewer (ArgId "front") Samples.hud = (Normal tt, this') /\
     markers this' = markers Samples.hud /\
     store this' !! 0 = Some m' /\ visible m' = JBool true /\
     placed Scenario.viewer m' (Scenario.sphericalToVector 0 0)).
Proof.
  apply (hide_and_show_point_marker Scenario.viewer (ArgId "front") Samples.hud 0
           Objects.front (Scenario.sphericalToVector 0 0)).
  - apply hud_wf_refs_valid, Samples_hud_inv.
  - vm_compute. repeat constructor.
  - vm_compute. reflexivity.
  - vm_compute. reflexivity.
  - vm_compute. reflexivity.
Defined.

Lemma clipping_keeps_visible_vertices_witness :
  ∃ positions,
    polygonPositions Scenario.viewer (Some (fovBounds_of Scenario.viewer))
      (frustrumPoints_of Scenario.viewer (fovBounds_of Scenario.viewer))
      Objects.crossing_vectors [(0, 0.2); (0, 1.2); (0.3, 1.2); (0.3, 0.2)]%float
      = Normal positions /\
    map (vector3ToViewerCoords Scenario.viewer)
      (visibleVectors (fovBounds_of Scenario.viewer) Objects.crossing_vectors
         [(0, 0.2); (0, 1.2); (0.3, 1.2); (0.3, 0.2)]%float)
      `sublist_of` positions /\
    length positions <= length [(0, 0.2); (0, 1.2); (0.3, 1.2); (0.3, 0.2)]%float.
Proof.
  apply (clipping_keeps_visible_vertices Scenario.viewer (fovBounds_of Scenario.viewer)
           (frustrumPoints_of Scenario.viewer (fovBounds_of Scenario.viewer))
           Objects.crossing_vectors [(0, 0.2); (0, 1.2); (0.3, 1.2); (0.3, 0.2)]%float).
  - reflexivity.
  - reflexivity.
Defined.

Lemma Earlier_polygon_shown_witness :
  ∃ this' m',
    Earlier.updatePositions Scenario.viewer Samples.hud = (Normal tt, this') /\
    store this' !! 1 = Some m' /\ visible m' = visible Objects.area /\
    if truthy (visible Objects.area) &&
       existsb (on_screen Scenario.viewer)
         (map (λ pos, Scenario.sphericalToVector (snd pos) (fst pos))
            [(0.1, 0.1); (-0.1, 0.2); (0.2, 6.2)]%float)
    then outlined m'
           (map (vector3ToViewerCoords Scenario.viewer)
              (map (λ pos, Scenario.sphericalToVector (snd pos) (fst pos))
                 [(0.1, 0.1); (-0.1, 0.2); (0.2, 6.2)]%float))
    else position2D m' = None /\ classList_visible (el m') = false.
Proof.
  apply (Earlier_polygon_shown Scenario.viewer Samples.hud "area" 1 Objects.area
           (map (λ pos, Scenario.sphericalToVector (snd pos) (fst pos))
              [(0.1, 0.1); (-0.1, 0.2); (0.2, 6.2)]%float)
           [(0.1, 0.1); (-0.1, 0.2); (0.2, 6.2)]%float).
  - apply hud_wf_refs_valid, Samples_hud_inv.
  - vm_compute. reflexivity.
  - vm_compute. reflexivity.
  - vm_compute. reflexivity.
Defined.

Lemma polygon_dimensions_box_witness :
  ∃ right bottom,
    width (_getPolygonDimensions Objects.area Objects.triangle).1
      = (right - left (_getPolygonDimensions Objects.area Objects.triangle).2)%js /\
    height (_getPolygonDimensions Objects.area Objects.triangle).1
      = (bottom - top (_getPolygonDimensions Objects.area Objects.triangle).2)%js /\
    bounding_box (_getPolygonDimensions Objects.area Objects.triangle).2 right bottom
      Objects.triangle.
Proof.
  apply (polygon_dimensions_box Objects.area Objects.triangle).
  repeat constructor.
Defined.

(** ** Registering and unregistering *)

(** X16.  For properties with an id that is not registered and is not a
    name inherited from [Object.prototype], on a HUD whose
    registry refers to markers under their ids and whose polygons, the new
    one included, have as many vectors as pairs, [addMarker] returns a new
    marker object, built from the properties, and registers it under the
    id, leaving the other entries as they are.  Its element is appended to
    the container for a point marker and to the SVG surface for a polygon.
    The selected and the hovered markers and the tooltip are left as they
    are, and so is every other marker object, with its id, its [visible]
    flag, its geometry and its tooltip. *)
Theorem addMarker_registers (psv : PhotoSphereViewer) (properties : Properties)
    (render : bool) (this : PSVHUD) :
  id_truthy (p_id properties) = true ->
  inherited (ToString (p_id properties)) = false ->
  markers this !! ToString (p_id properties) = None ->
  hud_wf this ->
  Forall marker_wf (store this) ->
  marker_wf (new_PSVMarker (ToString (p_id properties)) properties) ->
  ∃ marker this1 m,
    addMarker psv properties render this = (Normal marker, this1) /\
    store this !! marker = None /\
    store this1 !! marker = Some m /\
    same_marker (new_PSVMarker (ToString (p_id properties)) properties) m /\
    markers this1 = <[ToString (p_id properties) := marker]> (markers this) /\
    (if isNormal m
     then container this1 = container this ++ [marker] /\ svg this1 = svg this
     else container this1 = container this /\ svg this1 = svg this ++ [marker]) /\
    (currentMarker this1 = currentMarker this /\
     hoveringMarker this1 = hoveringMarker this /\
     tooltip_shown this1 = tooltip_shown this) /\
    ∀ l m0, store this !! l = Some m0 ->
      ∃ m0', store this1 !! l = Some m0' /\ same_marker m0 m0'.
Proof.
  intros Hid _ Hnew Hwf Hpoly Hm.
  destruct (addMarker_total psv properties render this Hid Hnew Hwf Hpoly Hm)
    as (marker & this1 & Hadd).
  destruct (addMarker_Normal _ _ _ _ _ _ Hwf Hadd) as (_ & _ & -> & _ & _ & Hf).
  destruct (registered_unchanged properties this) as (Rcur & Rhov & Rtip).
  destruct (registered_surfaces properties this) as (Rcont & Rsvg).
  destruct (frame_store _ _ Hf (length (store this))
              (new_PSVMarker (ToString (p_id properties)) properties))
    as (m & Hm1 & Hsame).
  { rewrite store_registered. by rewrite lookup_app_r, Nat.sub_diag. }
  exists (length (store this)), this1, m. split_and!; try done.
  - by apply lookup_ge_None_2.
  - by rewrite (frame_markers _ _ Hf), markers_registered.
  - rewrite (frame_container _ _ Hf), (frame_svg _ _ Hf), Rcont, Rsvg.
    destruct Hsame as (_ & _ & Hgeo & _).
    replace (isNormal m)
      with (isNormal (new_PSVMarker (ToString (p_id properties)) properties))
      by (unfold isNormal, isPolygon; by rewrite Hgeo).
    by destruct (isNormal _).
  - by rewrite (frame_currentMarker _ _ Hf).
  - by rewrite (frame_hoveringMarker _ _ Hf).
  - by rewrite (frame_tooltip_shown _ _ Hf).
  - intros l m0 Hl. apply (frame_store _ _ Hf). rewrite store_registered.
    by apply lookup_app_l_Some.
Qed.

Lemma addMarker_registers_witness :
  ∃ marker this1 m,
    addMarker Scenario.viewer Examples.back true Samples.hud = (Normal marker, this1) /\
    store Samples.hud !! marker = None /\
    store this1 !! marker = Some m /\
    same_marker (new_PSVMarker (ToString (p_id Examples.back)) Examples.back) m /\
    markers this1 = <[ToString (p_id Examples.back) := marker]> (markers Samples.hud) /\
    (if isNormal m
     then container this1 = container Samples.hud ++ [marker] /\ svg this1 = svg Samples.hud
     else container this1 = container Samples.hud /\ svg this1 = svg Samples.hud ++ [marker]) /\
    (currentMarker this1 = currentMarker Samples.hud /\
     hoveringMarker this1 = hoveringMarker Samples.hud /\
     tooltip_shown this1 = tooltip_shown Samples.hud) /\
    ∀ l m0, store Samples.hud !! l = Some m0 ->
      ∃ m0', store this1 !! l = Some m0' /\ same_marker m0 m0'.
Proof.
  apply (addMarker_registers Scenario.viewer Examples.back true Samples.hud).
  - reflexivity.
  - vm_compute. reflexivity.
  - vm_compute. reflexivity.
  - apply Samples_hud_inv.
  - vm_compute. repeat constructor.
  - vm_compute. exact I.
Defined.

(** X17.  On a HUD whose registry refers to markers under their ids, the
    element of each on the surface of its kind, and whose polygons have as
    many vectors as pairs, [removeMarker] with the id of a registered
    marker, given as such or in an object, returns; the entry of this id is deleted
    from the registry and the other entries are left as they are; the
    element of the marker is removed from the container for a point marker
    and from the SVG surface for a polygon; the tooltip is hidden if the
    marker was the hovered one.  [currentMarker] and [hoveringMarker] are
    left as they are. *)
Theorem removeMarker_unregisters (psv : PhotoSphereViewer) (marker : MarkerArg)
    (render : bool) (this : PSVHUD) (l : nat) (m : Marker) :
  hud_wf this ->
  elements_attached this = true ->
  Forall marker_wf (store this) ->
  markers this !! ToString (arg_id marker) = Some l ->
  store this !! l = Some m ->
  ∃ this1,
    removeMarker psv marker render this = (Normal tt, this1) /\
    markers this1 = delete (ToString (arg_id marker)) (markers this) /\
    (if isNormal m
     then container this1 = removeChild l (container this) /\ svg this1 = svg this
     else container this1 = container this /\ svg this1 = removeChild l (svg this)) /\
    tooltip_shown this1
      = (if bool_decide (hoveringMarker this = Some l) then false else tooltip_shown this) /\
    currentMarker this1 = currentMarker this /\
    hoveringMarker this1 = hoveringMarker this.
Proof.
  intros Hwf _ Hpoly Hl Hm. rewrite removeMarker_eq, Hl, Hm.
  destruct (proj1 Hwf _ _ Hl) as (m1 & Hm1 & Hmid).
  assert (m1 = m) as -> by congruence.
  destruct (removed_unchanged l m this) as (Hst & Hcur & Hhov & _).
  destruct (removed_surfaces l m this) as (Hcont & Hsvg & Htip).
  assert (Hpost : ∀ this1, frame (removed l m this) this1 ->
    markers this1 = delete (ToString (arg_id marker)) (markers this) /\
    (if isNormal m
     then container this1 = removeChild l (container this) /\ svg this1 = svg this
     else container this1 = container this /\ svg this1 = removeChild l (svg this)) /\
    tooltip_shown this1
      = (if bool_decide (hoveringMarker this = Some l) then false else tooltip_shown this) /\
    currentMarker this1 = currentMarker this /\
    hoveringMarker this1 = hoveringMarker this).
  { intros this1 [Fm Fc Fs Fcur Fhov Ftip _ _]. split_and!; try congruence.
    - by rewrite Fm, markers_removed, Hmid.
    - rewrite Fc, Fs, Hcont, Hsvg. by destruct (isNormal m). }
  destruct render.
  - destruct (updatePositions_total psv (removed l m this)) as [this1 Hrun].
    + by apply hud_wf_refs_valid, hud_wf_removed.
    + by rewrite Hst.
    + exists this1. split; [done|]. apply Hpost.
      pose proof (updatePositions_frame psv (removed l m this)) as Hf.
      by rewrite Hrun in Hf.
  - exists (removed l m this). split; [done|]. apply Hpost, frame_refl.
Qed.

Lemma removeMarker_unregisters_witness :
  ∃ this1,
    removeMarker Scenario.viewer (ArgId "front") true Samples.hovered = (Normal tt, this1) /\
    markers this1 = delete (ToString (arg_id (ArgId "front"))) (markers Samples.hovered) /\
    (if isNormal Objects.front
     then container this1 = removeChild 0 (container Samples.hovered) /\
          svg this1 = svg Samples.hovered
     else container this1 = container Samples.hovered /\
          svg this1 = removeChild 0 (svg Samples.hovered)) /\
    tooltip_shown this1
      = (if bool_decide (hoveringMarker Samples.hovered = Some 0)
         then false else tooltip_shown Samples.hovered) /\
    currentMarker this1 = currentMarker Samples.hovered /\
    hoveringMarker this1 = hoveringMarker Samples.hovered.
Proof.
  apply (removeMarker_unregisters Scenario.viewer (ArgId "front") true Samples.hovered 0
           Objects.front).
  - apply (after_inv [(Scenario.viewer, Dispatch Samples.idle
                         (Samples.event "mouseenter" (Some 0) false))] Samples.hud).
    apply Samples_hud_inv.
  - vm_compute. reflexivity.
  - vm_compute. repeat constructor.
  - vm_compute. reflexivity.
  - vm_compute. reflexivity.
Defined.
